(** * Translation-merging engine of the Evolution generator

    A shallow embedding of [generate_libelles.py]: the notation transformer
    [ValueReplacer], the per-file store [TranslationLangNs], the registry
    [TranslationData], the extraction pipeline [FillLocalesTranslations] and
    the orchestrator [generate_libelles], followed by the properties proved
    about them. *)

From Stdlib Require Import String Ascii List Bool Arith ZArith Lia.
Import ListNotations.
Local Open Scope list_scope.
Local Open Scope string_scope.

(* ===================================================================== *)
(** * Python string built-ins                                             *)
(* ===================================================================== *)

(** The patterns this program searches for are non-empty literals; the
    models below follow Python for non-empty patterns. *)

(** [s[n:]] *)
Fixpoint str_drop (n : nat) (s : string) : string :=
  match n, s with
  | 0, _ => s
  | S k, String _ s' => str_drop k s'
  | S _, EmptyString => EmptyString
  end.

(** [sub in s] *)
Fixpoint str_in (sub s : string) : bool :=
  if prefix sub s then true
  else match s with
       | EmptyString => false
       | String _ s' => str_in sub s'
       end.

(** [s.replace(old, new, 1)]: the leftmost occurrence only. *)
Fixpoint str_replace1 (s old new : string) : string :=
  if prefix old s then new ++ str_drop (String.length old) s
  else match s with
       | EmptyString => EmptyString
       | String c s' => String c (str_replace1 s' old new)
       end.

(** Left-to-right scan for non-overlapping occurrences: [skip] counts the
    characters of the last match that are still to be passed over. *)
Fixpoint count_from (skip : nat) (s sub : string) : nat :=
  match s with
  | EmptyString => 0
  | String _ s' =>
      match skip with
      | S k => count_from k s' sub
      | 0 => if prefix sub s
             then S (count_from (String.length sub - 1) s' sub)
             else count_from 0 s' sub
      end
  end.

(** [s.count(sub)]: the number of non-overlapping occurrences. *)
Definition str_count (s sub : string) : nat := count_from 0 s sub.

Fixpoint replace_from (skip : nat) (s old new : string) : string :=
  match s with
  | EmptyString => EmptyString
  | String c s' =>
      match skip with
      | S k => replace_from k s' old new
      | 0 => if prefix old s
             then new ++ replace_from (String.length old - 1) s' old new
             else String c (replace_from 0 s' old new)
      end
  end.

(** [s.replace(old, new)]: every non-overlapping occurrence, left to right. *)
Definition str_replace (s old new : string) : string := replace_from 0 s old new.

(** [s.split(sep, 1)]: [(before, Some after)] at the first separator
    character, [(s, None)] when there is none (a one-element list). *)
Fixpoint str_split1 (s : string) (sep : ascii) : string * option string :=
  match s with
  | EmptyString => (EmptyString, None)
  | String c s' =>
      if Ascii.eqb c sep then (EmptyString, Some s')
      else let '(a, b) := str_split1 s' sep in (String c a, b)
  end.

Definition newline : string := String (ascii_of_nat 10) EmptyString.

(** The double-quote character, as a one-character string. *)
Definition dquote : string := String (ascii_of_nat 34) EmptyString.

(* ===================================================================== *)
(** * ValueReplacer                                                       *)
(* ===================================================================== *)

Module ValueReplacer.

Definition startBoldHtml := "<strong>".
Definition endBoldHtml := "</strong>".
Definition boldNotation := "**".

Definition startOblique := "<span class=" ++ dquote ++ "_pale _oblique" ++ dquote ++ ">".
Definition endOblique := "</span>".
Definition obliqueNotation := "__".

Definition startGreen := "<span style=" ++ dquote ++ "color: green;" ++ dquote ++ ">".
Definition endGreen := "</span>".
Definition greenNotation := "_green_".

Definition startRed := "<span style=" ++ dquote ++ "color: red;" ++ dquote ++ ">".
Definition endRed := "</span>".
Definition redNotation := "_red_".

(** The [while notation in replacedStr] loop of [replaceStartEnd]; [None]
    when [fuel] iterations did not reach the end of the loop. *)
Fixpoint replace_while (fuel : nat) (replacedStr notation startReplaced endReplaced : string)
         (replacedCount : nat) : option string :=
  match fuel with
  | 0 => None
  | S f =>
      if str_in notation replacedStr then
        let replaceWith := if Nat.even replacedCount then startReplaced else endReplaced in
        replace_while f (str_replace1 replacedStr notation replaceWith)
                      notation startReplaced endReplaced (S replacedCount)
      else Some replacedStr
  end.

Definition replaceStartEnd_fuel (fuel : nat) (str notation startReplaced endReplaced : string)
  : option string :=
  if str_in notation str && Nat.even (str_count str notation)
  then replace_while fuel str notation startReplaced endReplaced 0
  else Some str.

(** [replaceStartEnd] run with one more iteration than the string has
    occurrences of the notation ([replaceStartEnd_fuel_spec] shows that
    the loop has ended by then for the four notations of this class). *)
Definition replaceStartEnd (str notation startReplaced endReplaced : string) : string :=
  match replaceStartEnd_fuel (S (str_count str notation))
                             str notation startReplaced endReplaced with
  | Some replacedStr => replacedStr
  | None => str
  end.

Definition replace (str : string) : string :=
  let replacedStr := str_replace str newline "<br />" in
  let replacedStr := replaceStartEnd replacedStr boldNotation startBoldHtml endBoldHtml in
  let replacedStr := replaceStartEnd replacedStr obliqueNotation startOblique endOblique in
  let replacedStr := replaceStartEnd replacedStr greenNotation startGreen endGreen in
  let replacedStr := replaceStartEnd replacedStr redNotation startRed endRed in
  replacedStr.

(** The four notation pairs. *)
Inductive notation_kind := Bold | Oblique | Green | Red.

Definition notation_of (k : notation_kind) : string :=
  match k with
  | Bold => boldNotation | Oblique => obliqueNotation
  | Green => greenNotation | Red => redNotation
  end.

Definition start_of (k : notation_kind) : string :=
  match k with
  | Bold => startBoldHtml | Oblique => startOblique
  | Green => startGreen | Red => startRed
  end.

Definition end_of (k : notation_kind) : string :=
  match k with
  | Bold => endBoldHtml | Oblique => endOblique
  | Green => endGreen | Red => endRed
  end.

End ValueReplacer.

(** ** The balance rule, as the specification words it *)

(** Scanning left to right, the occurrence number [n] (from 0) of the
    notation becomes the opening tag when [n] is even and the closing tag
    when it is odd; everything else is copied. *)
Fixpoint alternate_from (skip n : nat) (s notation opening closing : string) : string :=
  match s with
  | EmptyString => EmptyString
  | String c s' =>
      match skip with
      | S k => alternate_from k n s' notation opening closing
      | 0 => if prefix notation s
             then (if Nat.even n then opening else closing)
                    ++ alternate_from (String.length notation - 1) (S n) s' notation opening closing
             else String c (alternate_from 0 n s' notation opening closing)
      end
  end.

Definition spec_balance (s notation opening closing : string) : string :=
  if Nat.even (str_count s notation)
  then alternate_from 0 0 s notation opening closing
  else s.

(** ** Side conditions on a notation and a tag *)

(** [clash a b]: [a] and [b] differ at a position both have. *)
Fixpoint clash (a b : string) : bool :=
  match a, b with
  | String x a', String y b' => if Ascii.eqb x y then clash a' b' else true
  | _, _ => false
  end.

(** No occurrence of [notation] can start inside [tag], whatever follows. *)
Fixpoint inert (tag notation : string) : bool :=
  match tag with
  | EmptyString => true
  | String _ t' => clash tag notation && inert t' notation
  end.

Fixpoint occurs (c : ascii) (s : string) : bool :=
  match s with
  | EmptyString => false
  | String x s' => Ascii.eqb c x || occurs c s'
  end.

(** The tag starts with a character that the notation does not have. *)
Definition fresh_head (tag notation : string) : bool :=
  match tag with
  | EmptyString => false
  | String t _ => negb (occurs t notation)
  end.

Definition compatible (notation tag : string) : bool :=
  Nat.ltb 0 (String.length notation) && inert tag notation && fresh_head tag notation.

(* ===================================================================== *)
(** * Python values, dictionaries, exceptions                             *)
(* ===================================================================== *)

(** The values that flow through the program: the cells that [openpyxl]
    gives with [data_only], and dictionary keys.  [PInt] stands for a
    cell that is neither text nor a date: a number, a boolean, a
    duration; it has no [replace], no [split] and cannot be concatenated
    with a [str].  [PDate] stands for a date or time cell: it has a
    [replace], which rejects text arguments with a [TypeError], no
    [split], and cannot be concatenated with a [str] either. *)
Inductive pyval :=
| PNone
| PStr (s : string)
| PInt (z : Z)
| PDate (iso : string).

Class EqDec (A : Type) := eq_dec : forall x y : A, {x = y} + {x <> y}.

#[global] Instance string_EqDec : EqDec string := string_dec.

#[global] Instance pyval_EqDec : EqDec pyval.
Proof.
  intros x y. unfold EqDec in *.
  decide equality; [apply string_dec | apply Z.eq_dec | apply string_dec].
Defined.

(** A Python [dict]: keys in insertion order; assigning to a key that is
    present keeps its place, assigning to a new key appends it. *)
Section Dict.
Context {K V : Type} `{EqDec K}.

Fixpoint dict_get (k : K) (d : list (K * V)) : option V :=
  match d with
  | [] => None
  | (k', v) :: d' => if eq_dec k k' then Some v else dict_get k d'
  end.

(** [k in d] *)
Definition dict_mem (k : K) (d : list (K * V)) : bool :=
  match dict_get k d with Some _ => true | None => false end.

(** [d[k] = v] *)
Fixpoint dict_set (k : K) (v : V) (d : list (K * V)) : list (K * V) :=
  match d with
  | [] => [(k, v)]
  | (k', v') :: d' =>
      if eq_dec k k' then (k', v) :: d' else (k', v') :: dict_set k v d'
  end.

Definition dict_keys (d : list (K * V)) : list K := map fst d.

(** [dict(pairs)] *)
Definition dict_of (pairs : list (K * V)) : list (K * V) :=
  fold_left (fun d kv => dict_set (fst kv) (snd kv) d) pairs [].
End Dict.

Inductive exn :=
| AttributeError
| TypeError
| KeyError
| IndexError
| FileNotFoundError
| YAMLError
| StructureError
| Exception_ (msg : string).

Inductive result (A : Type) :=
| Ok (a : A)
| Raise (e : exn).
Arguments Ok {A} a.
Arguments Raise {A} e.

(** A stored value: a plain [str], or a [FoldedScalarString] (a [str]
    marked for block rendering).  A load can also leave two other kinds of
    value in a store, as [yaml.load] gave them: a string of another style
    ([Styled]: a literal block, a quoted string) and a mapping or sequence
    ([Nested], with its [str()] as text). *)
Inductive scalar :=
| Plain (s : string)
| Folded (s : string)
| Styled (s : string)
| Nested (text : string).

Definition text_of (v : scalar) : string :=
  match v with Plain s | Folded s | Styled s | Nested s => s end.

(** What [yaml.load] gives for the value of a key, as far as [stringToYaml]
    tells the values apart. *)
Inductive yamlval :=
| YStr (s : string)
    (* a plain [str] *)
| YScalarString (folded : bool) (s : string)
    (* a [ScalarString] of ruamel: a [FoldedScalarString], or a string of
       another style *)
| YCollection (big : bool) (text : string)
    (* a mapping, a sequence or a set; [big]: it has the member "\n" or
       more than 76 members; [text]: its [str()] *)
| YAtom.
    (* [None], a number, a boolean, a date, bytes: no [in], no [len] *)

(** The serialisation primitives of [ruamel.yaml]: [yaml.dump] of a mapping
    and [yaml.load] of a file's text.  [yaml_load] gives the keys and
    values of the mapping that [yaml.load] returns, in the order of the
    document.  It is [Raise] when [yaml.load] raises, and also for a
    document that is not a mapping and on which the loop of
    [loadCurrentTranslations] raises at its first step (an empty file is
    [None], which is not iterable). *)
Class Yaml := {
  yaml_dump : list (pyval * scalar) -> string;
  yaml_load : string -> result (list (pyval * yamlval))
}.

(* ===================================================================== *)
(** * The world: registry, console, output folder                         *)
(* ===================================================================== *)

(** A file [os.path.join(folder, dir, stem + ".yml")]: the directory by
    its path from the output folder, and the name of the file without its
    extension.  The directory [EmptyString] is the output folder itself:
    [os.path.join] leaves an empty component out.  Paths are read as on
    POSIX, and the stem is taken as a name, without a path separator. *)
Definition fpath := (string * string)%type.

(** [os.path.join(dir, stem + ".yml")] *)
Definition path_text (f : fpath) : string :=
  match fst f with
  | EmptyString => snd f ++ ".yml"
  | dir => dir ++ "/" ++ snd f ++ ".yml"
  end.

(** The output folder: the directories that exist, each by its path from
    the output folder, with its [.yml] files by stem.  The entry of
    [EmptyString] is the output folder itself, with the files that are
    directly in it: a state of an output folder that exists has it. *)
Definition filesystem := list (string * list (string * string)).

(** A per-file store: the attributes of a [TranslationLangNs] object (its
    two unused tag constants left out). *)
Record TranslationLangNs := {
  modified : bool;
  data : list (pyval * scalar);
  file : fpath
}.

(** What the program prints. *)
Inductive logline :=
| LogLoadYaml (err : exn)        (* Error loading yaml file {err} *)
| LogGenerate (file : fpath)     (* Generate {file} successfully *)
| LogAddTranslation (lang : string) (section path : pyval) (e : exn)
                                 (* Exception occurred for {lang} {section} {path}: {e} *)
| LogLocaleSheet (e : exn)       (* Exception occurred in get locales sheet: {e} *)
| LogLocales (e : exn)           (* Exception occurred in add Translations from locale: {e} *)
| LogExcel (e : exn)             (* Exception occurred in addTranslationsFromExcel: {e} *)
| LogError (e : exn).            (* An error occurred: {e} *)

Record world := {
  translations : list (string * list (pyval * TranslationLangNs));
  stdout : list logline;
  disk : filesystem
}.

(** State and exceptions. *)
Definition M (A : Type) := world -> world * result A.

Definition ret {A} (a : A) : M A := fun w => (w, Ok a).

Definition bind {A B} (m : M A) (k : A -> M B) : M B :=
  fun w => match m w with
           | (w', Ok a) => k a w'
           | (w', Raise e) => (w', Raise e)
           end.

Definition raise {A} (e : exn) : M A := fun w => (w, Raise e).

(** [try: m except Exception as e: handler e] *)
Definition try_except {A} (m : M A) (handler : exn -> M A) : M A :=
  fun w => match m w with
           | (w', Ok a) => (w', Ok a)
           | (w', Raise e) => handler e w'
           end.

Definition lift {A} (r : result A) : M A := fun w => (w, r).

Notation "x <- c1 ;; c2" := (bind c1 (fun x => c2))
  (at level 61, c1 at next level, right associativity).
Notation "c1 ;; c2" := (bind c1 (fun _ => c2))
  (at level 61, right associativity).

Definition print (l : logline) : M unit :=
  fun w => ({| translations := translations w;
               stdout := stdout w ++ [l];
               disk := disk w |}, Ok tt).

Definition get_translations : M (list (string * list (pyval * TranslationLangNs))) :=
  fun w => (w, Ok (translations w)).

Definition put_translations (t : list (string * list (pyval * TranslationLangNs))) : M unit :=
  fun w => ({| translations := t; stdout := stdout w; disk := disk w |}, Ok tt).

(** [for x in xs: body x] *)
Fixpoint for_each {A} (xs : list A) (body : A -> M unit) : M unit :=
  match xs with
  | [] => ret tt
  | x :: xs' => body x ;; for_each xs' body
  end.

(** [open(f, "r").read()]: the file must exist. *)
Definition open_read (f : fpath) : M string :=
  fun w => match dict_get (fst f) (disk w) with
           | Some files =>
               match dict_get (snd f) files with
               | Some text => (w, Ok text)
               | None => (w, Raise FileNotFoundError)
               end
           | None => (w, Raise FileNotFoundError)
           end.

(** [open(f, "w")] followed by the writes of [text]: the file is created or
    truncated; its directory must exist already. *)
Definition open_write (f : fpath) (text : string) : M unit :=
  fun w => match dict_get (fst f) (disk w) with
           | Some files =>
               ({| translations := translations w;
                   stdout := stdout w;
                   disk := dict_set (fst f) (dict_set (snd f) text files) (disk w) |},
                Ok tt)
           | None => (w, Raise FileNotFoundError)
           end.

(** A name that a [*] of [glob] matches as one path component: not
    empty, not hidden (no dot first), no path separator. *)
Definition plain_name (s : string) : bool :=
  match s with
  | EmptyString => false
  | String c _ => negb (Ascii.eqb c "."%char) && negb (occurs "/"%char s)
  end.

(** A file that the [glob] of [loadCurrentTranslations] lists: exactly one
    directory below the output folder, directory and file not hidden. *)
Definition listed (f : fpath) : bool := plain_name (fst f) && plain_name (snd f).

(** [glob(escape(folder) + "/**/*.yml")], not recursive, so that [**] is
    one directory name: the [.yml] files one directory below the output
    folder.  The files directly in the output folder, in a deeper
    directory, or with a hidden name or directory are not listed. *)
Definition glob (d : filesystem) : list fpath :=
  filter listed (flat_map (fun dir => map (fun f => (fst dir, fst f)) (snd dir)) d).

(* ===================================================================== *)
(** * TranslationLangNs: one language and section                         *)
(* ===================================================================== *)

Definition TranslationLangNs_init (excel_file_path : fpath) : TranslationLangNs :=
  {| modified := false; data := []; file := excel_file_path |}.

Definition TranslationLangNs_stringToYaml (str : string) : scalar :=
  if str_in newline str then Folded str
  else if Nat.ltb 76 (String.length str) then Folded str
  else Plain str.

(** [stringToYaml] on a loaded YAML value.  A string with a line break or
    more than 76 characters becomes a [FoldedScalarString]; any other value
    is returned as it is, so that a short folded string stays folded and a
    string of another style keeps its style.  The two tests are [in] and
    [len]: a mapping or sequence passes them and is returned as it is
    (folded as its [str()] when it is [big]), a value without [in] raises
    [TypeError]. *)
Definition stringToYaml_loaded (v : yamlval) : result scalar :=
  match v with
  | YStr str => Ok (TranslationLangNs_stringToYaml str)
  | YScalarString folded str =>
      Ok (if str_in newline str then Folded str
          else if Nat.ltb 76 (String.length str) then Folded str
          else if folded then Folded str else Styled str)
  | YCollection big text => Ok (if big then Folded text else Nested text)
  | YAtom => Raise TypeError
  end.

(** The loop of [loadCurrentTranslations] over the loaded mapping. *)
Fixpoint load_paths (translationData : list (pyval * yamlval)) (data : list (pyval * scalar))
  : result (list (pyval * scalar)) :=
  match translationData with
  | [] => Ok data
  | (path, v) :: rest =>
      match stringToYaml_loaded v with
      | Ok y => load_paths rest (dict_set path y data)
      | Raise e => Raise e
      end
  end.

Definition file_header : string :=
  "# This file was automatically generated by the Evolution Generator." ++ newline
  ++ "# The Evolution Generator is used to automate the creation of consistent, reliable code." ++ newline
  ++ "# Any changes made to this file will be overwritten." ++ newline ++ newline.

Section WithYaml.
Context `{Yaml}.

Definition TranslationLangNs_loadCurrentTranslations (self : TranslationLangNs)
  : M TranslationLangNs :=
  stream <- open_read (file self) ;;
  try_except
    (translationData <- lift (yaml_load stream) ;;
     data <- lift (load_paths translationData []) ;;
     ret {| modified := modified self; data := data; file := file self |})
    (fun err =>
       print (LogLoadYaml err) ;;
       raise (Exception_ ("Error loading translation yaml file " ++ path_text (file self)))).

Definition TranslationLangNs_save (self : TranslationLangNs) : M unit :=
  if modified self then
    open_write (file self) (file_header ++ yaml_dump (data self)) ;;
    print (LogGenerate (file self))
  else ret tt.

End WithYaml.

Definition TranslationLangNs_addTranslation (self : TranslationLangNs)
           (path value : pyval) (overwrite keepMarkdown : bool) : result TranslationLangNs :=
  if negb overwrite && dict_mem path (data self) then Ok self
  else
    match value with
    | PStr value =>
        let value := str_replace value "[nom]" "{{nickname}}" in
        let value := if negb keepMarkdown then ValueReplacer.replace value else value in
        Ok {| modified := true;
              data := dict_set path (TranslationLangNs_stringToYaml value) (data self);
              file := file self |}
    | PNone | PInt _ => Raise AttributeError
    | PDate _ => Raise TypeError
    end.

(* ===================================================================== *)
(** * TranslationData: all languages and sections                         *)
(* ===================================================================== *)

(** [if not lang in self.translations: self.translations[lang] = {}] *)
Definition ensure_lang (lang : string)
           (t : list (string * list (pyval * TranslationLangNs)))
  : list (string * list (pyval * TranslationLangNs)) :=
  if dict_mem lang t then t else dict_set lang [] t.

(** [self.translations[lang]] *)
Definition sections_of (lang : string)
           (t : list (string * list (pyval * TranslationLangNs)))
  : result (list (pyval * TranslationLangNs)) :=
  match dict_get lang t with
  | Some sections => Ok sections
  | None => Raise KeyError
  end.

Definition TranslationData_addTranslations (lang : string) (section : pyval)
           (store : TranslationLangNs) : M unit :=
  t <- get_translations ;;
  let t := ensure_lang lang t in
  sections <- lift (sections_of lang t) ;;
  put_translations (dict_set lang (dict_set section store sections) t).

(** The store file of a section created on first use:
    [os.path.join(folder, lang, section + ".yml")]: the file [section.yml]
    of the directory [lang], which is the output folder itself when the
    language part is empty.  The concatenation raises when the section is
    not text. *)
Definition new_store_file (lang : string) (section : pyval) : result fpath :=
  match section with
  | PStr section => Ok (lang, section)
  | PNone | PInt _ | PDate _ => Raise TypeError
  end.

Definition TranslationData_addTranslation (lang : string) (section path value : pyval)
           (overwrite keepMarkdown : bool) : M unit :=
  try_except
    (t <- get_translations ;;
     put_translations (ensure_lang lang t) ;;
     t <- get_translations ;;
     sections <- lift (sections_of lang t) ;;
     (if dict_mem section sections then ret tt
      else
        f <- lift (new_store_file lang section) ;;
        put_translations (dict_set lang (dict_set section (TranslationLangNs_init f) sections) t)) ;;
     t <- get_translations ;;
     sections <- lift (sections_of lang t) ;;
     match dict_get section sections with
     | Some store =>
         store <- lift (TranslationLangNs_addTranslation store path value overwrite keepMarkdown) ;;
         put_translations (dict_set lang (dict_set section store sections) t)
     | None => raise KeyError
     end)
    (fun e => print (LogAddTranslation lang section path e) ;; raise e).

Section WithYaml.
Context `{Yaml}.

(** The stores in the order of the two nested [for] loops of [save]. *)
Definition all_stores (t : list (string * list (pyval * TranslationLangNs)))
  : list TranslationLangNs :=
  flat_map (fun lang => map snd (snd lang)) t.

Definition TranslationData_save : M unit :=
  t <- get_translations ;;
  for_each (all_stores t) TranslationLangNs_save.

End WithYaml.

(* ===================================================================== *)
(** * FillLocalesTranslations: the extraction pipeline                    *)
(* ===================================================================== *)

(** A sheet as [openpyxl] gives it with [data_only]: rows of cell values,
    the header row first. *)
Definition sheet := list (list pyval).

(** The workbook already loaded: its two sheets, when they exist. *)
Record workbook := {
  Widgets : option sheet;
  Labels : option sheet
}.

(** Modelled from the spec: [helpers.generator_helpers.sheet_exists] is not
    among the sources; a required sheet that is missing is a structure
    error. *)
Definition sheet_exists (s : option sheet) : result unit :=
  match s with
  | Some _ => Ok tt
  | None => Raise StructureError
  end.

(** Modelled from the spec: [helpers.generator_helpers.get_headers] is not
    among the sources; the columns are derived from the header row, which
    must include every expected header, or it is a structure error. *)
Definition get_headers (s : sheet) (expected_headers : list string) : result (list pyval) :=
  match s with
  | [] => Raise StructureError
  | headers :: _ =>
      if forallb (fun h => if in_dec eq_dec (PStr h) headers then true else false)
                 expected_headers
      then Ok headers
      else Raise StructureError
  end.

(** The loop of [__getTranslationsFromLocaleSheet] over the data rows. *)
Fixpoint index_locales (headers : list pyval) (rows : list (list pyval))
         (locales_dictionary : list (pyval * list (pyval * pyval)))
  : result (list (pyval * list (pyval * pyval))) :=
  match rows with
  | [] => Ok locales_dictionary
  | row :: rest =>
      let current_locale := dict_of (combine headers row) in
      match dict_get (PStr "key") current_locale with
      | Some key => index_locales headers rest (dict_set key current_locale locales_dictionary)
      | None => Raise KeyError
      end
  end.

Definition __getTranslationsFromLocaleSheet (wb : workbook)
  : M (list (pyval * list (pyval * pyval))) :=
  try_except
    (lift (sheet_exists (Labels wb)) ;;
     match Labels wb with
     | Some sheet =>
         if Nat.leb (List.length sheet) 1
         then raise (Exception_ "Not enough rows in the Labels sheet")
         else
           headers <- lift (get_headers sheet ["key"]) ;;
           lift (index_locales headers (skipn 1 sheet) [])
     | None => raise KeyError
     end)
    (fun e => print (LogLocaleSheet e) ;; ret []).

(** [key.split('_', 1)] on a column name. *)
Definition split_column (key : pyval) : result (string * option string) :=
  match key with
  | PStr key => Ok (str_split1 key "_"%char)
  | PNone | PInt _ | PDate _ => Raise AttributeError
  end.

(** [translationKey += '_' + suffix] *)
Definition append_suffix (question_name : pyval) (suffix : string) : result pyval :=
  match question_name with
  | PStr q => Ok (PStr (q ++ "_" ++ suffix))
  | PNone | PInt _ | PDate _ => Raise TypeError
  end.

(** The body of the loop of [__addTranslationsFromLocales] for one column. *)
Definition locale_column (overwrite : bool) (section question_name : pyval)
           (row : list (pyval * pyval)) (keepMarkdown : bool) (key : pyval) : M unit :=
  if eq_dec key (PStr "namespace") then ret tt
  else if eq_dec key (PStr "key") then ret tt
  else if eq_dec key (PStr "md") then ret tt
  else
    match dict_get key row with
    | None => raise KeyError
    | Some value =>
        if eq_dec value (PStr EmptyString) then ret tt
        else if eq_dec value PNone then ret tt
        else
          lngContext <- lift (split_column key) ;;
          if Nat.ltb 2 (String.length (fst lngContext)) then ret tt
          else
            translationKey <-
              match snd lngContext with
              | Some suffix => lift (append_suffix question_name suffix)
              | None => ret question_name
              end ;;
            TranslationData_addTranslation (fst lngContext) section translationKey value
                                           overwrite keepMarkdown
    end.

Definition __addTranslationsFromLocales (overwrite : bool) (section question_name : pyval)
           (row : list (pyval * pyval)) : M unit :=
  try_except
    (let keepMarkdown :=
       match dict_get (PStr "md") row with
       | Some md => if eq_dec md (PStr "1") then true else false
       | None => false
       end in
     for_each (dict_keys row) (locale_column overwrite section question_name row keepMarkdown))
    (fun e => print (LogLocales e) ;; ret tt).

(** [row[i]] on a tuple of cell values. *)
Definition index (row : list pyval) (i : nat) : result pyval :=
  match nth_error row i with
  | Some v => Ok v
  | None => Raise IndexError
  end.

Section WithYaml.
Context `{Yaml}.

Definition FillLocalesTranslations_loadCurrentTranslations : M unit :=
  fun w =>
    for_each (glob (disk w))
      (fun translationFile =>
         let lang := fst translationFile in
         let section := snd translationFile in
         translationNs <-
           TranslationLangNs_loadCurrentTranslations (TranslationLangNs_init translationFile) ;;
         TranslationData_addTranslations lang (PStr section) translationNs)
      w.

Definition FillLocalesTranslations_saveAllTranslations : M unit :=
  TranslationData_save.

End WithYaml.

(** The body of the loop of [addTranslationsFromExcel] for one row of the
    Widgets sheet. *)
Definition widget_row (overwrite : bool)
           (locales_dictionary : list (pyval * list (pyval * pyval)))
           (row : list pyval) : M unit :=
  question_name <- lift (index row 0) ;;
  section <- lift (index row 3) ;;
  path <- lift (index row 5) ;;
  fr <- lift (index row 6) ;;
  en <- lift (index row 7) ;;
  let keepMarkdown := false in
  match dict_get question_name locales_dictionary with
  | Some locale => __addTranslationsFromLocales overwrite section question_name locale
  | None =>
      (if eq_dec fr PNone then ret tt
       else TranslationData_addTranslation "fr" section path fr overwrite keepMarkdown) ;;
      (if eq_dec en PNone then ret tt
       else TranslationData_addTranslation "en" section path en overwrite keepMarkdown)
  end.

Definition FillLocalesTranslations_addTranslationsFromExcel (wb : workbook) (overwrite : bool)
  : M unit :=
  try_except
    (match Widgets wb with
     | None => raise KeyError
     | Some sheet =>
         locales_dictionary <- __getTranslationsFromLocaleSheet wb ;;
         for_each (skipn 1 sheet) (widget_row overwrite locales_dictionary)
     end)
    (fun e => print (LogExcel e) ;; raise e).

Section WithYaml.
Context `{Yaml}.

(** The orchestrator; the task starts with an empty [TranslationData].  The
    parameter [section] is passed to the task and never read; the two
    paths are the workbook, taken as loaded, and the output folder of the
    world. *)
Definition generate_libelles (wb : workbook) (overwrite : bool) : M unit :=
  try_except
    (put_translations [] ;;
     FillLocalesTranslations_loadCurrentTranslations ;;
     FillLocalesTranslations_addTranslationsFromExcel wb overwrite ;;
     FillLocalesTranslations_saveAllTranslations)
    (fun e => print (LogError e) ;; raise e).

End WithYaml.

(** A new run on an output folder. *)
Definition boot (d : filesystem) : world :=
  {| translations := []; stdout := []; disk := d |}.

(** ** A small YAML dialect for examples

    Flat mappings of text keys, one [key: value] per line; lines that are
    empty or start with [#] are skipped on load. *)

Fixpoint mini_dump (d : list (pyval * scalar)) : string :=
  match d with
  | [] => EmptyString
  | (PStr k, v) :: rest => k ++ ": " ++ text_of v ++ newline ++ mini_dump rest
  | (_, v) :: rest => "null: " ++ text_of v ++ newline ++ mini_dump rest
  end.

(** The lines of a text, the last line without its end taken as a line too. *)
Fixpoint lines_from (acc s : string) : list string :=
  match s with
  | EmptyString => if Nat.eqb (String.length acc) 0 then [] else [acc]
  | String c s' =>
      if Ascii.eqb c (ascii_of_nat 10) then acc :: lines_from EmptyString s'
      else lines_from (acc ++ String c EmptyString) s'
  end.

Definition mini_line (l : string) : option (option (pyval * yamlval)) :=
  match l with
  | EmptyString => Some None
  | String c _ =>
      if Ascii.eqb c "#"%char then Some None
      else match str_split1 l ":"%char with
           | (k, Some (String " " v)) => Some (Some (PStr k, YStr v))
           | _ => None
           end
  end.

Fixpoint mini_lines (ls : list string) : result (list (pyval * yamlval)) :=
  match ls with
  | [] => Ok []
  | l :: rest =>
      match mini_line l, mini_lines rest with
      | Some None, r => r
      | Some (Some kv), Ok d => Ok (kv :: d)
      | Some (Some _), Raise e => Raise e
      | None, _ => Raise YAMLError
      end
  end.

Definition mini_yaml : Yaml :=
  {| yaml_dump := mini_dump;
     yaml_load := fun text => mini_lines (lines_from EmptyString text) |}.

(** ** Observations used in the statements *)

(** The text of a file of the output folder, when it exists. *)
Definition read_file (f : fpath) (d : filesystem) : option string :=
  match dict_get (fst f) d with
  | Some files => dict_get (snd f) files
  | None => None
  end.

(** The operations on one store. *)
Inductive store_op :=
| OpLoad
| OpSave
| OpAdd (path value : pyval) (overwrite keepMarkdown : bool).

Definition is_add (op : store_op) : bool :=
  match op with OpAdd _ _ _ _ => true | _ => false end.

Section WithYaml.
Context `{Yaml}.

Definition run_op (op : store_op) (self : TranslationLangNs) : M TranslationLangNs :=
  match op with
  | OpLoad => TranslationLangNs_loadCurrentTranslations self
  | OpSave => TranslationLangNs_save self ;; ret self
  | OpAdd path value overwrite keepMarkdown =>
      lift (TranslationLangNs_addTranslation self path value overwrite keepMarkdown)
  end.

Fixpoint run_ops (ops : list store_op) (self : TranslationLangNs) : M TranslationLangNs :=
  match ops with
  | [] => ret self
  | op :: rest => self' <- run_op op self ;; run_ops rest self'
  end.

End WithYaml.

(** The dictionary of a data row of the Labels sheet. *)
Definition row_dict (headers row : list pyval) : list (pyval * pyval) :=
  dict_of (combine headers row).

(** The last row, in sheet order, whose [key] cell is [k]. *)
Definition last_row_with_key (headers : list pyval) (rows : list (list pyval)) (k : pyval)
  : option (list pyval) :=
  find (fun row =>
          match dict_get (PStr "key") (row_dict headers row) with
          | Some k' => if eq_dec k' k then true else false
          | None => false
          end)
       (rev rows).

(** The registry has a store for the language and section, and the store
    has the path. *)
Definition covered (t : list (string * list (pyval * TranslationLangNs)))
           (lang : string) (section path : pyval) : Prop :=
  exists sections store,
    dict_get lang t = Some sections
    /\ dict_get section sections = Some store
    /\ dict_mem path (data store) = true.

(** What is appended to the console. *)
Definition log (w : world) (l : logline) : world :=
  {| translations := translations w; stdout := stdout w ++ [l]; disk := disk w |}.

(** The number of failed adds reported on the console. *)
Definition is_add_failure (l : logline) : bool :=
  match l with LogAddTranslation _ _ _ _ => true | _ => false end.

Definition add_failures (w : world) : nat :=
  List.length (filter is_add_failure (stdout w)).

(** From [w] to [w']: the files are the same, no report of a failed add has
    gone, and every path of every store is still there. *)
Definition grows (w w' : world) : Prop :=
  disk w' = disk w
  /\ add_failures w <= add_failures w'
  /\ forall lang section path,
      covered (translations w) lang section path ->
      covered (translations w') lang section path.

(** A computation whose every run takes the world to a related one. *)
Definition respects (R : world -> world -> Prop) {A} (m : M A) : Prop :=
  forall w, R w (fst (m w)).

(** A computation that only lets the world grow. *)
Definition growing {A} (m : M A) : Prop := respects grows m.

(** The world with another registry. *)
Definition with_translations (w : world)
           (t : list (string * list (pyval * TranslationLangNs))) : world :=
  {| translations := t; stdout := stdout w; disk := disk w |}.

(** [TranslationData.addTranslations] on the registry. *)
Definition register (lang : string) (section : pyval) (store : TranslationLangNs)
           (t : list (string * list (pyval * TranslationLangNs)))
  : list (string * list (pyval * TranslationLangNs)) :=
  dict_set lang
           (dict_set section store
                     (match dict_get lang t with Some sections => sections | None => [] end))
           (ensure_lang lang t).

Section WithYaml.
Context `{Yaml}.

(** The store that loading a file gives. *)
Definition load_file (d : filesystem) (f : fpath) : result TranslationLangNs :=
  match read_file f d with
  | None => Raise FileNotFoundError
  | Some text =>
      match yaml_load text with
      | Raise _ => Raise (Exception_ ("Error loading translation yaml file " ++ path_text f))
      | Ok translationData =>
          match load_paths translationData [] with
          | Ok data => Ok {| modified := false; data := data; file := f |}
          | Raise _ => Raise (Exception_ ("Error loading translation yaml file " ++ path_text f))
          end
      end
  end.

(** The registry after loading the files one after the other. *)
Fixpoint load_all (d : filesystem) (files : list fpath)
         (t : list (string * list (pyval * TranslationLangNs)))
  : result (list (string * list (pyval * TranslationLangNs))) :=
  match files with
  | [] => Ok t
  | f :: rest =>
      match load_file d f with
      | Ok store => load_all d rest (register (fst f) (PStr (snd f)) store t)
      | Raise e => Raise e
      end
  end.

(** One iteration of [FillLocalesTranslations.loadCurrentTranslations]. *)
Definition load_one (translationFile : fpath) : M unit :=
  translationNs <-
    TranslationLangNs_loadCurrentTranslations (TranslationLangNs_init translationFile) ;;
  TranslationData_addTranslations (fst translationFile) (PStr (snd translationFile)) translationNs.

End WithYaml.

(** ** Example inputs *)

Definition widgets_header : list pyval :=
  [PStr "questionName"; PStr "inputType"; PStr "active"; PStr "section";
   PStr "group"; PStr "path"; PStr "fr"; PStr "en"].

Definition widget (question_name section path : string) (fr en : pyval) : list pyval :=
  [PStr question_name; PNone; PNone; PStr section; PNone; PStr path; fr; en].

(** A Labels row holds a number where text is expected. *)
Definition wb_number_in_labels : workbook :=
  {| Widgets := Some [widgets_header;
                      widget "q" "s" "p1" PNone PNone;
                      widget "z" "s" "q_a" (PStr "x") PNone];
     Labels := Some [[PStr "key"; PStr "fr_a"; PStr "fr_c"];
                     [PStr "q"; PInt 5; PStr "hello"]] |}.

(** The Labels sheet has its header row only. *)
Definition wb_labels_header_only : workbook :=
  {| Widgets := Some [widgets_header;
                      widget "q" "s" "p1" (PStr "Bonjour") (PStr "Hello")];
     Labels := Some [[PStr "key"; PStr "fr_label"]] |}.

(** An output folder with a directory for each language and no file. *)
Definition empty_folder : filesystem := [(EmptyString, []); ("fr", []); ("en", [])].

(** [m2] replays [m1]: whenever a run of [m1] reports no failed add, [m2],
    started with a registry that has every path that the run of [m1] ends
    with, gives the same result and leaves registry and files as they
    are. *)
Definition replays {A} (m1 m2 : M A) : Prop :=
  forall w w' r v,
    m1 w = (w', r) ->
    add_failures w' = add_failures w ->
    (forall l s p, covered (translations w') l s p -> covered (translations v) l s p) ->
    exists v', m2 v = (v', r) /\ translations v' = translations v /\ disk v' = disk v.

Section WithYaml.
Context `{Yaml}.

(** A store in its place: filed under its language and section, and, as
    long as it is not modified, either empty or as its file loads. *)
Definition store_ok (d : filesystem) (lang : string) (section : pyval)
           (store : TranslationLangNs) : Prop :=
  exists s,
    section = PStr s
    /\ file store = (lang, s)
    /\ (modified store = false -> data store = [] \/ load_file d (lang, s) = Ok store).

Definition registry_ok (d : filesystem)
           (t : list (string * list (pyval * TranslationLangNs))) : Prop :=
  NoDup (dict_keys t)
  /\ forall lang sections,
      dict_get lang t = Some sections ->
      NoDup (dict_keys sections)
      /\ forall section store,
          dict_get section sections = Some store -> store_ok d lang section store.

(** The text that [save] writes for a store. *)
Definition saved_text (store : TranslationLangNs) : string :=
  file_header ++ yaml_dump (data store).

End WithYaml.

(** A listing without repeated names: the directories of the folder, and
    the files of each directory. *)
Definition folder_ok (d : filesystem) : Prop :=
  NoDup (dict_keys d)
  /\ forall dir files, dict_get dir d = Some files -> NoDup (dict_keys files).

Section WithYaml.
Context `{Yaml}.

(** Every store found by a lookup is the store that its file loads as. *)
Definition registry_loaded (d : filesystem)
           (t : list (string * list (pyval * TranslationLangNs))) : Prop :=
  forall lang sections section store,
    dict_get lang t = Some sections -> dict_get section sections = Some store ->
    exists s, section = PStr s /\ load_file d (lang, s) = Ok store.

(** A written file loads again, with at least the paths of the store. *)
Definition reloads (store : TranslationLangNs) : Prop :=
  exists translationData data',
    yaml_load (saved_text store) = Ok translationData
    /\ load_paths translationData [] = Ok data'
    /\ forall path, dict_mem path (data store) = true -> dict_mem path data' = true.

End WithYaml.

(** One question with a row in the Labels sheet, one without. *)
Definition wb_two_strategies : workbook :=
  {| Widgets := Some [widgets_header;
                      widget "Q1" "home" "Q1" (PStr "ignored") PNone;
                      widget "Q2" "home" "Q2.label" (PStr "Votre **nom**") (PStr "Your **name**")];
     Labels := Some [[PStr "key"; PStr "md"; PStr "fr_label"; PStr "en_label"];
                     [PStr "Q1"; PStr "1"; PStr "Bonjour [nom]"; PStr "Hello [nom]"]] |}.

(** The worlds that first runs on the empty folder end with. *)
Definition after_two_strategies : world :=
  fst (@generate_libelles mini_yaml wb_two_strategies false (boot empty_folder)).

Definition after_number_in_labels : world :=
  fst (@generate_libelles mini_yaml wb_number_in_labels false (boot empty_folder)).

(** A label column whose name starts with an underscore: its language part
    is empty, and the store of the column has its file in the output
    folder itself. *)
Definition wb_empty_language : workbook :=
  {| Widgets := Some [widgets_header; widget "Q1" "home" "Q1" PNone PNone];
     Labels := Some [[PStr "key"; PStr "_label"];
                     [PStr "Q1"; PStr "Nom"]] |}.

Definition after_empty_language : world :=
  fst (@generate_libelles mini_yaml wb_empty_language false (boot empty_folder)).

(* ===================================================================== *)
(** * generate_sections.py                                                *)
(* ===================================================================== *)

#[global] Instance prod_EqDec {A B : Type} `{EqDec A} `{EqDec B} : EqDec (A * B).
Proof. intros x y. unfold EqDec in *. decide equality. Defined.

(** What [generate_sections] prints. *)
Inductive ts_logline :=
| TsGenerate (output_file : string * string)  (* Generate {output_file} successfully *)
| TsError (e : exn).                           (* Error with sections.ts: {e} *)

(** The files that [generate_sections] can write: a path is a directory
    and a file name in it; [ts_dirs] are the directories that exist. *)
Record ts_world := {
  ts_stdout : list ts_logline;
  ts_dirs : list string;
  ts_files : list ((string * string) * string)
}.

(** The two loops and the fixed lines of [generate_sections]: the text
    written to the file. *)
Definition sections_ts_code (sections : list string) : string :=
  let ts_code := EmptyString in
  let indentation := "    " in
  let ts_code :=
    fold_left (fun ts_code section =>
                 ts_code ++ "import " ++ section ++ "Configs from './sections/"
                         ++ section ++ "/configs';" ++ newline)
              sections ts_code in
  let ts_code := ts_code ++ newline ++ "// Export all the sections configs" ++ newline in
  let ts_code := ts_code ++ "export default {" ++ newline in
  let ts_code :=
    fold_left (fun ts_code section =>
                 ts_code ++ indentation ++ section ++ ": " ++ section ++ "Configs," ++ newline)
              sections ts_code in
  ts_code ++ "};" ++ newline.

(** [open(output_file, "w")] and the write: the directory must exist. *)
Definition ts_open_write (output_file : string * string) (text : string) (w : ts_world)
  : ts_world * result unit :=
  if in_dec string_dec (fst output_file) (ts_dirs w)
  then ({| ts_stdout := ts_stdout w;
           ts_dirs := ts_dirs w;
           ts_files := dict_set output_file text (ts_files w) |}, Ok tt)
  else (w, Raise FileNotFoundError).

Definition ts_print (l : ts_logline) (w : ts_world) : ts_world :=
  {| ts_stdout := ts_stdout w ++ [l]; ts_dirs := ts_dirs w; ts_files := ts_files w |}.

Definition generate_sections (output_file : string * string) (sections : list string)
           (w : ts_world) : ts_world * result unit :=
  let ts_code := sections_ts_code sections in
  match ts_open_write output_file ts_code w with
  | (w', Ok _) => (ts_print (TsGenerate output_file) w', Ok tt)
  | (w', Raise e) => (ts_print (TsError e) w', Raise e)
  end.

(** The lines of the file, as the loops write them. *)
Definition import_statement (section : string) : string :=
  "import " ++ section ++ "Configs from './sections/" ++ section ++ "/configs';".

Definition export_statement (section : string) : string :=
  "    " ++ section ++ ": " ++ section ++ "Configs,".

(** The concatenation of the texts of a list. *)
Definition str_concat (l : list string) : string :=
  fold_right append EmptyString l.

(** The line-feed character. *)
Definition nl : ascii := ascii_of_nat 10.

(** The first character of a notation. *)
Definition notation_head (k : ValueReplacer.notation_kind) : ascii :=
  match ValueReplacer.notation_of k with
  | String c _ => c
  | EmptyString => Ascii.zero
  end.

(** Text without the characters that the transformer looks for: no star,
    no underscore, no line break. *)
Definition plain_text (s : string) : bool :=
  negb (occurs "*"%char s) && negb (occurs "_"%char s) && negb (occurs nl s).

(** ** Further observations *)

(** A loader that gives one document, for examples with values that the
    small dialect does not have. *)
Definition fixed_yaml (document : list (pyval * yamlval)) : Yaml :=
  {| yaml_dump := mini_dump; yaml_load := fun _ => Ok document |}.

(** Every store that a lookup of the registry finds has the property. *)
Definition every_store (P : TranslationLangNs -> Prop)
           (t : list (string * list (pyval * TranslationLangNs))) : Prop :=
  forall lang sections section store,
    dict_get lang t = Some sections -> dict_get section sections = Some store -> P store.

(** The registry has the value for the path of the language and section. *)
Definition stored (t : list (string * list (pyval * TranslationLangNs)))
           (lang : string) (section path : pyval) (v : scalar) : Prop :=
  exists sections store,
    dict_get lang t = Some sections
    /\ dict_get section sections = Some store
    /\ dict_get path (data store) = Some v.

(** A value that is text. *)
Definition is_text (v : pyval) : bool :=
  match v with PStr _ => true | PNone | PInt _ | PDate _ => false end.

(** A date or time cell. *)
Definition is_date (v : pyval) : bool :=
  match v with PDate _ => true | PNone | PStr _ | PInt _ => false end.

(** A loaded value that [stringToYaml] cannot test: it has no [in]. *)
Definition is_atom (v : yamlval) : bool :=
  match v with YAtom => true | YStr _ | YScalarString _ _ | YCollection _ _ => false end.

(** A text that is stored without folding has no line break and at most
    76 characters. *)
Definition unfolded_is_short (v : scalar) : Prop :=
  match v with
  | Plain s | Styled s => str_in newline s = false /\ String.length s <= 76
  | Folded _ | Nested _ => True
  end.

Definition tidy (d : list (pyval * scalar)) : Prop :=
  Forall unfolded_is_short (map snd d).

(** From [w] to [w']: when every store of the registry has the property,
    every store of the new registry has it. *)
Definition keeps_stores (P : TranslationLangNs -> Prop) (w w' : world) : Prop :=
  every_store P (translations w) -> every_store P (translations w').

(** [self.translations[lang][section]], when both keys are there. *)
Definition lookup_store (t : list (string * list (pyval * TranslationLangNs)))
           (lang : string) (section : pyval) : option TranslationLangNs :=
  match dict_get lang t with
  | Some sections => dict_get section sections
  | None => None
  end.

(** The add is held back by the overwrite gate of the store that is there. *)
Definition held_back (existing : option TranslationLangNs) (path : pyval) (overwrite : bool)
  : bool :=
  match existing with
  | Some store => negb overwrite && dict_mem path (data store)
  | None => false
  end.


(** [self.translations[lang][section].data[path]], when the three keys are
    there. *)
Definition value_at (t : list (string * list (pyval * TranslationLangNs)))
           (lang : string) (section path : pyval) : option scalar :=
  match lookup_store t lang section with
  | Some store => dict_get path (data store)
  | None => None
  end.

(* ===================================================================== *)
(** * Properties                                                          *)
(* ===================================================================== *)

(** ** Strings *)

Lemma prefix_cons (a b : ascii) (n s : string) :
  prefix (String a n) (String b s) = (Ascii.eqb a b && prefix n s)%bool.
Proof.
  simpl. destruct (ascii_dec a b) as [->|Hne].
  - now rewrite Ascii.eqb_refl.
  - apply Ascii.eqb_neq in Hne. now rewrite Hne.
Qed.

Lemma prefix_empty_r (n : string) :
  0 < String.length n -> prefix n EmptyString = false.
Proof. destruct n; simpl; [lia | reflexivity]. Qed.

Lemma str_drop_app_length (a b : string) :
  str_drop (String.length a) (a ++ b) = b.
Proof. induction a; simpl; auto. Qed.

Lemma count_from_skip (sub : string) (k : nat) (s : string) :
  count_from k s sub = count_from 0 (str_drop k s) sub.
Proof.
  revert k; induction s as [|c s IH]; intros [|k]; simpl; auto.
Qed.

Lemma replace_from_skip (old new : string) (k : nat) (s : string) :
  replace_from k s old new = replace_from 0 (str_drop k s) old new.
Proof.
  revert k; induction s as [|c s IH]; intros [|k]; simpl; auto.
Qed.

Lemma alternate_from_skip (n a b : string) (k i : nat) (s : string) :
  alternate_from k i s n a b = alternate_from 0 i (str_drop k s) n a b.
Proof.
  revert k; induction s as [|c s IH]; intros [|k]; simpl; auto.
Qed.

(** Unfolding equations of the three scans at a position that matches. *)

Lemma str_count_match (s sub : string) :
  0 < String.length sub -> prefix sub s = true ->
  str_count s sub = S (str_count (str_drop (String.length sub) s) sub).
Proof.
  intros Hlen Hp. unfold str_count.
  destruct s as [|c s]; [now rewrite prefix_empty_r in Hp|].
  cbn [count_from]. rewrite Hp, count_from_skip.
  destruct sub as [|x sub]; [simpl in Hlen; lia|].
  simpl. now rewrite Nat.sub_0_r.
Qed.

Lemma str_replace_match (s old new : string) :
  0 < String.length old -> prefix old s = true ->
  str_replace s old new = new ++ str_replace (str_drop (String.length old) s) old new.
Proof.
  intros Hlen Hp. unfold str_replace.
  destruct s as [|c s]; [now rewrite prefix_empty_r in Hp|].
  cbn [replace_from]. rewrite Hp, replace_from_skip.
  destruct old as [|x old]; [simpl in Hlen; lia|].
  simpl. now rewrite Nat.sub_0_r.
Qed.

Lemma alternate_match (s n a b : string) (i : nat) :
  0 < String.length n -> prefix n s = true ->
  alternate_from 0 i s n a b
  = (if Nat.even i then a else b)
      ++ alternate_from 0 (S i) (str_drop (String.length n) s) n a b.
Proof.
  intros Hlen Hp.
  destruct s as [|c s]; [now rewrite prefix_empty_r in Hp|].
  cbn [alternate_from]. rewrite Hp, alternate_from_skip.
  destruct n as [|x n]; [simpl in Hlen; lia|].
  simpl. now rewrite Nat.sub_0_r.
Qed.

(** ** A tag that cannot take part in an occurrence of the notation *)

Lemma clash_prefix (a n rest : string) :
  clash a n = true -> prefix n (a ++ rest) = false.
Proof.
  revert n; induction a as [|x a IH]; intros [|y n] H; simpl in H; try discriminate.
  cbn [append]. rewrite prefix_cons.
  destruct (Ascii.eqb_spec x y) as [->|Hne].
  - rewrite Ascii.eqb_refl. simpl. auto.
  - rewrite (proj2 (Ascii.eqb_neq y x)); auto.
Qed.

Lemma inert_str_in (t n rest : string) :
  inert t n = true -> str_in n (t ++ rest) = str_in n rest.
Proof.
  induction t as [|x t IH]; intros H; [reflexivity|].
  cbn [inert] in H. apply andb_prop in H as [Hc Hi].
  cbn [append str_in].
  change (String x (t ++ rest)) with (String x t ++ rest).
  rewrite (clash_prefix _ _ rest Hc). auto.
Qed.

Lemma inert_count (t n rest : string) :
  inert t n = true -> str_count (t ++ rest) n = str_count rest n.
Proof.
  unfold str_count.
  induction t as [|x t IH]; intros H; [reflexivity|].
  cbn [inert] in H. apply andb_prop in H as [Hc Hi].
  cbn [append count_from].
  change (String x (t ++ rest)) with (String x t ++ rest).
  rewrite (clash_prefix _ _ rest Hc). auto.
Qed.

Lemma inert_alternate (t n a b rest : string) (i : nat) :
  inert t n = true ->
  alternate_from 0 i (t ++ rest) n a b = t ++ alternate_from 0 i rest n a b.
Proof.
  induction t as [|x t IH]; intros H; [reflexivity|].
  cbn [inert] in H. apply andb_prop in H as [Hc Hi].
  cbn [append alternate_from].
  change (String x (t ++ rest)) with (String x t ++ rest).
  rewrite (clash_prefix _ _ rest Hc). f_equal. auto.
Qed.

(** Replacing an occurrence further right by a tag with a fresh head does
    not create a match at the front. *)
Lemma fresh_head_prefix (n t m s : string) :
  0 < String.length n -> fresh_head t m = true ->
  prefix m s = false -> prefix m (str_replace1 s n t) = false.
Proof.
  intros Hn. revert s.
  induction m as [|y m IH]; intros s Hf Hp; [destruct s; discriminate|].
  destruct t as [|t0 t]; [discriminate|].
  cbn [fresh_head occurs] in Hf.
  apply negb_true_iff, orb_false_iff in Hf as [Hy Hm].
  destruct s as [|c s].
  - cbn [str_replace1]. now rewrite prefix_empty_r.
  - cbn [str_replace1]. destruct (prefix n (String c s)).
    + cbn [append]. rewrite prefix_cons.
      rewrite Ascii.eqb_sym, Hy. reflexivity.
    + rewrite prefix_cons in *.
      destruct (Ascii.eqb y c); [|reflexivity]. simpl in *.
      apply IH; auto. cbn [fresh_head]. now rewrite Hm.
Qed.

Lemma str_in_false_count (n s : string) :
  str_in n s = false -> str_count s n = 0.
Proof.
  unfold str_count. induction s as [|c s IH]; intros H; [reflexivity|].
  cbn [str_in] in H. cbn [count_from].
  destruct (prefix n (String c s)); [discriminate | auto].
Qed.

Lemma str_in_false_alternate (n a b s : string) (i : nat) :
  str_in n s = false -> alternate_from 0 i s n a b = s.
Proof.
  induction s as [|c s IH]; intros H; [reflexivity|].
  cbn [str_in] in H. cbn [alternate_from].
  destruct (prefix n (String c s)); [discriminate | f_equal; auto].
Qed.

Lemma str_in_true_count (n s : string) :
  0 < String.length n -> str_in n s = true -> 0 < str_count s n.
Proof.
  intros Hn. unfold str_count. induction s as [|c s IH]; intros H.
  - cbn [str_in] in H. now rewrite prefix_empty_r in H.
  - cbn [str_in] in H. cbn [count_from].
    destruct (prefix n (String c s)); [lia | auto].
Qed.

(** One step of the loop removes exactly the first occurrence. *)
Lemma replace1_count (n t s : string) :
  compatible n t = true -> str_in n s = true ->
  S (str_count (str_replace1 s n t) n) = str_count s n.
Proof.
  unfold compatible. intros Hc.
  apply andb_prop in Hc as [Hc Hf]. apply andb_prop in Hc as [Hn Hi].
  apply Nat.ltb_lt in Hn.
  induction s as [|c s IH]; intros H.
  - cbn [str_in] in H. now rewrite prefix_empty_r in H.
  - cbn [str_in] in H. cbn [str_replace1].
    destruct (prefix n (String c s)) eqn:Hp.
    + rewrite inert_count by assumption.
      now rewrite (str_count_match (String c s)).
    + unfold str_count at 2. cbn [count_from]. rewrite Hp.
      fold (str_count s n). rewrite <- IH by assumption.
      unfold str_count at 1. cbn [count_from].
      assert (Hq : prefix n (String c (str_replace1 s n t)) = false).
      { pose proof (fresh_head_prefix n t n (String c s) Hn Hf Hp) as Hq.
        cbn [str_replace1] in Hq. now rewrite Hp in Hq. }
      rewrite Hq. reflexivity.
Qed.

(** The string after one step of the loop, scanned from the next occurrence
    number, is the original string scanned from this one. *)
Lemma replace1_scan (n a b s : string) (i : nat) :
  compatible n a = true -> compatible n b = true -> str_in n s = true ->
  alternate_from 0 (S i) (str_replace1 s n (if Nat.even i then a else b)) n a b
  = alternate_from 0 i s n a b.
Proof.
  intros Ha Hb.
  remember (if Nat.even i then a else b) as t eqn:Ht.
  assert (Hc : compatible n t = true) by (subst t; destruct (Nat.even i); assumption).
  unfold compatible in Hc.
  apply andb_prop in Hc as [Hc Hf]. apply andb_prop in Hc as [Hn Hi].
  apply Nat.ltb_lt in Hn.
  induction s as [|c s IH]; intros H.
  - cbn [str_in] in H. now rewrite prefix_empty_r in H.
  - cbn [str_in] in H. cbn [str_replace1].
    destruct (prefix n (String c s)) eqn:Hp.
    + rewrite inert_alternate by assumption.
      rewrite (alternate_match (String c s)) by assumption.
      now rewrite <- Ht.
    + assert (Hq : prefix n (String c (str_replace1 s n t)) = false).
      { pose proof (fresh_head_prefix n t n (String c s) Hn Hf Hp) as Hq.
        cbn [str_replace1] in Hq. now rewrite Hp in Hq. }
      cbn [alternate_from]. rewrite Hp, Hq. f_equal. auto.
Qed.

Lemma replace_while_scan (n a b : string) :
  compatible n a = true -> compatible n b = true ->
  forall fuel s i,
    str_count s n < fuel ->
    ValueReplacer.replace_while fuel s n a b i = Some (alternate_from 0 i s n a b).
Proof.
  intros Ha Hb.
  assert (Hn : 0 < String.length n).
  { unfold compatible in Ha. apply andb_prop in Ha as [Ha _].
    apply andb_prop in Ha as [Ha _]. now apply Nat.ltb_lt in Ha. }
  induction fuel as [|fuel IH]; intros s i Hlt; [lia|].
  cbn [ValueReplacer.replace_while].
  destruct (str_in n s) eqn:Hin.
  - rewrite IH.
    + now rewrite replace1_scan.
    + assert (Hc : compatible n (if Nat.even i then a else b) = true)
        by (destruct (Nat.even i); assumption).
      pose proof (replace1_count n _ s Hc Hin). lia.
  - now rewrite str_in_false_alternate.
Qed.

Lemma notation_compatible (k : ValueReplacer.notation_kind) :
  compatible (ValueReplacer.notation_of k) (ValueReplacer.start_of k) = true
  /\ compatible (ValueReplacer.notation_of k) (ValueReplacer.end_of k) = true.
Proof. destruct k; split; reflexivity. Qed.

Lemma replaceStartEnd_fuel_spec (k : ValueReplacer.notation_kind) (s : string) (fuel : nat) :
  str_count s (ValueReplacer.notation_of k) < fuel ->
  ValueReplacer.replaceStartEnd_fuel fuel s (ValueReplacer.notation_of k)
      (ValueReplacer.start_of k) (ValueReplacer.end_of k)
  = Some (spec_balance s (ValueReplacer.notation_of k)
                       (ValueReplacer.start_of k) (ValueReplacer.end_of k)).
Proof.
  intros Hlt. destruct (notation_compatible k) as [Ha Hb].
  unfold ValueReplacer.replaceStartEnd_fuel, spec_balance.
  destruct (str_in _ s) eqn:Hin; cbn [andb].
  - destruct (Nat.even _); [|reflexivity].
    now apply replace_while_scan.
  - rewrite (str_in_false_count _ _ Hin). cbn [Nat.even].
    now rewrite str_in_false_alternate.
Qed.

Lemma replaceStartEnd_spec (k : ValueReplacer.notation_kind) (s : string) :
  ValueReplacer.replaceStartEnd s (ValueReplacer.notation_of k)
      (ValueReplacer.start_of k) (ValueReplacer.end_of k)
  = spec_balance s (ValueReplacer.notation_of k)
                 (ValueReplacer.start_of k) (ValueReplacer.end_of k).
Proof.
  unfold ValueReplacer.replaceStartEnd.
  now rewrite replaceStartEnd_fuel_spec by lia.
Qed.

(** The whole transformer: line breaks, then the four balance rules in the
    order bold, oblique, green, red, each on the output of the one before. *)
Lemma replace_chain (s : string) :
  let step k x := spec_balance x (ValueReplacer.notation_of k)
                               (ValueReplacer.start_of k) (ValueReplacer.end_of k) in
  ValueReplacer.replace s
  = step ValueReplacer.Red (step ValueReplacer.Green (step ValueReplacer.Oblique
      (step ValueReplacer.Bold (str_replace s newline "<br />")))).
Proof.
  intros step. unfold ValueReplacer.replace, step.
  now rewrite <- !replaceStartEnd_spec.
Qed.

(** C2, as the code has it.  The transformer turns the line breaks into
    break tags and then applies the four notations one after the other,
    bold, oblique, green, red, each to the text that the one before it
    returns.  Each of them follows the balance rule on the text it
    receives: when the token occurs an even number of times in it, the
    occurrences are replaced left to right by the opening and the closing
    tag in alternation (first opens, second closes, ...); when the count
    is odd, the text is passed on as it is.  [replaceStartEnd] terminates:
    any fuel above the number of occurrences is enough. *)
Theorem transformer_balance_rule (s : string) :
  let balance k x :=
    if Nat.even (str_count x (ValueReplacer.notation_of k))
    then alternate_from 0 0 x (ValueReplacer.notation_of k)
                        (ValueReplacer.start_of k) (ValueReplacer.end_of k)
    else x in
  ValueReplacer.replace s
  = balance ValueReplacer.Red
      (balance ValueReplacer.Green
         (balance ValueReplacer.Oblique
            (balance ValueReplacer.Bold (str_replace s newline "<br />"))))
  /\ forall (k : ValueReplacer.notation_kind) (x : string) (fuel : nat),
      str_count x (ValueReplacer.notation_of k) < fuel ->
      ValueReplacer.replaceStartEnd_fuel fuel x (ValueReplacer.notation_of k)
                                         (ValueReplacer.start_of k) (ValueReplacer.end_of k)
      = Some (balance k x)
      /\ ValueReplacer.replaceStartEnd x (ValueReplacer.notation_of k)
                                       (ValueReplacer.start_of k) (ValueReplacer.end_of k)
         = balance k x.
Proof.
  intros balance. split.
  - rewrite replace_chain. reflexivity.
  - intros k x fuel Hfuel.
    rewrite replaceStartEnd_fuel_spec by assumption.
    rewrite replaceStartEnd_spec. split; reflexivity.
Qed.

Lemma transformer_balance_rule_witness :
  str_count "a **bold** b" (ValueReplacer.notation_of ValueReplacer.Bold) < 3
  /\ ValueReplacer.replaceStartEnd_fuel 3 "a **bold** b" "**" "<strong>" "</strong>"
     = Some "a <strong>bold</strong> b"
  /\ ValueReplacer.replace "a **bold** b" = "a <strong>bold</strong> b".
Proof.
  split; [vm_compute; lia|]. split.
  - exact (proj1 (proj2 (transformer_balance_rule EmptyString) ValueReplacer.Bold
                    "a **bold** b" 3 ltac:(vm_compute; lia))).
  - exact (proj1 (transformer_balance_rule "a **bold** b")).
Defined.

(** C2, as the specification words it, fails: the count that decides is
    that of the text a notation receives, not that of the input.  In
    [__green__] the green token occurs once, and it does not stay: the
    oblique notation, which comes first, takes its underscores.  In
    [__red__ __red__] the red token occurs twice, and no red tag is
    written. *)
Lemma replace_overlapping_tokens :
  ~ (forall (s : string) (k : ValueReplacer.notation_kind),
        Nat.even (str_count s (ValueReplacer.notation_of k)) = false ->
        str_count (ValueReplacer.replace s) (ValueReplacer.notation_of k)
        = str_count s (ValueReplacer.notation_of k))
  /\ ~ (forall (s : string) (k : ValueReplacer.notation_kind),
          str_in (ValueReplacer.notation_of k) s = true ->
          Nat.even (str_count s (ValueReplacer.notation_of k)) = true ->
          str_in (ValueReplacer.start_of k) (ValueReplacer.replace s) = true).
Proof.
  split; intros Hclaim.
  - specialize (Hclaim "__green__" ValueReplacer.Green eq_refl).
    vm_compute in Hclaim. discriminate Hclaim.
  - specialize (Hclaim "__red__ __red__" ValueReplacer.Red eq_refl eq_refl).
    vm_compute in Hclaim. discriminate Hclaim.
Qed.

Example replace_green_inside_oblique :
  ValueReplacer.replace "__green__" = ValueReplacer.startOblique ++ "green" ++ "</span>"
  /\ ValueReplacer.replace "__red__ __red__"
     = ValueReplacer.startOblique ++ "red</span> " ++ ValueReplacer.startOblique ++ "red</span>".
Proof. vm_compute. auto. Qed.

Example balance_bold : ValueReplacer.replace "**bold**" = "<strong>bold</strong>".
Proof. reflexivity. Qed.

Example balance_stray : ValueReplacer.replace "a ** b" = "a ** b".
Proof. reflexivity. Qed.

(** ** Rewriting every occurrence *)

Lemma fresh_head_prefix_all (old new m s : string) :
  0 < String.length old -> fresh_head new m = true ->
  prefix m s = false -> prefix m (str_replace s old new) = false.
Proof.
  intros Hn. revert s. unfold str_replace.
  induction m as [|y m IH]; intros s Hf Hp; [destruct s; discriminate|].
  destruct new as [|t0 t]; [discriminate|].
  cbn [fresh_head occurs] in Hf.
  apply negb_true_iff, orb_false_iff in Hf as [Hy Hm].
  destruct s as [|c s]; [reflexivity|].
  cbn [replace_from]. destruct (prefix old (String c s)).
  - cbn [append]. rewrite prefix_cons.
    rewrite Ascii.eqb_sym, Hy. reflexivity.
  - rewrite prefix_cons in *.
    destruct (Ascii.eqb y c); [|reflexivity]. simpl in *.
    apply IH; auto. cbn [fresh_head]. now rewrite Hm.
Qed.

Lemma str_drop_length (k : nat) (s : string) :
  String.length (str_drop k s) <= String.length s.
Proof.
  revert s; induction k as [|k IH]; intros [|c s]; simpl; auto.
Qed.

Lemma str_replace_none_left (old new : string) :
  compatible old new = true ->
  forall s, str_in old (str_replace s old new) = false.
Proof.
  unfold compatible. intros Hc.
  apply andb_prop in Hc as [Hc Hf]. apply andb_prop in Hc as [Hn Hi].
  apply Nat.ltb_lt in Hn.
  intros s. remember (String.length s) as len eqn:Hlen.
  revert s Hlen. induction len as [len IH] using lt_wf_ind. intros s Hlen.
  destruct s as [|c s].
  - unfold str_replace. cbn [replace_from str_in]. now rewrite prefix_empty_r.
  - destruct (prefix old (String c s)) eqn:Hp.
    + rewrite str_replace_match by assumption.
      rewrite inert_str_in by assumption.
      eapply IH; [|reflexivity]. subst len.
      destruct old as [|x old]; [simpl in Hn; lia|].
      cbn [String.length str_drop]. pose proof (str_drop_length (String.length old) s).
      lia.
    + pose proof (fresh_head_prefix_all old new old (String c s) Hn Hf Hp) as Hq.
      unfold str_replace in *. cbn [replace_from] in *. rewrite Hp in *.
      cbn [str_in]. rewrite Hq.
      eapply IH; [|reflexivity]. subst len. simpl. lia.
Qed.

Lemma str_app_assoc (a b c : string) : (a ++ b) ++ c = a ++ b ++ c.
Proof. induction a as [|x a IH]; cbn; [reflexivity | now rewrite IH]. Qed.

Lemma prefix_app (m p x : string) :
  prefix m p = true -> prefix m (p ++ x) = true.
Proof.
  revert p; induction m as [|y m IH]; intros [|a p] Hp; try discriminate.
  - now destruct x.
  - reflexivity.
  - cbn [append]. rewrite prefix_cons in *.
    apply andb_prop in Hp as [-> Hp]. cbn. auto.
Qed.

Lemma prefix_drop_app (m p x : string) :
  prefix m p = true ->
  str_drop (String.length m) (p ++ x) = str_drop (String.length m) p ++ x.
Proof.
  revert p; induction m as [|y m IH]; intros [|a p] Hp; try discriminate; try reflexivity.
  rewrite prefix_cons in Hp. apply andb_prop in Hp as [_ Hp]. cbn. auto.
Qed.

(** An occurrence cannot start before a character that the rest of the
    pattern does not have and run over it. *)
Lemma prefix_no_straddle (c : ascii) (m p r : string) :
  occurs c m = false -> prefix m (p ++ String c r) = true -> prefix m p = true.
Proof.
  revert m; induction p as [|a p IH]; intros [|y m] Ho Hp; try reflexivity.
  - cbn [append] in Hp. rewrite prefix_cons in Hp. cbn [occurs] in Ho.
    apply orb_false_iff in Ho as [Hne _]. rewrite Ascii.eqb_sym, Hne in Hp. discriminate.
  - cbn [append] in Hp. rewrite prefix_cons in *. cbn [occurs] in Ho.
    apply orb_false_iff in Ho as [_ Ho].
    apply andb_prop in Hp as [-> Hp]. cbn. eauto.
Qed.

(** When the first character of the pattern does not come again in it,
    every occurrence is rewritten, wherever it stands. *)
Lemma str_replace_occurrence (c : ascii) (tok new : string) :
  occurs c tok = false ->
  forall p q,
    str_replace (p ++ String c tok ++ q) (String c tok) new
    = str_replace p (String c tok) new ++ new ++ str_replace q (String c tok) new.
Proof.
  intros Ho p q. remember (String.length p) as len eqn:Hlen.
  revert p Hlen. induction len as [len IH] using lt_wf_ind. intros p Hlen.
  assert (Hpos : 0 < String.length (String c tok)) by (cbn; lia).
  destruct p as [|a p].
  - cbn [append]. rewrite str_replace_match; [|assumption|].
    + change (String c (tok ++ q)) with (String c tok ++ q).
      now rewrite str_drop_app_length.
    + change (String c (tok ++ q)) with (String c tok ++ q).
      apply prefix_app. rewrite prefix_cons, Ascii.eqb_refl. cbn.
      clear. induction tok as [|y tok IH]; [reflexivity|].
      rewrite prefix_cons, Ascii.eqb_refl. exact IH.
  - destruct (prefix (String c tok) (String a p)) eqn:Hp.
    + rewrite (str_replace_match (String a p)) by assumption.
      rewrite str_replace_match; [|assumption | now apply prefix_app].
      rewrite prefix_drop_app by assumption.
      rewrite (IH (String.length (str_drop (String.length (String c tok)) (String a p))));
        [now rewrite !str_app_assoc | | reflexivity].
      subst len. cbn [String.length str_drop].
      pose proof (str_drop_length (String.length tok) p). lia.
    + assert (Hq : prefix (String c tok) (String a p ++ String c tok ++ q) = false).
      { destruct (prefix (String c tok) (String a p ++ String c tok ++ q)) eqn:Hq;
          [|reflexivity].
        cbn [append] in Hq. rewrite prefix_cons in Hq.
        apply andb_prop in Hq as [Hca Hq].
        apply (prefix_no_straddle c tok p (tok ++ q) Ho) in Hq.
        rewrite prefix_cons, Hca, Hq in Hp. discriminate. }
      unfold str_replace in *. cbn [append replace_from] in *. rewrite Hp, Hq.
      cbn [append]. f_equal.
      apply (IH (String.length p)); [subst len; cbn; lia | reflexivity].
Qed.

Lemma text_of_stringToYaml (s : string) :
  text_of (TranslationLangNs_stringToYaml s) = s.
Proof.
  unfold TranslationLangNs_stringToYaml.
  destruct (str_in newline s); [reflexivity|].
  destruct (Nat.ltb 76 (String.length s)); reflexivity.
Qed.

(** ** Dictionaries *)

Section DictFacts.
Context {K V : Type} `{EqDec K}.

Lemma dict_get_set_same (k : K) (v : V) (d : list (K * V)) :
  dict_get k (dict_set k v d) = Some v.
Proof.
  induction d as [|[k' v'] d IH]; simpl.
  - destruct (eq_dec k k); congruence.
  - destruct (eq_dec k k') as [->|Hne]; simpl.
    + destruct (eq_dec k' k'); congruence.
    + destruct (eq_dec k k'); congruence.
Qed.

Lemma dict_get_set_other (k k0 : K) (v : V) (d : list (K * V)) :
  k0 <> k -> dict_get k0 (dict_set k v d) = dict_get k0 d.
Proof.
  intros Hne. induction d as [|[k' v'] d IH]; simpl.
  - destruct (eq_dec k0 k); congruence.
  - destruct (eq_dec k k') as [->|Hne']; simpl.
    + destruct (eq_dec k0 k'); congruence.
    + destruct (eq_dec k0 k'); congruence.
Qed.

Lemma dict_mem_set_same (k : K) (v : V) (d : list (K * V)) :
  dict_mem k (dict_set k v d) = true.
Proof. unfold dict_mem. now rewrite dict_get_set_same. Qed.

Lemma dict_mem_set_other (k k0 : K) (v : V) (d : list (K * V)) :
  k0 <> k -> dict_mem k0 (dict_set k v d) = dict_mem k0 d.
Proof. intros Hne. unfold dict_mem. now rewrite dict_get_set_other. Qed.

Lemma dict_mem_set_mono (k k0 : K) (v : V) (d : list (K * V)) :
  dict_mem k0 d = true -> dict_mem k0 (dict_set k v d) = true.
Proof.
  intros Hm. destruct (eq_dec k0 k) as [->|Hne].
  - apply dict_mem_set_same.
  - now rewrite dict_mem_set_other.
Qed.

(** Assignment keeps the insertion order: a key that is present keeps its
    place, a new key goes to the end. *)
Lemma dict_keys_set (k : K) (v : V) (d : list (K * V)) :
  dict_keys (dict_set k v d)
  = if dict_mem k d then dict_keys d else (dict_keys d ++ [k])%list.
Proof.
  unfold dict_mem. induction d as [|[k' v'] d IH]; simpl; [reflexivity|].
  destruct (eq_dec k k') as [->|Hne]; simpl; [reflexivity|].
  rewrite IH. destruct (dict_get k d); reflexivity.
Qed.

Lemma dict_mem_keys (k : K) (d : list (K * V)) :
  dict_mem k d = true <-> In k (dict_keys d).
Proof.
  unfold dict_mem. induction d as [|[k' v'] d IH]; simpl.
  - split; [discriminate | tauto].
  - destruct (eq_dec k k') as [->|Hne].
    + split; auto.
    + rewrite IH. split; [auto | intros [Heq|Hin]; congruence].
Qed.

End DictFacts.

(** ** The per-file store *)

Lemma addTranslation_gated
      (self : TranslationLangNs) (path value : pyval) (keepMarkdown : bool) :
  dict_mem path (data self) = true ->
  TranslationLangNs_addTranslation self path value false keepMarkdown = Ok self.
Proof. intros Hm. unfold TranslationLangNs_addTranslation. now rewrite Hm. Qed.

Lemma addTranslation_stored
      (self : TranslationLangNs) (path : pyval) (value : string)
      (overwrite keepMarkdown : bool) :
  overwrite = true \/ dict_mem path (data self) = false ->
  TranslationLangNs_addTranslation self path (PStr value) overwrite keepMarkdown
  = Ok {| modified := true;
          data := dict_set path
                    (TranslationLangNs_stringToYaml
                       (if keepMarkdown then str_replace value "[nom]" "{{nickname}}"
                        else ValueReplacer.replace (str_replace value "[nom]" "{{nickname}}")))
                    (data self);
          file := file self |}.
Proof.
  intros Hstore. unfold TranslationLangNs_addTranslation.
  assert (Hgate : negb overwrite && dict_mem path (data self) = false).
  { destruct Hstore as [-> | ->]; [reflexivity | apply andb_false_r]. }
  rewrite Hgate. destruct keepMarkdown; reflexivity.
Qed.

(** C3. Adding a value to a store: when the path is present and
    [overwrite] is false the store is returned as it is, whatever the value
    (stored value and dirty bit unchanged); when the path is absent or
    [overwrite] is true, the transformed text is stored under the path, the
    dirty bit is set, and the other paths keep their values. *)
Theorem addTranslation_overwrite_gate
        (self : TranslationLangNs) (path : pyval) (value : string)
        (overwrite keepMarkdown : bool) :
  let rewritten := str_replace value "[nom]" "{{nickname}}" in
  let transformed :=
    TranslationLangNs_stringToYaml
      (if keepMarkdown then rewritten else ValueReplacer.replace rewritten) in
  (overwrite = false -> dict_mem path (data self) = true ->
   forall v : pyval,
     TranslationLangNs_addTranslation self path v overwrite keepMarkdown = Ok self)
  /\ (overwrite = true \/ dict_mem path (data self) = false ->
      exists self',
        TranslationLangNs_addTranslation self path (PStr value) overwrite keepMarkdown = Ok self'
        /\ dict_get path (data self') = Some transformed
        /\ modified self' = true
        /\ (forall p, p <> path -> dict_get p (data self') = dict_get p (data self))
        /\ file self' = file self).
Proof.
  intros rewritten transformed. split.
  - intros -> Hm v. now apply addTranslation_gated.
  - intros Hstore. rewrite addTranslation_stored by assumption.
    eexists. split; [reflexivity|]. cbn [data modified file].
    split; [apply dict_get_set_same|].
    split; [reflexivity|]. split; [|reflexivity].
    intros p Hp. now apply dict_get_set_other.
Qed.

Lemma addTranslation_overwrite_gate_witness :
  let self := {| modified := false; data := [(PStr "a.b", Plain "old")]; file := ("fr", "s") |} in
  TranslationLangNs_addTranslation self (PStr "a.b") (PStr "new") false false = Ok self
  /\ exists self',
      TranslationLangNs_addTranslation self (PStr "a.b") (PStr "new") true false = Ok self'
      /\ dict_get (PStr "a.b") (data self') = Some (Plain "new").
Proof.
  intros self. split.
  - exact (proj1 (addTranslation_overwrite_gate self (PStr "a.b") "new" false false)
                 eq_refl eq_refl (PStr "new")).
  - destruct (proj2 (addTranslation_overwrite_gate self (PStr "a.b") "new" true false)
                    (or_introl eq_refl)) as [self' [He [Hg _]]].
    exists self'. split; [exact He | exact Hg].
Defined.

(** C7. A value that is stored (not held back by the overwrite gate) has
    every [[nom]] rewritten to [{{nickname}}] first: with [keepMarkdown] the
    stored text is exactly the rewritten value, without it is the notation
    transformer applied to the rewritten value.  In the rewritten value no
    [[nom]] is left, and [{{nickname}}] stands wherever [[nom]] stood. *)
Theorem addTranslation_placeholder
        (self : TranslationLangNs) (path : pyval) (value : string)
        (overwrite keepMarkdown : bool)
        (Hstore : overwrite = true \/ dict_mem path (data self) = false) :
  let rewritten := str_replace value "[nom]" "{{nickname}}" in
  exists self' stored,
    TranslationLangNs_addTranslation self path (PStr value) overwrite keepMarkdown = Ok self'
    /\ dict_get path (data self') = Some stored
    /\ text_of stored = (if keepMarkdown then rewritten else ValueReplacer.replace rewritten)
    /\ str_in "[nom]" rewritten = false
    /\ (forall before after,
          value = before ++ "[nom]" ++ after ->
          rewritten = str_replace before "[nom]" "{{nickname}}" ++ "{{nickname}}"
                        ++ str_replace after "[nom]" "{{nickname}}").
Proof.
  intros rewritten. rewrite addTranslation_stored by assumption.
  do 2 eexists. split; [reflexivity|]. cbn [data].
  split; [apply dict_get_set_same|].
  split; [apply text_of_stringToYaml|].
  split; [now apply str_replace_none_left|].
  intros before after ->. now apply str_replace_occurrence.
Qed.

Lemma addTranslation_placeholder_witness :
  exists self' stored,
    TranslationLangNs_addTranslation (TranslationLangNs_init ("fr", "s")) (PStr "hello")
                                     (PStr "Bonjour [nom], **merci**") false true = Ok self'
    /\ dict_get (PStr "hello") (data self') = Some stored
    /\ text_of stored = "Bonjour {{nickname}}, **merci**"
    /\ str_in "[nom]" "Bonjour {{nickname}}, **merci**" = false.
Proof.
  destruct (addTranslation_placeholder (TranslationLangNs_init ("fr", "s")) (PStr "hello")
              "Bonjour [nom], **merci**" false true (or_intror eq_refl))
    as (self' & stored & Hadd & Hget & Htext & Hnone & _).
  exists self', stored. auto.
Defined.

Example placeholder_with_markup :
  TranslationLangNs_addTranslation (TranslationLangNs_init ("fr", "s")) (PStr "hello")
                                   (PStr "Bonjour [nom], **merci**") false false
  = Ok {| modified := true;
          data := [(PStr "hello", Plain "Bonjour {{nickname}}, <strong>merci</strong>")];
          file := ("fr", "s") |}.
Proof. reflexivity. Qed.

Example fold_threshold :
  TranslationLangNs_stringToYaml
    "12345678901234567890123456789012345678901234567890123456789012345678901234567"
  = Folded "12345678901234567890123456789012345678901234567890123456789012345678901234567"
  /\ TranslationLangNs_stringToYaml
       "1234567890123456789012345678901234567890123456789012345678901234567890123456"
     = Plain "1234567890123456789012345678901234567890123456789012345678901234567890123456".
Proof. split; reflexivity. Qed.

Section StoreFacts.
Context `{Yaml}.

Lemma load_keeps_disk (self : TranslationLangNs) (w : world) :
  disk (fst (TranslationLangNs_loadCurrentTranslations self w)) = disk w
  /\ translations (fst (TranslationLangNs_loadCurrentTranslations self w)) = translations w.
Proof.
  unfold TranslationLangNs_loadCurrentTranslations, bind, open_read, try_except, lift,
    print, raise, ret.
  destruct (dict_get (fst (file self)) (disk w)) as [files|]; [|split; reflexivity].
  destruct (dict_get (snd (file self)) files) as [text|]; [|split; reflexivity].
  destruct (yaml_load text) as [td|e]; [|split; reflexivity].
  destruct (load_paths td []); split; reflexivity.
Qed.

Lemma load_ok (self self' : TranslationLangNs) (w w' : world) :
  TranslationLangNs_loadCurrentTranslations self w = (w', Ok self') ->
  w' = w
  /\ modified self' = modified self
  /\ file self' = file self
  /\ exists text td,
      read_file (file self) (disk w) = Some text
      /\ yaml_load text = Ok td
      /\ load_paths td [] = Ok (data self').
Proof.
  unfold TranslationLangNs_loadCurrentTranslations, bind, open_read, try_except, lift,
    print, raise, ret, read_file.
  destruct (dict_get (fst (file self)) (disk w)) as [files|]; [|discriminate].
  destruct (dict_get (snd (file self)) files) as [text|]; [|discriminate].
  destruct (yaml_load text) as [td|e] eqn:Hl; [|discriminate].
  destruct (load_paths td []) as [d|e] eqn:Hp; [|discriminate].
  intros Heq. inversion Heq; subst. cbn.
  repeat split; eauto.
Qed.

Lemma save_clean (self : TranslationLangNs) (w : world) :
  modified self = false -> TranslationLangNs_save self w = (w, Ok tt).
Proof. intros Hm. unfold TranslationLangNs_save. now rewrite Hm. Qed.

Lemma run_ops_without_add (ops : list store_op) :
  forallb (fun op => negb (is_add op)) ops = true ->
  forall self w,
    modified self = false ->
    disk (fst (run_ops ops self w)) = disk w
    /\ forall self', snd (run_ops ops self w) = Ok self' -> modified self' = false.
Proof.
  induction ops as [|op ops IH]; intros Hops self w Hm.
  - cbn. split; [reflexivity|]. intros self' Heq. now inversion Heq; subst.
  - cbn [forallb] in Hops. apply andb_prop in Hops as [Hop Hops].
    cbn [run_ops]. unfold bind.
    destruct op as [| |p v o k]; [| |discriminate]; cbn [run_op].
    + destruct (TranslationLangNs_loadCurrentTranslations self w) as [w1 [self1|e]] eqn:Hl.
      * apply load_ok in Hl as (-> & Hm1 & _).
        apply IH; [assumption | congruence].
      * pose proof (load_keeps_disk self w) as [Hd _]. rewrite Hl in Hd.
        cbn. split; [exact Hd | discriminate].
    + unfold bind. rewrite save_clean by assumption. unfold ret.
      now apply IH.
Qed.

(** C6. The dirty bit: false in a new store; a load that succeeds leaves
    it (and the files) as they are; an add either is held back by the gate
    and returns the store unchanged, or stores the value and sets the bit;
    a save of a store whose bit is false changes nothing.  Hence after any
    sequence of loads and saves without an add, a new store has its bit
    false and no file has been written. *)
Theorem dirty_bit_discipline :
  (forall f, modified (TranslationLangNs_init f) = false)
  /\ (forall self self' w w',
        TranslationLangNs_loadCurrentTranslations self w = (w', Ok self') ->
        modified self' = modified self /\ w' = w)
  /\ (forall self self' path value overwrite keepMarkdown,
        TranslationLangNs_addTranslation self path value overwrite keepMarkdown = Ok self' ->
        (overwrite = false /\ dict_mem path (data self) = true /\ self' = self)
        \/ ((overwrite = true \/ dict_mem path (data self) = false)
            /\ modified self' = true /\ dict_mem path (data self') = true))
  /\ (forall self w, modified self = false -> TranslationLangNs_save self w = (w, Ok tt))
  /\ (forall ops f w,
        forallb (fun op => negb (is_add op)) ops = true ->
        disk (fst (run_ops ops (TranslationLangNs_init f) w)) = disk w
        /\ forall self', snd (run_ops ops (TranslationLangNs_init f) w) = Ok self' ->
                         modified self' = false).
Proof.
  split; [reflexivity|].
  split; [intros self self' w w' Hl; apply load_ok in Hl; tauto|].
  split.
  { intros self self' path value overwrite keepMarkdown.
    unfold TranslationLangNs_addTranslation.
    destruct overwrite; cbn [negb andb].
    - destruct value; try discriminate. intros Heq; inversion Heq; subst; cbn.
      right. split; [auto|]. split; [reflexivity | apply dict_mem_set_same].
    - destruct (dict_mem path (data self)) eqn:Hm.
      + intros Heq; inversion Heq; subst. left. auto.
      + destruct value; try discriminate. intros Heq; inversion Heq; subst; cbn.
        right. split; [auto|]. split; [reflexivity | apply dict_mem_set_same]. }
  split; [apply save_clean|].
  intros ops f w Hops. now apply run_ops_without_add.
Qed.

End StoreFacts.

Lemma dirty_bit_discipline_witness :
  let w := boot [("fr", [("home", file_header ++ "title: Accueil" ++ newline)])] in
  let r := @run_ops mini_yaml [OpLoad; OpSave] (TranslationLangNs_init ("fr", "home")) w in
  disk (fst r) = disk w
  /\ forall self', snd r = Ok self' -> modified self' = false.
Proof.
  intros w r.
  exact (proj2 (proj2 (proj2 (proj2 (@dirty_bit_discipline mini_yaml))))
               [OpLoad; OpSave] ("fr", "home") w eq_refl).
Defined.

Example load_then_save_keeps_file :
  let w := boot [("fr", [("home", file_header ++ "title: Accueil" ++ newline)])] in
  @run_ops mini_yaml [OpLoad; OpSave] (TranslationLangNs_init ("fr", "home")) w
  = (w, Ok {| modified := false;
              data := [(PStr "title", Plain "Accueil")];
              file := ("fr", "home") |}).
Proof. reflexivity. Qed.

Lemma read_file_write_same (f : fpath) (text : string) (files : list (string * string))
      (d : filesystem) :
  read_file f (dict_set (fst f) (dict_set (snd f) text files) d) = Some text.
Proof. unfold read_file. now rewrite !dict_get_set_same. Qed.

Lemma read_file_write_other (f g : fpath) (text : string) (files : list (string * string))
      (d : filesystem) :
  dict_get (fst f) d = Some files -> g <> f ->
  read_file g (dict_set (fst f) (dict_set (snd f) text files) d) = read_file g d.
Proof.
  intros Hd Hne. unfold read_file. destruct f as [dir stem], g as [dir' stem']. cbn in *.
  destruct (eq_dec dir' dir) as [->|Hdir].
  - rewrite dict_get_set_same, Hd. apply dict_get_set_other. congruence.
  - now rewrite dict_get_set_other.
Qed.

Section SaveFacts.
Context `{Yaml}.

Lemma save_dirty (self : TranslationLangNs) (w : world) (files : list (string * string)) :
  modified self = true ->
  dict_get (fst (file self)) (disk w) = Some files ->
  TranslationLangNs_save self w
  = ({| translations := translations w;
        stdout := stdout w ++ [LogGenerate (file self)];
        disk := dict_set (fst (file self))
                         (dict_set (snd (file self)) (file_header ++ yaml_dump (data self)) files)
                         (disk w) |}, Ok tt).
Proof.
  intros Hm Hd. unfold TranslationLangNs_save, bind, open_write, print.
  rewrite Hm, Hd. reflexivity.
Qed.

Lemma save_no_directory (self : TranslationLangNs) (w : world) :
  modified self = true ->
  dict_get (fst (file self)) (disk w) = None ->
  TranslationLangNs_save self w = (w, Raise FileNotFoundError).
Proof.
  intros Hm Hd. unfold TranslationLangNs_save, bind, open_write, print.
  rewrite Hm, Hd. reflexivity.
Qed.

(** C9, as the code has it. A dirty store whose file's directory exists:
    [save] writes the three comment lines of the header, an empty line and
    the dump of the mapping to the file of the store, leaves every other
    file and the set of directories as they are, and reports the file.  The
    mapping is in insertion order: a stored path that was present keeps its
    place, a new one comes last.  When the directory does not exist, [save]
    raises and the output folder is unchanged: no directory is created. *)
Theorem save_writes_header_and_mapping (self : TranslationLangNs) (w : world)
        (Hdirty : modified self = true) :
  (forall files,
      dict_get (fst (file self)) (disk w) = Some files ->
      exists w',
        TranslationLangNs_save self w = (w', Ok tt)
        /\ read_file (file self) (disk w')
           = Some ("# This file was automatically generated by the Evolution Generator."
                     ++ newline
                     ++ "# The Evolution Generator is used to automate the creation of consistent, reliable code."
                     ++ newline
                     ++ "# Any changes made to this file will be overwritten."
                     ++ newline ++ newline
                     ++ yaml_dump (data self))
        /\ (forall g, g <> file self -> read_file g (disk w') = read_file g (disk w))
        /\ dict_keys (disk w') = dict_keys (disk w)
        /\ stdout w' = (stdout w ++ [LogGenerate (file self)])%list)
  /\ (dict_get (fst (file self)) (disk w) = None ->
      TranslationLangNs_save self w = (w, Raise FileNotFoundError))
  /\ (forall path value overwrite keepMarkdown self',
        TranslationLangNs_addTranslation self path (PStr value) overwrite keepMarkdown = Ok self' ->
        dict_keys (data self')
        = if dict_mem path (data self) then dict_keys (data self)
          else (dict_keys (data self) ++ [path])%list).
Proof.
  split; [|split].
  - intros files Hd. eexists. split; [exact (save_dirty self w files Hdirty Hd)|]. cbn [disk stdout].
    split.
    { rewrite read_file_write_same. reflexivity. }
    split; [intros g Hg; now apply read_file_write_other|].
    split; [|reflexivity].
    rewrite dict_keys_set. unfold dict_mem. now rewrite Hd.
  - now apply save_no_directory.
  - intros path value overwrite keepMarkdown self'.
    unfold TranslationLangNs_addTranslation.
    destruct (negb overwrite && dict_mem path (data self)) eqn:Hg.
    + apply andb_prop in Hg as [_ Hm]. rewrite Hm.
      intros Heq; inversion Heq; subst; reflexivity.
    + intros Heq; inversion Heq; subst; cbn [data]. apply dict_keys_set.
Qed.

End SaveFacts.

Example file_header_lines :
  lines_from EmptyString file_header
  = ["# This file was automatically generated by the Evolution Generator.";
     "# The Evolution Generator is used to automate the creation of consistent, reliable code.";
     "# Any changes made to this file will be overwritten.";
     EmptyString].
Proof. reflexivity. Qed.

Lemma save_writes_header_and_mapping_witness :
  let self := {| modified := true;
                 data := [(PStr "title", Plain "Accueil")];
                 file := ("fr", "home") |} in
  let w := boot [("fr", [])] in
  modified self = true
  /\ exists w',
      @TranslationLangNs_save mini_yaml self w = (w', Ok tt)
      /\ read_file ("fr", "home") (disk w')
         = Some (file_header ++ "title: Accueil" ++ newline).
Proof.
  intros self w. split; [reflexivity|].
  destruct (proj1 (@save_writes_header_and_mapping mini_yaml self w eq_refl) [] eq_refl)
    as [w' [Hs [Hr _]]].
  exists w'. split; [exact Hs | exact Hr].
Defined.

(** C9, as the specification words it, fails: with no directory for the
    language, a dirty store is not written and no directory appears. *)
Lemma save_creates_no_directory :
  ~ (forall (Y : Yaml) (self : TranslationLangNs) (w : world),
        modified self = true ->
        exists w',
          TranslationLangNs_save self w = (w', Ok tt)
          /\ read_file (file self) (disk w') = Some (file_header ++ yaml_dump (data self))).
Proof.
  intros Hclaim.
  destruct (Hclaim mini_yaml
                   {| modified := true;
                      data := [(PStr "title", Plain "Accueil")];
                      file := ("fr", "home") |}
                   (boot []) eq_refl) as [w' [Hs _]].
  discriminate Hs.
Qed.

(** ** The Labels sheet *)

Section DictOf.
Context {K V : Type} `{EqDec K}.

Lemma dict_of_acc_mem (pairs : list (K * V)) (acc : list (K * V)) (k : K) :
  dict_mem k (fold_left (fun d kv => dict_set (fst kv) (snd kv) d) pairs acc) = true
  <-> dict_mem k acc = true \/ In k (map fst pairs).
Proof.
  revert acc. induction pairs as [|[k' v'] pairs IH]; intros acc; cbn [fold_left map In fst snd].
  - tauto.
  - rewrite IH. destruct (eq_dec k k') as [->|Hne].
    + rewrite dict_mem_set_same. tauto.
    + rewrite dict_mem_set_other by assumption.
      split; [intros [?|?]; auto | intros [?|[?|?]]; auto; congruence].
Qed.

Lemma dict_of_mem (pairs : list (K * V)) (k : K) :
  dict_mem k (dict_of pairs) = true <-> In k (map fst pairs).
Proof.
  unfold dict_of. rewrite dict_of_acc_mem. cbn. split; [intros [?|?]; auto; discriminate | auto].
Qed.

End DictOf.

Lemma find_snoc {A} (f : A -> bool) (l : list A) (x : A) :
  find f (l ++ [x])
  = match find f l with Some y => Some y | None => if f x then Some x else None end.
Proof.
  induction l as [|y l IH]; cbn; [reflexivity|].
  destruct (f y); auto.
Qed.

Lemma row_has_key (headers row : list pyval) :
  In (PStr "key") headers -> List.length headers <= List.length row ->
  exists k, dict_get (PStr "key") (row_dict headers row) = Some k.
Proof.
  intros Hin Hlen.
  assert (Hm : dict_mem (PStr "key") (row_dict headers row) = true).
  { apply dict_of_mem.
    assert (Hfst : map fst (combine headers row) = headers).
    { clear Hin. revert row Hlen. induction headers as [|h hs IH]; intros row Hlen.
      - reflexivity.
      - destruct row as [|c row]; cbn in *; [lia|]. f_equal. apply IH. lia. }
    now rewrite Hfst. }
  unfold dict_mem in Hm. destruct (dict_get _ _) as [k|]; [eauto | discriminate].
Qed.

Lemma index_locales_last (headers : list pyval) (rows : list (list pyval)) :
  (forall row, In row rows ->
               exists k, dict_get (PStr "key") (row_dict headers row) = Some k) ->
  forall acc,
  exists dictionary,
    index_locales headers rows acc = Ok dictionary
    /\ forall k,
        dict_get k dictionary
        = match last_row_with_key headers rows k with
          | Some row => Some (row_dict headers row)
          | None => dict_get k acc
          end.
Proof.
  induction rows as [|row rows IH]; intros Hkeys acc.
  - exists acc. split; reflexivity.
  - destruct (Hkeys row (or_introl eq_refl)) as [key Hkey].
    cbn [index_locales]. fold (row_dict headers row). rewrite Hkey.
    destruct (IH (fun r Hr => Hkeys r (or_intror Hr))
                 (dict_set key (row_dict headers row) acc)) as [d [Hd Hget]].
    exists d. split; [exact Hd|]. intros k. rewrite Hget.
    unfold last_row_with_key. cbn [rev]. rewrite find_snoc.
    destruct (find _ (rev rows)); [reflexivity|].
    rewrite Hkey. destruct (eq_dec key k) as [->|Hne].
    + apply dict_get_set_same.
    + apply dict_get_set_other. congruence.
Qed.

(** C10. A Labels sheet with a header row that has a [key] column and at
    least one data row (every row as wide as the header): the helper
    returns a dictionary that maps each key to the dictionary of the last
    row, in sheet order, whose [key] cell has that value; the rows before
    it with the same key are not in the dictionary. *)
Theorem locales_dictionary_last_row_wins
        (wb : workbook) (headers : list pyval) (rows : list (list pyval)) (w : world)
        (Hsheet : Labels wb = Some (headers :: rows))
        (Hrows : rows <> [])
        (Hkey : In (PStr "key") headers)
        (Hwidth : forall row, In row rows -> List.length headers <= List.length row) :
  exists locales_dictionary,
    __getTranslationsFromLocaleSheet wb w = (w, Ok locales_dictionary)
    /\ forall k,
        dict_get k locales_dictionary
        = option_map (row_dict headers) (last_row_with_key headers rows k).
Proof.
  destruct (index_locales_last headers rows
              (fun row Hin => row_has_key headers row Hkey (Hwidth row Hin)) [])
    as [d [Hd Hget]].
  exists d. split.
  - unfold __getTranslationsFromLocaleSheet, try_except, bind, lift, raise.
    rewrite Hsheet. cbn [sheet_exists].
    destruct rows as [|r rows]; [congruence|]. cbn [List.length Nat.leb].
    unfold get_headers. cbn [forallb].
    destruct (in_dec eq_dec (PStr "key") headers) as [_|Hn]; [|contradiction].
    cbn [andb skipn]. now rewrite Hd.
  - intros k. rewrite Hget.
    destruct (last_row_with_key headers rows k); reflexivity.
Qed.

Lemma locales_dictionary_last_row_wins_witness :
  let wb := {| Widgets := None;
               Labels := Some [[PStr "key"; PStr "fr_label"];
                               [PStr "Q1"; PStr "premier"];
                               [PStr "Q2"; PStr "autre"];
                               [PStr "Q1"; PStr "dernier"]] |} in
  exists locales_dictionary,
    __getTranslationsFromLocaleSheet wb (boot []) = (boot [], Ok locales_dictionary)
    /\ dict_get (PStr "Q1") locales_dictionary
       = Some [(PStr "key", PStr "Q1"); (PStr "fr_label", PStr "dernier")].
Proof.
  intros wb.
  destruct (locales_dictionary_last_row_wins wb
              [PStr "key"; PStr "fr_label"]
              [[PStr "Q1"; PStr "premier"]; [PStr "Q2"; PStr "autre"]; [PStr "Q1"; PStr "dernier"]]
              (boot []) eq_refl ltac:(discriminate) ltac:(cbn; auto)
              ltac:(cbn; intros row [<-|[<-|[<-|[]]]]; cbn; lia))
    as [d [Hd Hget]].
  exists d. split; [exact Hd | exact (Hget (PStr "Q1"))].
Defined.

(** ** Relations that every step of a computation keeps *)

Section Respects.
Variable R : world -> world -> Prop.
Hypothesis R_refl : forall w, R w w.
Hypothesis R_trans : forall w1 w2 w3, R w1 w2 -> R w2 w3 -> R w1 w3.

Lemma respects_ret {A} (a : A) : respects R (ret a).
Proof. intros w. apply R_refl. Qed.

Lemma respects_raise {A} (e : exn) : respects R (@raise A e).
Proof. intros w. apply R_refl. Qed.

Lemma respects_lift {A} (r : result A) : respects R (lift r).
Proof. intros w. apply R_refl. Qed.

Lemma respects_bind {A B} (m : M A) (k : A -> M B) :
  respects R m -> (forall a, respects R (k a)) -> respects R (bind m k).
Proof.
  intros Hm Hk w. unfold bind. specialize (Hm w).
  destruct (m w) as [w1 [a|e]]; cbn in *; [|assumption].
  eapply R_trans; [eassumption | apply Hk].
Qed.

Lemma respects_try_except {A} (m : M A) (h : exn -> M A) :
  respects R m -> (forall e, respects R (h e)) -> respects R (try_except m h).
Proof.
  intros Hm Hh w. unfold try_except. specialize (Hm w).
  destruct (m w) as [w1 [a|e]]; cbn in *; [assumption|].
  eapply R_trans; [eassumption | apply Hh].
Qed.

Lemma respects_for_each {A} (xs : list A) (body : A -> M unit) :
  (forall x, respects R (body x)) -> respects R (for_each xs body).
Proof.
  intros Hb. induction xs as [|x xs IH]; cbn [for_each].
  - apply respects_ret.
  - apply respects_bind; auto.
Qed.

(** The extraction pipeline keeps a relation that printing and adding a
    translation keep. *)
Hypothesis R_log : forall w l, R w (log w l).
Hypothesis R_add :
  forall lang section path value overwrite keepMarkdown,
    respects R (TranslationData_addTranslation lang section path value overwrite keepMarkdown).

Lemma respects_print (l : logline) : respects R (print l).
Proof. intros w. apply R_log. Qed.

Lemma respects_report {A} (l : logline) (m : M A) :
  respects R m -> respects R (print l ;; m).
Proof. intros Hm. apply respects_bind; [apply respects_print | auto]. Qed.

Lemma respects_locale_column overwrite section question_name row keepMarkdown key :
  respects R (locale_column overwrite section question_name row keepMarkdown key).
Proof.
  unfold locale_column.
  repeat match goal with
         | |- respects R (if ?c then _ else _) => destruct c
         | |- respects R (match ?c with _ => _ end) => destruct c
         end; try apply respects_ret; try apply respects_raise.
  apply respects_bind; [apply respects_lift | intros lngContext].
  destruct (Nat.ltb 2 _); [apply respects_ret|].
  apply respects_bind; [|intro; apply R_add].
  destruct (snd lngContext); [apply respects_lift | apply respects_ret].
Qed.

Lemma respects_addTranslationsFromLocales overwrite section question_name row :
  respects R (__addTranslationsFromLocales overwrite section question_name row).
Proof.
  unfold __addTranslationsFromLocales.
  apply respects_try_except; [|intro; apply respects_report, respects_ret].
  apply respects_for_each. intro. apply respects_locale_column.
Qed.

Lemma respects_getTranslationsFromLocaleSheet wb :
  respects R (__getTranslationsFromLocaleSheet wb).
Proof.
  unfold __getTranslationsFromLocaleSheet.
  apply respects_try_except; [|intro; apply respects_report, respects_ret].
  apply respects_bind; [apply respects_lift|intro].
  destruct (Labels wb); [|apply respects_raise].
  destruct (Nat.leb _ 1); [apply respects_raise|].
  apply respects_bind; [apply respects_lift | intro; apply respects_lift].
Qed.

Lemma respects_widget_row overwrite locales_dictionary row :
  respects R (widget_row overwrite locales_dictionary row).
Proof.
  unfold widget_row.
  repeat (apply respects_bind; [apply respects_lift|intro]).
  destruct (dict_get _ locales_dictionary).
  - apply respects_addTranslationsFromLocales.
  - apply respects_bind; [|intro]; destruct (eq_dec _ PNone);
      first [apply respects_ret | apply R_add].
Qed.

Lemma respects_addTranslationsFromExcel wb overwrite :
  respects R (FillLocalesTranslations_addTranslationsFromExcel wb overwrite).
Proof.
  unfold FillLocalesTranslations_addTranslationsFromExcel.
  apply respects_try_except; [|intro; apply respects_report, respects_raise].
  destruct (Widgets wb); [|apply respects_raise].
  apply respects_bind; [apply respects_getTranslationsFromLocaleSheet|intro].
  apply respects_for_each. intro. apply respects_widget_row.
Qed.

End Respects.

(** ** Worlds that only grow *)

Lemma grows_refl (w : world) : grows w w.
Proof. unfold grows. auto. Qed.

Lemma grows_trans (w1 w2 w3 : world) : grows w1 w2 -> grows w2 w3 -> grows w1 w3.
Proof.
  unfold grows. intros (Hd1 & Hf1 & Hc1) (Hd2 & Hf2 & Hc2).
  split; [congruence|]. split; [lia | auto].
Qed.

Lemma add_failures_log (w : world) (l : logline) :
  add_failures (log w l) = add_failures w + (if is_add_failure l then 1 else 0).
Proof.
  unfold add_failures, log. cbn [stdout]. rewrite filter_app, length_app. cbn.
  destruct (is_add_failure l); reflexivity.
Qed.

Lemma grows_log (w : world) (l : logline) : grows w (log w l).
Proof.
  unfold grows. split; [reflexivity|]. split; [rewrite add_failures_log; lia | auto].
Qed.

(** ** The registry *)

Lemma ensure_lang_get (lang : string) (t : list (string * list (pyval * TranslationLangNs))) :
  dict_get lang (ensure_lang lang t)
  = Some (match dict_get lang t with Some sections => sections | None => [] end).
Proof.
  unfold ensure_lang, dict_mem. destruct (dict_get lang t) eqn:Hg; [assumption|].
  apply dict_get_set_same.
Qed.

Lemma ensure_lang_other (lang l : string) (t : list (string * list (pyval * TranslationLangNs))) :
  l <> lang -> dict_get l (ensure_lang lang t) = dict_get l t.
Proof.
  intros Hne. unfold ensure_lang. destruct (dict_mem lang t); [reflexivity|].
  now apply dict_get_set_other.
Qed.

Lemma covered_ensure_lang (lang : string) t l s p :
  covered t l s p -> covered (ensure_lang lang t) l s p.
Proof.
  intros (secs & st & Hl & Hs & Hp). exists secs, st.
  split; [|auto]. destruct (eq_dec l lang) as [->|Hne].
  - now rewrite ensure_lang_get, Hl.
  - now rewrite ensure_lang_other.
Qed.

(** Putting a store that has at least the paths of the one it replaces. *)
Lemma covered_update (lang : string) (section : pyval) (store : TranslationLangNs)
      sections t l s p :
  dict_get lang t = Some sections ->
  (forall old, dict_get section sections = Some old ->
               dict_mem p (data old) = true -> dict_mem p (data store) = true) ->
  covered t l s p ->
  covered (dict_set lang (dict_set section store sections) t) l s p.
Proof.
  intros Hlang Hdata (secs & st & Hl & Hs & Hp).
  destruct (eq_dec l lang) as [->|Hne].
  - assert (secs = sections) by congruence. subst secs.
    destruct (eq_dec s section) as [->|Hns].
    + exists (dict_set section store sections), store.
      rewrite !dict_get_set_same. eauto.
    + exists (dict_set section store sections), st.
      rewrite dict_get_set_same, dict_get_set_other by assumption. auto.
  - exists secs, st. rewrite dict_get_set_other by assumption. auto.
Qed.

Lemma addTranslation_data_mono (self self' : TranslationLangNs) path value overwrite keepMarkdown p :
  TranslationLangNs_addTranslation self path value overwrite keepMarkdown = Ok self' ->
  dict_mem p (data self) = true -> dict_mem p (data self') = true.
Proof.
  unfold TranslationLangNs_addTranslation.
  destruct (negb overwrite && dict_mem path (data self)).
  - intros Heq; now inversion Heq.
  - destruct value; try discriminate. intros Heq; inversion Heq; subst; cbn [data].
    apply dict_mem_set_mono.
Qed.

Lemma addTranslation_has_path (self self' : TranslationLangNs) path value overwrite keepMarkdown :
  TranslationLangNs_addTranslation self path value overwrite keepMarkdown = Ok self' ->
  dict_mem path (data self') = true.
Proof.
  unfold TranslationLangNs_addTranslation.
  destruct (negb overwrite && dict_mem path (data self)) eqn:Hg.
  - apply andb_prop in Hg as [_ Hm]. intros Heq; now inversion Heq; subst.
  - destruct value; try discriminate. intros Heq; inversion Heq; subst; cbn [data].
    apply dict_mem_set_same.
Qed.

(** [TranslationData.addTranslation], case by case. *)
Lemma addTranslation_run (lang : string) (section path value : pyval)
      (overwrite keepMarkdown : bool) (w : world) :
  let t1 := ensure_lang lang (translations w) in
  let sections := match dict_get lang (translations w) with Some s => s | None => [] end in
  TranslationData_addTranslation lang section path value overwrite keepMarkdown w
  = match dict_get section sections with
    | Some store =>
        match TranslationLangNs_addTranslation store path value overwrite keepMarkdown with
        | Ok store' =>
            (with_translations w (dict_set lang (dict_set section store' sections) t1), Ok tt)
        | Raise e =>
            (log (with_translations w t1) (LogAddTranslation lang section path e), Raise e)
        end
    | None =>
        match section with
        | PStr s =>
            let new := TranslationLangNs_init (lang, s) in
            let sections2 := dict_set section new sections in
            let t2 := dict_set lang sections2 t1 in
            match TranslationLangNs_addTranslation new path value overwrite keepMarkdown with
            | Ok store' =>
                (with_translations w (dict_set lang (dict_set section store' sections2) t2), Ok tt)
            | Raise e =>
                (log (with_translations w t2) (LogAddTranslation lang section path e), Raise e)
            end
        | PNone | PInt _ | PDate _ =>
            (log (with_translations w t1) (LogAddTranslation lang section path TypeError),
             Raise TypeError)
        end
    end.
Proof.
  intros t1 sections.
  unfold TranslationData_addTranslation, try_except, bind, get_translations,
    put_translations, lift, sections_of, ret, raise, print. cbn [translations stdout disk fst snd].
  fold t1. unfold t1 at 1. rewrite ensure_lang_get. fold sections.
  unfold dict_mem. destruct (dict_get section sections) as [store|] eqn:Hs.
  - cbn [translations stdout disk]. unfold t1 at 1. rewrite ensure_lang_get. fold sections.
    rewrite Hs.
    destruct (TranslationLangNs_addTranslation store path value overwrite keepMarkdown);
      reflexivity.
  - unfold new_store_file. destruct section as [|s|z|dt]; try reflexivity.
    cbn [translations stdout disk]. rewrite !dict_get_set_same.
    destruct (TranslationLangNs_addTranslation _ path value overwrite keepMarkdown);
      reflexivity.
Qed.

Lemma dict_set_id {K V : Type} `{EqDec K} (k : K) (v : V) (d : list (K * V)) :
  dict_get k d = Some v -> dict_set k v d = d.
Proof.
  induction d as [|[k' v'] d IH]; cbn; [discriminate|].
  destruct (eq_dec k k') as [->|Hne]; intros Heq.
  - now inversion Heq.
  - f_equal. auto.
Qed.

Lemma with_translations_id (w : world) : with_translations w (translations w) = w.
Proof. now destruct w. Qed.

Lemma growing_addTranslation lang section path value overwrite keepMarkdown :
  growing (TranslationData_addTranslation lang section path value overwrite keepMarkdown).
Proof.
  intros w. rewrite addTranslation_run. cbv zeta.
  pose proof (ensure_lang_get lang (translations w)) as Ht1.
  set (t1 := ensure_lang lang (translations w)) in *.
  set (sections := match dict_get lang (translations w) with Some s => s | None => [] end) in *.
  assert (Hc1 : forall l s p, covered (translations w) l s p -> covered t1 l s p)
    by (intros; now apply covered_ensure_lang).
  destruct (dict_get section sections) as [store|] eqn:Hs.
  - destruct (TranslationLangNs_addTranslation store path value overwrite keepMarkdown)
      as [store'|e] eqn:Ha; cbn [fst].
    + split; [reflexivity|]. split; [reflexivity|]. cbn [translations with_translations].
      intros l s p Hc. apply covered_update; auto.
      intros old Hold Hm. assert (old = store) by congruence. subst old.
      eapply addTranslation_data_mono; eassumption.
    + split; [reflexivity|]. split; [rewrite add_failures_log; cbn; unfold add_failures; cbn; lia|].
      cbn. auto.
  - destruct section as [|s|z|dt]; cbn [fst].
    + split; [reflexivity|]. split; [rewrite add_failures_log; cbn; unfold add_failures; cbn; lia|].
      cbn. auto.
    + assert (Hc2 : forall l s0 p, covered t1 l s0 p ->
                covered (dict_set lang (dict_set (PStr s) (TranslationLangNs_init (lang, s)) sections) t1)
                        l s0 p).
      { intros l s0 p Hc. apply covered_update; auto. intros old Hold. congruence. }
      destruct (TranslationLangNs_addTranslation (TranslationLangNs_init (lang, s))
                  path value overwrite keepMarkdown) as [store'|e] eqn:Ha; cbn [fst].
      * split; [reflexivity|]. split; [reflexivity|]. cbn [translations with_translations].
        intros l s0 p Hc. apply covered_update; auto.
        -- apply dict_get_set_same.
        -- rewrite dict_get_set_same. intros old Hold Hm. inversion Hold; subst old.
           eapply addTranslation_data_mono; eassumption.
      * split; [reflexivity|].
        split; [rewrite add_failures_log; cbn; unfold add_failures; cbn; lia|].
        cbn. auto.
    + split; [reflexivity|]. split; [rewrite add_failures_log; cbn; unfold add_failures; cbn; lia|].
      cbn. auto.
    + split; [reflexivity|]. split; [rewrite add_failures_log; cbn; unfold add_failures; cbn; lia|].
      cbn. auto.
Qed.

(** A failed add is reported with its language, section and path, and the
    exception goes on to the caller. *)
Lemma addTranslation_raise lang section path value overwrite keepMarkdown w w' e :
  TranslationData_addTranslation lang section path value overwrite keepMarkdown w
  = (w', Raise e) ->
  stdout w' = (stdout w ++ [LogAddTranslation lang section path e])%list
  /\ add_failures w' = S (add_failures w).
Proof.
  rewrite addTranslation_run. cbv zeta.
  assert (Hlog : forall w0 t l, is_add_failure l = true ->
             stdout (log (with_translations w0 t) l) = (stdout w0 ++ [l])%list
             /\ add_failures (log (with_translations w0 t) l) = S (add_failures w0)).
  { intros w0 t l Hl. split; [reflexivity|]. rewrite add_failures_log, Hl.
    unfold add_failures. cbn. lia. }
  destruct (dict_get section _) as [store|].
  - destruct (TranslationLangNs_addTranslation store path value overwrite keepMarkdown);
      intros Heq; inversion Heq; subst. now apply Hlog.
  - destruct section as [|s|z|dt].
    + intros Heq; inversion Heq; subst. now apply Hlog.
    + destruct (TranslationLangNs_addTranslation _ path value overwrite keepMarkdown);
        intros Heq; inversion Heq; subst. now apply Hlog.
    + intros Heq; inversion Heq; subst. now apply Hlog.
    + intros Heq; inversion Heq; subst. now apply Hlog.
Qed.

(** An add that returns has reported nothing, and the path is in the store
    of the language and section. *)
Lemma addTranslation_ok lang section path value overwrite keepMarkdown w w' :
  TranslationData_addTranslation lang section path value overwrite keepMarkdown w
  = (w', Ok tt) ->
  stdout w' = stdout w /\ covered (translations w') lang section path.
Proof.
  rewrite addTranslation_run. cbv zeta.
  destruct (dict_get section _) as [store|] eqn:Hs.
  - destruct (TranslationLangNs_addTranslation store path value overwrite keepMarkdown)
      as [store'|e] eqn:Ha; intros Heq; inversion Heq; subst.
    split; [reflexivity|]. cbn [translations with_translations].
    do 2 eexists. rewrite !dict_get_set_same. split; [reflexivity|]. split; [reflexivity|].
    eapply addTranslation_has_path; eassumption.
  - destruct section as [|s|z|dt]; try discriminate.
    destruct (TranslationLangNs_addTranslation _ path value overwrite keepMarkdown)
      as [store'|e] eqn:Ha; intros Heq; inversion Heq; subst.
    split; [reflexivity|]. cbn [translations with_translations].
    do 2 eexists. rewrite !dict_get_set_same. split; [reflexivity|]. split; [reflexivity|].
    eapply addTranslation_has_path; eassumption.
Qed.

(** With [overwrite] false, an add of a path that is there changes nothing. *)
Lemma addTranslation_covered lang section path value keepMarkdown w :
  covered (translations w) lang section path ->
  TranslationData_addTranslation lang section path value false keepMarkdown w = (w, Ok tt).
Proof.
  intros (secs & st & Hl & Hs & Hp).
  rewrite addTranslation_run. cbv zeta. rewrite Hl, Hs.
  rewrite addTranslation_gated by assumption.
  rewrite (dict_set_id section st secs Hs).
  unfold ensure_lang, dict_mem. rewrite Hl.
  rewrite (dict_set_id lang secs _ Hl). now rewrite with_translations_id.
Qed.

(** ** The extraction pipeline *)

Lemma growing_addTranslationsFromExcel wb overwrite :
  growing (FillLocalesTranslations_addTranslationsFromExcel wb overwrite).
Proof.
  exact (respects_addTranslationsFromExcel grows grows_refl grows_trans grows_log
           growing_addTranslation wb overwrite).
Qed.

(** The locale-override strategy never lets an exception out. *)
Lemma addTranslationsFromLocales_returns overwrite section question_name row w :
  snd (__addTranslationsFromLocales overwrite section question_name row w) = Ok tt.
Proof.
  unfold __addTranslationsFromLocales, try_except, bind, print, ret.
  destruct (for_each _ _ w) as [w' [[]|e]]; reflexivity.
Qed.

Lemma for_each_raise {A} (before after : list A) (x : A) (body : A -> M unit) w w1 w2 e :
  for_each before body w = (w1, Ok tt) ->
  body x w1 = (w2, Raise e) ->
  for_each (before ++ x :: after) body w = (w2, Raise e).
Proof.
  revert w. induction before as [|y before IH]; intros w Hb Hx; cbn [app for_each] in *.
  - unfold ret in Hb. inversion Hb; subst. unfold bind. now rewrite Hx.
  - unfold bind in *. destruct (body y w) as [w' [[]|e']]; [auto | discriminate].
Qed.

(** ** Loading the existing files *)

Lemma addTranslations_run lang section store w :
  TranslationData_addTranslations lang section store w
  = (with_translations w (register lang section store (translations w)), Ok tt).
Proof.
  unfold TranslationData_addTranslations, bind, get_translations, lift, sections_of,
    put_translations, register.
  now rewrite ensure_lang_get.
Qed.

Section LoadFacts.
Context `{Yaml}.

Lemma load_init_run (f : fpath) (w : world) :
  match load_file (disk w) f with
  | Ok store =>
      TranslationLangNs_loadCurrentTranslations (TranslationLangNs_init f) w = (w, Ok store)
  | Raise e =>
      exists w',
        TranslationLangNs_loadCurrentTranslations (TranslationLangNs_init f) w = (w', Raise e)
        /\ disk w' = disk w /\ translations w' = translations w
  end.
Proof.
  unfold load_file, TranslationLangNs_loadCurrentTranslations, bind, open_read, try_except,
    lift, print, raise, ret, read_file. cbn [file TranslationLangNs_init modified].
  destruct (dict_get (fst f) (disk w)) as [files|]; [|eauto].
  destruct (dict_get (snd f) files) as [text|]; [|eauto].
  destruct (yaml_load text) as [td|e]; [|eauto].
  destruct (load_paths td []); eauto.
Qed.

Lemma load_one_run (f : fpath) (w : world) :
  match load_file (disk w) f with
  | Ok store =>
      load_one f w
      = (with_translations w (register (fst f) (PStr (snd f)) store (translations w)), Ok tt)
  | Raise e =>
      exists w', load_one f w = (w', Raise e)
                 /\ disk w' = disk w /\ translations w' = translations w
  end.
Proof.
  pose proof (load_init_run f w) as Hl. unfold load_one, bind.
  destruct (load_file (disk w) f) as [store|e].
  - rewrite Hl. apply addTranslations_run.
  - destruct Hl as (w' & -> & Hd & Ht). eauto.
Qed.

Lemma load_files_run (files : list fpath) (w : world) :
  match load_all (disk w) files (translations w) with
  | Ok t => for_each files load_one w = (with_translations w t, Ok tt)
  | Raise e => exists w', for_each files load_one w = (w', Raise e) /\ disk w' = disk w
  end.
Proof.
  revert w. induction files as [|f files IH]; intros w; cbn [load_all for_each].
  - unfold ret. now rewrite with_translations_id.
  - pose proof (load_one_run f w) as Hf. unfold bind.
    destruct (load_file (disk w) f) as [store|e].
    + rewrite Hf. specialize (IH (with_translations w (register (fst f) (PStr (snd f)) store
                                                                  (translations w)))).
      cbn [disk translations with_translations] in IH.
      destruct (load_all _ files _) as [t|e]; [exact IH|].
      destruct IH as (w' & -> & Hd). eauto.
    + destruct Hf as (w' & -> & Hd & _). eauto.
Qed.

Lemma loadCurrentTranslations_run (w : world) :
  match load_all (disk w) (glob (disk w)) (translations w) with
  | Ok t => FillLocalesTranslations_loadCurrentTranslations w = (with_translations w t, Ok tt)
  | Raise e =>
      exists w', FillLocalesTranslations_loadCurrentTranslations w = (w', Raise e)
                 /\ disk w' = disk w
  end.
Proof. apply (load_files_run (glob (disk w)) w). Qed.

End LoadFacts.

(** ** Exceptions in the pipeline *)

Section Propagation.
Context `{Yaml}.

Lemma widget_row_default overwrite locales_dictionary row question_name section path fr en :
  index row 0 = Ok question_name -> index row 3 = Ok section -> index row 5 = Ok path ->
  index row 6 = Ok fr -> index row 7 = Ok en ->
  dict_get question_name locales_dictionary = None ->
  widget_row overwrite locales_dictionary row
  = ((if eq_dec fr PNone then ret tt
      else TranslationData_addTranslation "fr" section path fr overwrite false) ;;
     (if eq_dec en PNone then ret tt
      else TranslationData_addTranslation "en" section path en overwrite false)).
Proof.
  intros H0 H3 H5 H6 H7 Hd. unfold widget_row.
  rewrite H0, H3, H5, H6, H7. unfold bind at 1 2 3 4 5. unfold lift.
  now rewrite Hd.
Qed.

Lemma addTranslationsFromExcel_raise wb overwrite sheet before row after
      locales_dictionary w w0 w1 w2 e :
  Widgets wb = Some sheet ->
  skipn 1 sheet = (before ++ row :: after)%list ->
  __getTranslationsFromLocaleSheet wb w = (w0, Ok locales_dictionary) ->
  for_each before (widget_row overwrite locales_dictionary) w0 = (w1, Ok tt) ->
  widget_row overwrite locales_dictionary row w1 = (w2, Raise e) ->
  FillLocalesTranslations_addTranslationsFromExcel wb overwrite w
  = (log w2 (LogExcel e), Raise e).
Proof.
  intros Hw Hrows Hl Hb Hr.
  unfold FillLocalesTranslations_addTranslationsFromExcel, try_except.
  rewrite Hw. unfold bind at 1. rewrite Hl, Hrows.
  now rewrite (for_each_raise before after row _ w0 w1 w2 e Hb Hr).
Qed.

Lemma generate_libelles_abort wb overwrite w wl we e :
  FillLocalesTranslations_loadCurrentTranslations (with_translations w []) = (wl, Ok tt) ->
  FillLocalesTranslations_addTranslationsFromExcel wb overwrite wl = (we, Raise e) ->
  generate_libelles wb overwrite w = (log we (LogError e), Raise e)
  /\ disk (log we (LogError e)) = disk w.
Proof.
  intros Hl He. split.
  - unfold generate_libelles, try_except, bind, put_translations.
    change {| translations := []; stdout := stdout w; disk := disk w |}
      with (with_translations w []).
    now rewrite Hl, He.
  - pose proof (loadCurrentTranslations_run (with_translations w [])) as Hrun.
    destruct (load_all _ _ _) as [t|e'].
    + rewrite Hl in Hrun. inversion Hrun; subst wl.
      pose proof (growing_addTranslationsFromExcel wb overwrite
                    (with_translations (with_translations w []) t)) as (Hd & _).
      rewrite He in Hd. cbn in *. exact Hd.
    + destruct Hrun as (w' & Hrun & _). congruence.
Qed.

(** C4, as the code has it.  An exception in [TranslationData.addTranslation]
    is reported with its language, section and path and raised again; an
    add that returns has put the path in the store.  In the default
    strategy the exception leaves the row, [addTranslationsFromExcel]
    reports it and raises it again, and so does [generate_libelles], with
    no file written.  In the locale-override strategy
    [__addTranslationsFromLocales] never lets an exception out: when a
    column of the label row raises after the columns before it returned,
    the handler prints the exception and returns, in the world that the
    failing column left; the columns after it are not processed, and the
    run goes on. *)
Theorem add_failure_propagation :
  (forall lang section path value overwrite keepMarkdown w w' e,
      TranslationData_addTranslation lang section path value overwrite keepMarkdown w
      = (w', Raise e) ->
      stdout w' = (stdout w ++ [LogAddTranslation lang section path e])%list)
  /\ (forall lang section path value overwrite keepMarkdown w w',
         TranslationData_addTranslation lang section path value overwrite keepMarkdown w
         = (w', Ok tt) ->
         stdout w' = stdout w /\ covered (translations w') lang section path)
  /\ (forall overwrite locales_dictionary row question_name section path fr en w w' e,
         index row 0 = Ok question_name -> index row 3 = Ok section ->
         index row 5 = Ok path -> index row 6 = Ok fr -> index row 7 = Ok en ->
         dict_get question_name locales_dictionary = None ->
         fr <> PNone ->
         TranslationData_addTranslation "fr" section path fr overwrite false w = (w', Raise e) ->
         widget_row overwrite locales_dictionary row w = (w', Raise e))
  /\ (forall overwrite locales_dictionary row question_name section path fr en w w1 w' e,
         index row 0 = Ok question_name -> index row 3 = Ok section ->
         index row 5 = Ok path -> index row 6 = Ok fr -> index row 7 = Ok en ->
         dict_get question_name locales_dictionary = None ->
         (if eq_dec fr PNone then ret tt
          else TranslationData_addTranslation "fr" section path fr overwrite false) w
         = (w1, Ok tt) ->
         en <> PNone ->
         TranslationData_addTranslation "en" section path en overwrite false w1 = (w', Raise e) ->
         widget_row overwrite locales_dictionary row w = (w', Raise e))
  /\ (forall wb overwrite sheet before row after locales_dictionary w w0 w1 w2 e,
         Widgets wb = Some sheet ->
         skipn 1 sheet = (before ++ row :: after)%list ->
         __getTranslationsFromLocaleSheet wb w = (w0, Ok locales_dictionary) ->
         for_each before (widget_row overwrite locales_dictionary) w0 = (w1, Ok tt) ->
         widget_row overwrite locales_dictionary row w1 = (w2, Raise e) ->
         FillLocalesTranslations_addTranslationsFromExcel wb overwrite w
         = (log w2 (LogExcel e), Raise e))
  /\ (forall wb overwrite w wl we e,
         FillLocalesTranslations_loadCurrentTranslations (with_translations w []) = (wl, Ok tt) ->
         FillLocalesTranslations_addTranslationsFromExcel wb overwrite wl = (we, Raise e) ->
         generate_libelles wb overwrite w = (log we (LogError e), Raise e)
         /\ disk (log we (LogError e)) = disk w)
  /\ (forall overwrite section question_name row w,
         snd (__addTranslationsFromLocales overwrite section question_name row w) = Ok tt)
  /\ (forall overwrite section question_name row before key after w w1 w2 e,
         dict_keys row = (before ++ key :: after)%list ->
         let keepMarkdown :=
           match dict_get (PStr "md") row with
           | Some md => if eq_dec md (PStr "1") then true else false
           | None => false
           end in
         for_each before (locale_column overwrite section question_name row keepMarkdown) w
         = (w1, Ok tt) ->
         locale_column overwrite section question_name row keepMarkdown key w1
         = (w2, Raise e) ->
         __addTranslationsFromLocales overwrite section question_name row w
         = (log w2 (LogLocales e), Ok tt)).
Proof.
  split; [intros * Hr; now apply addTranslation_raise in Hr|].
  split; [intros * Hr; now apply addTranslation_ok in Hr|].
  split.
  { intros * H0 H3 H5 H6 H7 Hd Hfr Hr.
    rewrite (widget_row_default _ _ _ _ _ _ _ _ H0 H3 H5 H6 H7 Hd).
    unfold bind. destruct (eq_dec fr PNone); [contradiction|]. now rewrite Hr. }
  split.
  { intros * H0 H3 H5 H6 H7 Hd Hfr Hen Hr.
    rewrite (widget_row_default _ _ _ _ _ _ _ _ H0 H3 H5 H6 H7 Hd).
    unfold bind. rewrite Hfr. destruct (eq_dec en PNone); [contradiction|]. exact Hr. }
  split; [intros *; apply addTranslationsFromExcel_raise|].
  split; [intros *; apply generate_libelles_abort|].
  split; [intros *; apply addTranslationsFromLocales_returns|].
  intros * Hkeys keepMarkdown Hbefore Hkey.
  unfold __addTranslationsFromLocales, try_except. fold keepMarkdown.
  rewrite Hkeys, (for_each_raise before after key _ w w1 w2 e Hbefore Hkey).
  reflexivity.
Qed.

End Propagation.

Lemma add_failure_propagation_witness :
  let row := widget "q" "s" "p1" (PInt 5) PNone in
  let label_row := [(PStr "key", PStr "q"); (PStr "fr_a", PInt 5); (PStr "fr_c", PStr "hello")] in
  let w2 := fst (locale_column false (PStr "s") (PStr "q") label_row false (PStr "fr_a")
                               (boot empty_folder)) in
  (exists w',
      widget_row false [] row (boot empty_folder) = (w', Raise AttributeError)
      /\ stdout w' = [LogAddTranslation "fr" (PStr "s") (PStr "p1") AttributeError])
  /\ __addTranslationsFromLocales false (PStr "s") (PStr "q") label_row (boot empty_folder)
     = (log w2 (LogLocales AttributeError), Ok tt).
Proof.
  intros row label_row w2. split.
  - eexists. split.
    + apply (proj1 (proj2 (proj2 (@add_failure_propagation mini_yaml)))
                   false [] row (PStr "q") (PStr "s") (PStr "p1") (PInt 5) PNone
                   (boot empty_folder) _ AttributeError
                   eq_refl eq_refl eq_refl eq_refl eq_refl eq_refl ltac:(discriminate)).
      reflexivity.
    + reflexivity.
  - apply (proj2 (proj2 (proj2 (proj2 (proj2 (proj2 (proj2
             (@add_failure_propagation mini_yaml))))))))
      with (before := [PStr "key"]) (key := PStr "fr_a") (after := [PStr "fr_c"])
           (w1 := boot empty_folder); reflexivity.
Defined.

Example locale_add_failure_skips_the_rest :
  let label_row := [(PStr "key", PStr "q"); (PStr "fr_a", PInt 5); (PStr "fr_c", PStr "hello")] in
  let w := fst (__addTranslationsFromLocales false (PStr "s") (PStr "q") label_row
                                             (boot empty_folder)) in
  stdout w = [LogAddTranslation "fr" (PStr "s") (PStr "q_a") AttributeError;
              LogLocales AttributeError]
  /\ value_at (translations w) "fr" (PStr "s") (PStr "q_c") = None.
Proof. vm_compute. auto. Qed.

(** C4, as the specification words it, fails in the locale-override
    strategy: an add of a label row raises and is reported, and the run
    returns normally. *)
Lemma locale_add_failure_is_swallowed :
  ~ (forall (Y : Yaml) (wb : workbook) (overwrite : bool) (d : filesystem),
        0 < add_failures (fst (generate_libelles wb overwrite (boot d))) ->
        exists e, snd (generate_libelles wb overwrite (boot d)) = Raise e).
Proof.
  intros Hclaim.
  destruct (Hclaim mini_yaml wb_number_in_labels false empty_folder) as [e He].
  - vm_compute. lia.
  - vm_compute in He. discriminate He.
Qed.

Example locale_add_failure_run :
  let r := @generate_libelles mini_yaml wb_number_in_labels false (boot empty_folder) in
  snd r = Ok tt
  /\ stdout (fst r) = [LogAddTranslation "fr" (PStr "s") (PStr "q_a") AttributeError;
                       LogLocales AttributeError;
                       LogGenerate ("fr", "s")]
  /\ read_file ("fr", "s") (disk (fst r)) = Some (file_header ++ "q_a: x" ++ newline).
Proof. vm_compute. auto. Qed.

(** C5, as the code has it. A Labels sheet with at most one row: the
    helper raises "Not enough rows in the Labels sheet" inside its own
    [try], reports it and returns the empty dictionary; the extraction then
    handles every row of the Widgets sheet by the default strategy. *)
Theorem labels_sheet_without_data_rows
        (wb : workbook) (labels : sheet) (w : world)
        (Hlabels : Labels wb = Some labels)
        (Hrows : List.length labels <= 1) :
  let w0 := log w (LogLocaleSheet (Exception_ "Not enough rows in the Labels sheet")) in
  __getTranslationsFromLocaleSheet wb w = (w0, Ok [])
  /\ forall overwrite widgets,
      Widgets wb = Some widgets ->
      FillLocalesTranslations_addTranslationsFromExcel wb overwrite w
      = try_except (for_each (skipn 1 widgets) (widget_row overwrite []))
                   (fun e => print (LogExcel e) ;; raise e) w0.
Proof.
  intros w0.
  assert (Hhelper : __getTranslationsFromLocaleSheet wb w = (w0, Ok [])).
  { unfold __getTranslationsFromLocaleSheet, try_except, bind, lift, raise.
    rewrite Hlabels. cbn [sheet_exists].
    apply Nat.leb_le in Hrows. rewrite Hrows. reflexivity. }
  split; [exact Hhelper|].
  intros overwrite widgets Hw.
  unfold FillLocalesTranslations_addTranslationsFromExcel, try_except.
  rewrite Hw. unfold bind at 1 3. now rewrite Hhelper.
Qed.

Lemma labels_sheet_without_data_rows_witness :
  exists w',
    @generate_libelles mini_yaml wb_labels_header_only false (boot empty_folder) = (w', Ok tt)
    /\ __getTranslationsFromLocaleSheet wb_labels_header_only (boot empty_folder)
       = (log (boot empty_folder)
              (LogLocaleSheet (Exception_ "Not enough rows in the Labels sheet")), Ok []).
Proof.
  eexists. split; [vm_compute; reflexivity|].
  exact (proj1 (labels_sheet_without_data_rows wb_labels_header_only
                  [[PStr "key"; PStr "fr_label"]] (boot empty_folder) eq_refl
                  ltac:(cbn; lia))).
Defined.

(** C5, as the specification words it, fails: with a Labels sheet that has
    its header row only, the run returns normally. *)
Lemma labels_header_only_does_not_abort :
  ~ (forall (Y : Yaml) (wb : workbook) (labels : sheet) (overwrite : bool) (d : filesystem),
        Labels wb = Some labels -> List.length labels <= 1 ->
        exists e, snd (generate_libelles wb overwrite (boot d)) = Raise e).
Proof.
  intros Hclaim.
  destruct (Hclaim mini_yaml wb_labels_header_only [[PStr "key"; PStr "fr_label"]]
                   false empty_folder eq_refl ltac:(cbn; lia)) as [e He].
  vm_compute in He. discriminate He.
Qed.

Example labels_header_only_run :
  let r := @generate_libelles mini_yaml wb_labels_header_only false (boot empty_folder) in
  snd r = Ok tt
  /\ stdout (fst r) = [LogLocaleSheet (Exception_ "Not enough rows in the Labels sheet");
                       LogGenerate ("fr", "s"); LogGenerate ("en", "s")]
  /\ read_file ("fr", "s") (disk (fst r)) = Some (file_header ++ "p1: Bonjour" ++ newline)
  /\ read_file ("en", "s") (disk (fst r)) = Some (file_header ++ "p1: Hello" ++ newline).
Proof. vm_compute. auto. Qed.

(** C8: what the code does with the columns of a label row.  The columns
    [namespace], [key] and [md] and the cells that are empty or [None] are
    skipped, a column whose language part has two characters is stored
    under [question_name_suffix] (or [question_name]), a longer language
    part is skipped; but a language part of one character, or none, is
    stored as well, against the comment in the code. *)
Theorem short_language_part_is_processed :
  let row := [(PStr "key", PStr "Q1"); (PStr "namespace", PStr "n"); (PStr "md", PStr "0");
              (PStr "fr_label", PStr "Nom"); (PStr "en", PStr "Name");
              (PStr "fr_help", PStr EmptyString); (PStr "en_help", PNone);
              (PStr "comment", PStr "skipped");
              (PStr "x_label", PStr "one"); (PStr "_label", PStr "none")] in
  __addTranslationsFromLocales false (PStr "home") (PStr "Q1") row (boot [])
  = ({| translations :=
          [("fr", [(PStr "home", {| modified := true;
                                    data := [(PStr "Q1_label", Plain "Nom")];
                                    file := ("fr", "home") |})]);
           ("en", [(PStr "home", {| modified := true;
                                    data := [(PStr "Q1", Plain "Name")];
                                    file := ("en", "home") |})]);
           ("x", [(PStr "home", {| modified := true;
                                   data := [(PStr "Q1_label", Plain "one")];
                                   file := ("x", "home") |})]);
           (EmptyString, [(PStr "home", {| modified := true;
                                  data := [(PStr "Q1_label", Plain "none")];
                                  file := (EmptyString, "home") |})])];
        stdout := [];
        disk := [] |}, Ok tt).
Proof. vm_compute. reflexivity. Qed.

(** ** The second run replays the first *)

Lemma growing_ret {A} (a : A) : growing (ret a).
Proof. exact (respects_ret grows grows_refl a). Qed.

Lemma growing_raise {A} (e : exn) : growing (@raise A e).
Proof. exact (respects_raise grows grows_refl e). Qed.

Lemma growing_lift {A} (r : result A) : growing (lift r).
Proof. exact (respects_lift grows grows_refl r). Qed.

Lemma growing_print (l : logline) : growing (print l).
Proof. exact (respects_print grows grows_log l). Qed.

Lemma growing_locale_column overwrite section question_name row keepMarkdown key :
  growing (locale_column overwrite section question_name row keepMarkdown key).
Proof.
  exact (respects_locale_column grows grows_refl grows_trans growing_addTranslation
           overwrite section question_name row keepMarkdown key).
Qed.

Lemma growing_addTranslationsFromLocales overwrite section question_name row :
  growing (__addTranslationsFromLocales overwrite section question_name row).
Proof.
  exact (respects_addTranslationsFromLocales grows grows_refl grows_trans grows_log
           growing_addTranslation overwrite section question_name row).
Qed.

Lemma growing_getTranslationsFromLocaleSheet wb :
  growing (__getTranslationsFromLocaleSheet wb).
Proof.
  exact (respects_getTranslationsFromLocaleSheet grows grows_refl grows_trans grows_log wb).
Qed.

Lemma growing_widget_row overwrite locales_dictionary row :
  growing (widget_row overwrite locales_dictionary row).
Proof.
  exact (respects_widget_row grows grows_refl grows_trans grows_log growing_addTranslation
           overwrite locales_dictionary row).
Qed.

Lemma replays_ret {A} (a : A) : replays (ret a) (ret a).
Proof.
  intros w w' r v Hm _ _. unfold ret in *. inversion Hm; subst. eauto.
Qed.

Lemma replays_raise {A} (e : exn) : replays (@raise A e) (raise e).
Proof.
  intros w w' r v Hm _ _. unfold raise in *. inversion Hm; subst. eauto.
Qed.

Lemma replays_lift {A} (x : result A) : replays (lift x) (lift x).
Proof.
  intros w w' r v Hm _ _. unfold lift in *. inversion Hm; subst. eauto.
Qed.

Lemma replays_print (l : logline) : replays (print l) (print l).
Proof.
  intros w w' r v Hm _ _. unfold print in *. inversion Hm; subst. eauto.
Qed.

Lemma replays_bind {A B} (m1 m2 : M A) (k1 k2 : A -> M B) :
  growing m1 -> (forall a, growing (k1 a)) ->
  replays m1 m2 -> (forall a, replays (k1 a) (k2 a)) ->
  replays (bind m1 k1) (bind m2 k2).
Proof.
  intros Hg1 Hgk Hm Hk w w' r v Hrun Hquiet Hcov. unfold bind in *.
  pose proof (Hg1 w) as Hgw.
  destruct (m1 w) as [w1 [a|e]] eqn:Hm1; cbn [fst] in Hgw.
  - pose proof (Hgk a w1) as Hgw1. rewrite Hrun in Hgw1. cbn [fst] in Hgw1.
    destruct Hgw as (_ & Hf1 & Hc1). destruct Hgw1 as (_ & Hf2 & Hc2).
    destruct (Hm w w1 (Ok a) v Hm1 ltac:(lia) ltac:(auto)) as (v1 & Hv1 & Ht1 & Hd1).
    rewrite Hv1.
    destruct (Hk a w1 w' r v1 Hrun ltac:(lia) ltac:(rewrite Ht1; auto))
      as (v' & Hv' & Ht' & Hd').
    exists v'. split; [exact Hv'|]. split; congruence.
  - inversion Hrun; subst.
    destruct (Hm w w' (Raise e) v Hm1 Hquiet Hcov) as (v1 & Hv1 & Ht1 & Hd1).
    rewrite Hv1. eauto.
Qed.

Lemma replays_try_except {A} (m1 m2 : M A) (h1 h2 : exn -> M A) :
  growing m1 -> (forall e, growing (h1 e)) ->
  replays m1 m2 -> (forall e, replays (h1 e) (h2 e)) ->
  replays (try_except m1 h1) (try_except m2 h2).
Proof.
  intros Hg1 Hgh Hm Hh w w' r v Hrun Hquiet Hcov. unfold try_except in *.
  pose proof (Hg1 w) as Hgw.
  destruct (m1 w) as [w1 [a|e]] eqn:Hm1; cbn [fst] in Hgw.
  - inversion Hrun; subst.
    destruct (Hm w w' (Ok a) v Hm1 Hquiet Hcov) as (v1 & Hv1 & Ht1 & Hd1).
    rewrite Hv1. eauto.
  - pose proof (Hgh e w1) as Hgw1. rewrite Hrun in Hgw1. cbn [fst] in Hgw1.
    destruct Hgw as (_ & Hf1 & Hc1). destruct Hgw1 as (_ & Hf2 & Hc2).
    destruct (Hm w w1 (Raise e) v Hm1 ltac:(lia) ltac:(auto)) as (v1 & Hv1 & Ht1 & Hd1).
    rewrite Hv1.
    destruct (Hh e w1 w' r v1 Hrun ltac:(lia) ltac:(rewrite Ht1; auto))
      as (v' & Hv' & Ht' & Hd').
    exists v'. split; [exact Hv'|]. split; congruence.
Qed.

Lemma growing_for_each {A} (xs : list A) (body : A -> M unit) :
  (forall x, growing (body x)) -> growing (for_each xs body).
Proof. exact (respects_for_each grows grows_refl grows_trans xs body). Qed.

Lemma replays_for_each {A} (xs : list A) (body1 body2 : A -> M unit) :
  (forall x, growing (body1 x)) ->
  (forall x, replays (body1 x) (body2 x)) ->
  replays (for_each xs body1) (for_each xs body2).
Proof.
  intros Hg Hb. induction xs as [|x xs IH]; cbn [for_each].
  - apply replays_ret.
  - apply replays_bind; auto. intros _. now apply growing_for_each.
Qed.

(** An add that the first run made without a report is, in the second run
    with [overwrite] false, held back by the gate. *)
Lemma replays_addTranslation lang section path value overwrite keepMarkdown :
  replays (TranslationData_addTranslation lang section path value overwrite keepMarkdown)
          (TranslationData_addTranslation lang section path value false keepMarkdown).
Proof.
  intros w w' r v Hrun Hquiet Hcov.
  destruct r as [[]|e].
  - apply addTranslation_ok in Hrun as [_ Hc].
    exists v. split; [|auto]. apply addTranslation_covered. auto.
  - apply addTranslation_raise in Hrun as [_ Hf]. lia.
Qed.

Ltac grow :=
  repeat first
    [ apply growing_ret | apply growing_raise | apply growing_lift | apply growing_print
    | apply growing_addTranslation | apply growing_locale_column
    | apply growing_addTranslationsFromLocales | apply growing_getTranslationsFromLocaleSheet
    | apply growing_widget_row
    | apply (respects_bind grows grows_trans); [|intro]
    | apply (respects_try_except grows grows_trans); [|intro]
    | apply growing_for_each; intro
    | match goal with
      | |- growing (if ?c then _ else _) => destruct c
      | |- growing (match ?c with _ => _ end) => destruct c
      | |- respects grows (if ?c then _ else _) => destruct c
      | |- respects grows (match ?c with _ => _ end) => destruct c
      end ].

Ltac replay :=
  repeat first
    [ apply replays_ret | apply replays_raise | apply replays_lift | apply replays_print
    | apply replays_addTranslation
    | apply replays_bind; [grow | intro; grow | | intro]
    | apply replays_try_except; [grow | intro; grow | | intro]
    | apply replays_for_each; [intro; grow | intro]
    | match goal with
      | |- replays (if ?c then _ else _) _ => destruct c
      | |- replays (match ?c with _ => _ end) _ => destruct c
      end ].

Lemma replays_locale_column overwrite section question_name row keepMarkdown key :
  replays (locale_column overwrite section question_name row keepMarkdown key)
          (locale_column false section question_name row keepMarkdown key).
Proof. unfold locale_column. replay. Qed.

Lemma replays_addTranslationsFromLocales overwrite section question_name row :
  replays (__addTranslationsFromLocales overwrite section question_name row)
          (__addTranslationsFromLocales false section question_name row).
Proof.
  unfold __addTranslationsFromLocales. replay. apply replays_locale_column.
Qed.

Lemma replays_getTranslationsFromLocaleSheet wb :
  replays (__getTranslationsFromLocaleSheet wb) (__getTranslationsFromLocaleSheet wb).
Proof. unfold __getTranslationsFromLocaleSheet. replay. Qed.

Lemma replays_widget_row overwrite locales_dictionary row :
  replays (widget_row overwrite locales_dictionary row)
          (widget_row false locales_dictionary row).
Proof.
  unfold widget_row. replay. apply replays_locale_column.
Qed.

Lemma replays_addTranslationsFromExcel wb overwrite :
  replays (FillLocalesTranslations_addTranslationsFromExcel wb overwrite)
          (FillLocalesTranslations_addTranslationsFromExcel wb false).
Proof.
  unfold FillLocalesTranslations_addTranslationsFromExcel.
  apply replays_try_except; [grow | intro; grow | | intro; replay].
  destruct (Widgets wb); [|apply replays_raise].
  apply replays_bind;
    [grow | intro; grow | apply replays_getTranslationsFromLocaleSheet | intro].
  apply replays_for_each; intro; [apply growing_widget_row | apply replays_widget_row].
Qed.

(** ** Dictionaries without repeated keys *)

Section DictNoDup.
Context {K V : Type} `{EqDec K}.

Lemma dict_get_In (k : K) (v : V) (d : list (K * V)) :
  dict_get k d = Some v -> In (k, v) d.
Proof.
  induction d as [|[k' v'] d IH]; cbn; [discriminate|].
  destruct (eq_dec k k') as [->|Hne]; intros Heq.
  - inversion Heq; subst. now left.
  - right. auto.
Qed.

Lemma In_dict_get (k : K) (v : V) (d : list (K * V)) :
  NoDup (dict_keys d) -> In (k, v) d -> dict_get k d = Some v.
Proof.
  induction d as [|[k' v'] d IH]; cbn; [tauto|].
  intros Hnd [Heq|Hin].
  - inversion Heq; subst. destruct (eq_dec k k); congruence.
  - inversion Hnd as [|? ? Hnotin Hnd']; subst.
    destruct (eq_dec k k') as [->|Hne]; [|auto].
    exfalso. apply Hnotin. unfold dict_keys. change k' with (fst (k', v)).
    now apply in_map.
Qed.

Lemma NoDup_dict_set (k : K) (v : V) (d : list (K * V)) :
  NoDup (dict_keys d) -> NoDup (dict_keys (dict_set k v d)).
Proof.
  intros Hnd. rewrite dict_keys_set. destruct (dict_mem k d) eqn:Hm; [assumption|].
  apply NoDup_app; [assumption | repeat constructor; auto |].
  intros x Hx [<-|[]]. apply dict_mem_keys in Hx. congruence.
Qed.

End DictNoDup.

(** ** The registry and the files *)

Section RegistryFacts.
Context `{Yaml}.

Lemma registry_ok_nil (d : filesystem) : registry_ok d [].
Proof. split; [constructor | discriminate]. Qed.

Lemma registry_ok_ensure_lang d lang t :
  registry_ok d t -> registry_ok d (ensure_lang lang t).
Proof.
  intros [Hnd Hok]. unfold ensure_lang. destruct (dict_mem lang t) eqn:Hm; [now split|].
  split; [now apply NoDup_dict_set|].
  intros l sections Hl. destruct (eq_dec l lang) as [->|Hne].
  - rewrite dict_get_set_same in Hl. inversion Hl; subst.
    split; [constructor | discriminate].
  - rewrite dict_get_set_other in Hl by assumption. auto.
Qed.

Lemma registry_ok_update d lang section store sections t :
  registry_ok d t ->
  dict_get lang t = Some sections ->
  store_ok d lang section store ->
  registry_ok d (dict_set lang (dict_set section store sections) t).
Proof.
  intros [Hnd Hok] Hlang Hstore. split; [now apply NoDup_dict_set|].
  intros l secs Hl. destruct (eq_dec l lang) as [->|Hne].
  - rewrite dict_get_set_same in Hl. inversion Hl; subst.
    destruct (Hok lang sections Hlang) as [Hnd' Hok'].
    split; [now apply NoDup_dict_set|].
    intros sec st Hs. destruct (eq_dec sec section) as [->|Hns].
    + rewrite dict_get_set_same in Hs. now inversion Hs; subst.
    + rewrite dict_get_set_other in Hs by assumption. auto.
  - rewrite dict_get_set_other in Hl by assumption. auto.
Qed.

Lemma registry_ok_register d lang section store t :
  registry_ok d t -> store_ok d lang section store ->
  registry_ok d (register lang section store t).
Proof.
  intros Hok Hstore. unfold register.
  apply registry_ok_update; [now apply registry_ok_ensure_lang | apply ensure_lang_get | assumption].
Qed.

Lemma load_file_ok d f store :
  load_file d f = Ok store -> modified store = false /\ file store = f.
Proof.
  unfold load_file. destruct (read_file f d); [|discriminate].
  destruct (yaml_load s); [|discriminate].
  destruct (load_paths a []); [|discriminate].
  intros Heq; inversion Heq; subst. auto.
Qed.

Lemma load_file_store_ok d f store :
  load_file d f = Ok store -> store_ok d (fst f) (PStr (snd f)) store.
Proof.
  intros Hl. destruct (load_file_ok d f store Hl) as [Hm Hf].
  exists (snd f). split; [reflexivity|]. destruct f as [l s]; cbn in *.
  split; [assumption|]. auto.
Qed.

Lemma load_all_registry_ok d files :
  forall t t', registry_ok d t -> load_all d files t = Ok t' -> registry_ok d t'.
Proof.
  induction files as [|f files IH]; intros t t' Hok; cbn [load_all].
  - intros Heq; now inversion Heq; subst.
  - destruct (load_file d f) as [store|e] eqn:Hl; [|discriminate].
    apply IH. apply registry_ok_register; [assumption | now apply load_file_store_ok].
Qed.

Lemma addTranslation_store_ok d lang section self self' path value overwrite keepMarkdown :
  store_ok d lang section self ->
  TranslationLangNs_addTranslation self path value overwrite keepMarkdown = Ok self' ->
  store_ok d lang section self'.
Proof.
  intros (s & Hs & Hf & Hm). unfold TranslationLangNs_addTranslation.
  destruct (negb overwrite && dict_mem path (data self)).
  - intros Heq; inversion Heq; subst. exists s; auto.
  - destruct value; try discriminate. intros Heq; inversion Heq; subst.
    exists s. cbn. split; [reflexivity|]. split; [assumption | discriminate].
Qed.

Lemma addTranslation_registry_ok d lang section path value overwrite keepMarkdown w :
  registry_ok d (translations w) ->
  registry_ok d (translations
                   (fst (TranslationData_addTranslation lang section path value
                           overwrite keepMarkdown w))).
Proof.
  intros Hok. rewrite addTranslation_run. cbv zeta.
  pose proof (registry_ok_ensure_lang d lang _ Hok) as Hok1.
  pose proof (ensure_lang_get lang (translations w)) as Hget.
  set (t1 := ensure_lang lang (translations w)) in *.
  set (sections := match dict_get lang (translations w) with Some s => s | None => [] end) in *.
  destruct (dict_get section sections) as [store|] eqn:Hs.
  - destruct (TranslationLangNs_addTranslation store path value overwrite keepMarkdown)
      as [store'|e] eqn:Ha; cbn; [|assumption].
    apply registry_ok_update; auto.
    eapply addTranslation_store_ok; [|eassumption].
    destruct Hok1 as [_ Hok1]. now apply (Hok1 lang sections Hget).
  - destruct section as [|s|z|dt]; cbn; try assumption.
    assert (Hinit : store_ok d lang (PStr s) (TranslationLangNs_init (lang, s))).
    { exists s. cbn. auto. }
    pose proof (registry_ok_update d lang (PStr s) _ sections t1 Hok1 Hget Hinit) as Hok2.
    destruct (TranslationLangNs_addTranslation _ path value overwrite keepMarkdown)
      as [store'|e] eqn:Ha; cbn; [|assumption].
    apply registry_ok_update; [assumption | apply dict_get_set_same |].
    eapply addTranslation_store_ok; eassumption.
Qed.

Lemma addTranslationsFromExcel_registry_ok d wb overwrite w :
  registry_ok d (translations w) ->
  registry_ok d (translations (fst (FillLocalesTranslations_addTranslationsFromExcel wb overwrite w))).
Proof.
  apply (respects_addTranslationsFromExcel
           (fun w w' => registry_ok d (translations w) -> registry_ok d (translations w'))).
  - auto.
  - auto.
  - auto.
  - intros lang section path value o k w0. apply addTranslation_registry_ok.
Qed.

(** The stores of a registry in order are the stores that lookups find. *)
Lemma all_stores_lookup d t store :
  registry_ok d t ->
  In store (all_stores t) ->
  exists lang sections section,
    dict_get lang t = Some sections /\ dict_get section sections = Some store.
Proof.
  intros [Hnd Hok] Hin. unfold all_stores in Hin.
  apply in_flat_map in Hin as ([lang sections] & Hl & Hs). cbn [snd] in Hs.
  apply in_map_iff in Hs as ([section st] & Heq & Hs). cbn [snd] in Heq. subst st.
  apply In_dict_get in Hl; [|assumption].
  exists lang, sections, section. split; [assumption|].
  apply In_dict_get; [|assumption]. now apply (Hok lang sections Hl).
Qed.

Lemma lookup_all_stores t lang sections section store :
  dict_get lang t = Some sections -> dict_get section sections = Some store ->
  In store (all_stores t).
Proof.
  intros Hl Hs. unfold all_stores. apply in_flat_map.
  exists (lang, sections). split; [now apply dict_get_In|]. cbn [snd].
  apply in_map_iff. exists (section, store). split; [reflexivity | now apply dict_get_In].
Qed.

Lemma all_stores_file_unique d t st st' :
  registry_ok d t ->
  In st (all_stores t) -> In st' (all_stores t) -> file st' = file st -> st' = st.
Proof.
  intros Hok Hin Hin'.
  destruct (all_stores_lookup d t st Hok Hin) as (l & secs & sec & Hl & Hs).
  destruct (all_stores_lookup d t st' Hok Hin') as (l' & secs' & sec' & Hl' & Hs').
  destruct Hok as [_ Hok].
  destruct (proj2 (Hok l secs Hl) sec st Hs) as (s & -> & Hf & _).
  destruct (proj2 (Hok l' secs' Hl') sec' st' Hs') as (s' & -> & Hf' & _).
  intros Heq. rewrite Hf, Hf' in Heq. inversion Heq; subst. congruence.
Qed.

End RegistryFacts.

(** ** Saving *)

Lemma fpath_eq_dec (f g : fpath) : {f = g} + {f <> g}.
Proof. decide equality; apply string_dec. Qed.

Lemma folder_ok_write (f : fpath) (text : string) (files : list (string * string))
      (d : filesystem) :
  folder_ok d -> dict_get (fst f) d = Some files ->
  folder_ok (dict_set (fst f) (dict_set (snd f) text files) d).
Proof.
  intros [Hnd Hok] Hd. split; [now apply NoDup_dict_set|].
  intros dir fs Hg. destruct (eq_dec dir (fst f)) as [->|Hne].
  - rewrite dict_get_set_same in Hg. inversion Hg; subst.
    apply NoDup_dict_set. eauto.
  - rewrite dict_get_set_other in Hg by assumption. eauto.
Qed.

Section SavePhase.
Context `{Yaml}.

Lemma save_ok (self : TranslationLangNs) (w w' : world) :
  TranslationLangNs_save self w = (w', Ok tt) ->
  translations w' = translations w
  /\ add_failures w' = add_failures w
  /\ (folder_ok (disk w) -> folder_ok (disk w'))
  /\ (forall g, (modified self = true -> file self <> g) ->
                read_file g (disk w') = read_file g (disk w))
  /\ (modified self = true -> read_file (file self) (disk w') = Some (saved_text self)).
Proof.
  destruct (modified self) eqn:Hm.
  - destruct (dict_get (fst (file self)) (disk w)) as [files|] eqn:Hd.
    + rewrite (save_dirty self w files Hm Hd). intros Heq; inversion Heq; subst.
      cbn [translations disk]. split; [reflexivity|].
      split; [unfold add_failures; cbn [stdout]; rewrite filter_app, length_app; cbn; lia|].
      split; [intros Hok; now apply folder_ok_write|].
      split.
      * intros g Hg. apply read_file_write_other; [assumption|].
        intros ->. now apply Hg.
      * intros _. apply read_file_write_same.
    + rewrite (save_no_directory self w Hm Hd). discriminate.
  - rewrite (save_clean self w Hm). intros Heq; inversion Heq; subst.
    split; [reflexivity|]. split; [reflexivity|]. split; [auto|].
    split; [reflexivity | discriminate].
Qed.

(** After all the stores are saved, a file either has the text of a
    modified store of that file, or no modified store has that file and
    it is as before. *)
Lemma save_all_run (stores : list TranslationLangNs) :
  forall w w',
    for_each stores TranslationLangNs_save w = (w', Ok tt) ->
    translations w' = translations w
    /\ add_failures w' = add_failures w
    /\ (folder_ok (disk w) -> folder_ok (disk w'))
    /\ forall f,
        (exists store, In store stores /\ modified store = true /\ file store = f
                       /\ read_file f (disk w') = Some (saved_text store))
        \/ ((forall store, In store stores -> modified store = true -> file store <> f)
            /\ read_file f (disk w') = read_file f (disk w)).
Proof.
  induction stores as [|st stores IH]; intros w w'; cbn [for_each].
  - unfold ret. intros Heq; inversion Heq; subst.
    split; [reflexivity|]. split; [reflexivity|]. split; [auto|].
    intros f. right. split; [intros ? []|reflexivity].
  - unfold bind. destruct (TranslationLangNs_save st w) as [w0 [[]|e]] eqn:Hs; [|discriminate].
    intros Hrest. apply save_ok in Hs as (Ht0 & Hf0 & Hok0 & Hother & Hself).
    destruct (IH w0 w' Hrest) as (Ht & Hf & Hok & Hfiles).
    split; [congruence|]. split; [congruence|]. split; [auto|].
    intros f. destruct (Hfiles f) as [(store & Hin & Hm & Hfile & Hread)|[Hnone Hread]].
    + left. exists store. split; [now right | auto].
    + destruct (modified st) eqn:Hm; [destruct (fpath_eq_dec (file st) f) as [Heq|Hne]|].
      * left. exists st. split; [now left|]. split; [assumption|]. split; [assumption|].
        rewrite Hread. subst f. auto.
      * right. split.
        -- intros store [<-|Hin]; auto.
        -- rewrite Hread. apply Hother. auto.
      * right. split.
        -- intros store [<-|Hin]; [congruence | auto].
        -- rewrite Hread. apply Hother. discriminate.
Qed.

Lemma save_all_clean (stores : list TranslationLangNs) (w : world) :
  (forall store, In store stores -> modified store = false) ->
  for_each stores TranslationLangNs_save w = (w, Ok tt).
Proof.
  induction stores as [|st stores IH]; intros Hclean; cbn [for_each]; [reflexivity|].
  unfold bind. rewrite save_clean by (apply Hclean; now left).
  apply IH. intros store Hin. apply Hclean. now right.
Qed.

End SavePhase.

(** ** Loading what was saved *)

Lemma glob_listed (f : fpath) (d : filesystem) : In f (glob d) -> listed f = true.
Proof. unfold glob. intros Hin. now apply filter_In in Hin. Qed.

Lemma read_file_glob (f : fpath) (d : filesystem) (text : string) :
  listed f = true -> read_file f d = Some text -> In f (glob d).
Proof.
  intros Hlisted Hread. unfold glob. apply filter_In. split; [|assumption].
  unfold read_file in Hread. destruct f as [dir stem]. cbn [fst snd] in *.
  destruct (dict_get dir d) as [files|] eqn:Hd; [|discriminate].
  apply in_flat_map. exists (dir, files). split; [now apply dict_get_In|].
  cbn [fst snd]. apply in_map_iff. exists (stem, text).
  split; [reflexivity | now apply dict_get_In].
Qed.

Lemma glob_read_file (f : fpath) (d : filesystem) :
  folder_ok d -> In f (glob d) -> exists text, read_file f d = Some text.
Proof.
  intros [Hnd Hok] Hin. unfold glob in Hin. apply filter_In in Hin as [Hin _].
  apply in_flat_map in Hin as ([dir files] & Hd & Hf). cbn [fst snd] in Hf.
  apply in_map_iff in Hf as ([stem text] & <- & Hs). cbn [fst].
  apply In_dict_get in Hd; [|assumption].
  exists text. unfold read_file. cbn [fst snd]. rewrite Hd.
  apply In_dict_get; eauto.
Qed.

Section Reload.
Context `{Yaml}.

Lemma load_file_ext (d d' : filesystem) (f : fpath) :
  read_file f d' = read_file f d -> load_file d' f = load_file d f.
Proof. intros Heq. unfold load_file. now rewrite Heq. Qed.

Lemma load_file_saved (d : filesystem) (store : TranslationLangNs) :
  read_file (file store) d = Some (saved_text store) ->
  reloads store ->
  exists store',
    load_file d (file store) = Ok store'
    /\ forall path, dict_mem path (data store) = true -> dict_mem path (data store') = true.
Proof.
  intros Hread (td & data' & Hload & Hpaths & Hmem).
  unfold load_file. rewrite Hread, Hload, Hpaths. eexists. split; [reflexivity|]. exact Hmem.
Qed.

Lemma load_all_ok (d : filesystem) (files : list fpath) :
  (forall f, In f files -> exists store, load_file d f = Ok store) ->
  forall t, exists t', load_all d files t = Ok t'.
Proof.
  induction files as [|f files IH]; intros Hall t; cbn [load_all]; [eauto|].
  destruct (Hall f (or_introl eq_refl)) as [store ->].
  apply IH. intros g Hg. apply Hall. now right.
Qed.

Lemma load_all_each (d : filesystem) (files : list fpath) :
  forall t t', load_all d files t = Ok t' ->
               forall f, In f files -> exists store, load_file d f = Ok store.
Proof.
  induction files as [|f files IH]; intros t t' Hl g Hg; [destruct Hg|].
  cbn [load_all] in Hl. destruct (load_file d f) as [store|e] eqn:Hf; [|discriminate].
  destruct Hg as [<-|Hg]; [eauto|]. eapply IH; eassumption.
Qed.

Lemma registry_loaded_register d f store t :
  registry_loaded d t -> load_file d f = Ok store ->
  registry_loaded d (register (fst f) (PStr (snd f)) store t).
Proof.
  intros Hloaded Hf lang sections section st. unfold register.
  destruct (eq_dec lang (fst f)) as [->|Hne].
  - rewrite dict_get_set_same. intros Heq; inversion Heq; subst sections.
    destruct (eq_dec section (PStr (snd f))) as [->|Hns].
    + rewrite dict_get_set_same. intros Heq'; inversion Heq'; subst st.
      exists (snd f). split; [reflexivity|]. now destruct f.
    + rewrite dict_get_set_other by assumption.
      destruct (dict_get (fst f) t) as [secs|] eqn:Ht; [|discriminate].
      intros Hs. eapply Hloaded; eassumption.
  - rewrite dict_get_set_other, ensure_lang_other by assumption.
    apply Hloaded.
Qed.

Lemma load_all_registry_loaded (d : filesystem) (files : list fpath) :
  forall t t', registry_loaded d t -> load_all d files t = Ok t' -> registry_loaded d t'.
Proof.
  induction files as [|f files IH]; intros t t' Hloaded; cbn [load_all].
  - intros Heq; now inversion Heq; subst.
  - destruct (load_file d f) as [store|e] eqn:Hf; [|discriminate].
    apply IH. now apply registry_loaded_register.
Qed.

(** The registry has a store for the file. *)
Lemma has_store_register lang section store t l s :
  (exists sections, dict_get l t = Some sections /\ dict_mem s sections = true) ->
  exists sections, dict_get l (register lang section store t) = Some sections
                   /\ dict_mem s sections = true.
Proof.
  intros (sections & Hl & Hs). unfold register.
  destruct (eq_dec l lang) as [->|Hne].
  - rewrite dict_get_set_same, Hl. eexists. split; [reflexivity|].
    now apply dict_mem_set_mono.
  - rewrite dict_get_set_other, ensure_lang_other by assumption. eauto.
Qed.

Lemma load_all_has_store (d : filesystem) (files : list fpath) :
  forall t t',
    load_all d files t = Ok t' ->
    forall l s,
      In (l, s) files
      \/ (exists sections, dict_get l t = Some sections /\ dict_mem (PStr s) sections = true) ->
      exists sections, dict_get l t' = Some sections /\ dict_mem (PStr s) sections = true.
Proof.
  induction files as [|f files IH]; intros t t' Hl l s Hin; cbn [load_all] in Hl.
  - inversion Hl; subst. destruct Hin as [[]|Hin]; assumption.
  - destruct (load_file d f) as [store|e] eqn:Hf; [|discriminate].
    apply (IH _ _ Hl). destruct Hin as [[->|Hin]|Hin]; [right | now left | right].
    + cbn [fst snd]. unfold register. rewrite dict_get_set_same.
      eexists. split; [reflexivity | apply dict_mem_set_same].
    + now apply has_store_register.
Qed.

(** After loading the folder, the registry has, for every file, the store
    that the file loads as. *)
Lemma load_all_lookup (d : filesystem) (t' : list (string * list (pyval * TranslationLangNs)))
      (l s : string) (store : TranslationLangNs) :
  load_all d (glob d) [] = Ok t' ->
  In (l, s) (glob d) ->
  load_file d (l, s) = Ok store ->
  exists sections, dict_get l t' = Some sections /\ dict_get (PStr s) sections = Some store.
Proof.
  intros Hl Hin Hf.
  destruct (load_all_has_store d (glob d) [] t' Hl l s (or_introl Hin)) as (sections & Hd & Hm).
  exists sections. split; [assumption|].
  unfold dict_mem in Hm. destruct (dict_get (PStr s) sections) as [st|] eqn:Hs; [|discriminate].
  assert (Hloaded : registry_loaded d t').
  { eapply load_all_registry_loaded; [|eassumption]. intros ? ? ? ? Hnil. discriminate. }
  destruct (Hloaded l sections (PStr s) st Hd Hs) as (s' & Heq & Hst).
  inversion Heq; subst s'. congruence.
Qed.

Lemma generate_libelles_phases wb overwrite w w1 :
  generate_libelles wb overwrite w = (w1, Ok tt) ->
  exists t wc,
    load_all (disk w) (glob (disk w)) [] = Ok t
    /\ FillLocalesTranslations_addTranslationsFromExcel wb overwrite (with_translations w t)
       = (wc, Ok tt)
    /\ for_each (all_stores (translations wc)) TranslationLangNs_save wc = (w1, Ok tt).
Proof.
  unfold generate_libelles, try_except, bind, put_translations.
  change {| translations := []; stdout := stdout w; disk := disk w |}
    with (with_translations w []).
  pose proof (loadCurrentTranslations_run (with_translations w [])) as Hload.
  cbn [disk translations with_translations] in Hload.
  destruct (load_all (disk w) (glob (disk w)) []) as [t|e].
  - rewrite Hload.
    change (with_translations (with_translations w []) t) with (with_translations w t).
    destruct (FillLocalesTranslations_addTranslationsFromExcel wb overwrite _)
      as [wc [[]|e]] eqn:He.
    + intros Hsave. exists t, wc. split; [reflexivity|]. split; [exact He|].
      unfold FillLocalesTranslations_saveAllTranslations, TranslationData_save, bind,
        get_translations, print, raise in Hsave.
      destruct (for_each _ _ wc) as [w' [[]|e]]; [exact Hsave | discriminate].
    + discriminate.
  - destruct Hload as (w' & -> & _). discriminate.
Qed.

Lemma generate_libelles_compose wb overwrite w t wc w1 :
  load_all (disk w) (glob (disk w)) [] = Ok t ->
  FillLocalesTranslations_addTranslationsFromExcel wb overwrite (with_translations w t)
  = (wc, Ok tt) ->
  for_each (all_stores (translations wc)) TranslationLangNs_save wc = (w1, Ok tt) ->
  generate_libelles wb overwrite w = (w1, Ok tt).
Proof.
  intros Hl He Hs.
  unfold generate_libelles, try_except, bind, put_translations.
  change {| translations := []; stdout := stdout w; disk := disk w |}
    with (with_translations w []).
  pose proof (loadCurrentTranslations_run (with_translations w [])) as Hload.
  cbn [disk translations with_translations] in Hload. rewrite Hl in Hload.
  rewrite Hload.
  change (with_translations (with_translations w []) t) with (with_translations w t).
  rewrite He.
  unfold FillLocalesTranslations_saveAllTranslations, TranslationData_save, bind,
    get_translations.
  now rewrite Hs.
Qed.

End Reload.

(** ** Running twice *)

Section Idempotence.
Context `{Yaml}.

(** The paths that the first run ends with are in the registry that the
    second run loads. *)
Lemma second_load_covers (d0 d1 : filesystem)
      (tc t2 : list (string * list (pyval * TranslationLangNs))) :
  registry_ok d0 tc ->
  (forall f,
      (exists store, In store (all_stores tc) /\ modified store = true /\ file store = f
                     /\ read_file f d1 = Some (saved_text store))
      \/ ((forall store, In store (all_stores tc) -> modified store = true -> file store <> f)
          /\ read_file f d1 = read_file f d0)) ->
  (forall store, In store (all_stores tc) -> modified store = true -> reloads store) ->
  (forall store, In store (all_stores tc) -> listed (file store) = true) ->
  load_all d1 (glob d1) [] = Ok t2 ->
  forall l s p, covered tc l s p -> covered t2 l s p.
Proof.
  intros Hok Hfiles Hreload Hlisted Hload2 l sec p (sections & store & Hl & Hs & Hp).
  pose proof (lookup_all_stores tc l sections sec store Hl Hs) as Hin.
  destruct (proj2 (proj2 Hok l sections Hl) sec store Hs) as (s & -> & Hfile & Hclean).
  assert (Hgoal : exists store',
             load_file d1 (l, s) = Ok store' /\ dict_mem p (data store') = true).
  { destruct (Hfiles (l, s)) as [(st & Hin' & Hm & Hf & Hread)|[Hnone Hread]].
    - assert (st = store) by (eapply all_stores_file_unique; eauto; congruence). subst st.
      rewrite <- Hfile in Hread.
      destruct (load_file_saved d1 store Hread (Hreload store Hin Hm)) as (store' & Hl' & Hmem).
      exists store'. rewrite <- Hfile. auto.
    - destruct (modified store) eqn:Hm.
      + exfalso. now apply (Hnone store Hin Hm).
      + destruct (Hclean eq_refl) as [Hempty|Hloaded].
        * rewrite Hempty in Hp. discriminate.
        * exists store. split; [|assumption].
          rewrite (load_file_ext d0 d1 (l, s) Hread). exact Hloaded. }
  destruct Hgoal as (store' & Hl' & Hmem).
  assert (Hglob : In (l, s) (glob d1)).
  { unfold load_file in Hl'. destruct (read_file (l, s) d1) as [text|] eqn:Hr; [|discriminate].
    eapply read_file_glob; [|eassumption]. rewrite <- Hfile. now apply Hlisted. }
  destruct (load_all_lookup d1 t2 l s store' Hload2 Hglob Hl') as (sections2 & Hd2 & Hs2).
  exists sections2, store'. auto.
Qed.

(** C1, as the code has it. A first run that ends normally and reports
    no failed add, on a folder whose listing has no repeated name, whose
    stores all have a file that the [glob] of the load phase lists (one
    directory below the output folder, no hidden name: the language part
    and the section are plain names), and whose written files load again
    with at least the paths they were written with: a second run on the
    same workbook with [overwrite] false ends normally, every store has
    its dirty bit false, saving changes nothing (no file is written and
    none is reported), and the folder is as the first run left it. *)
Theorem second_run_writes_nothing
        (wb : workbook) (overwrite : bool) (d0 : filesystem) (w1 : world)
        (Hfolder : folder_ok d0)
        (Hrun : generate_libelles wb overwrite (boot d0) = (w1, Ok tt))
        (Hquiet : add_failures w1 = 0)
        (Hlisted : forall store,
            In store (all_stores (translations w1)) -> listed (file store) = true)
        (Hreload : forall store,
            In store (all_stores (translations w1)) -> modified store = true ->
            reloads store) :
  exists w2,
    generate_libelles wb false (boot (disk w1)) = (w2, Ok tt)
    /\ (forall store, In store (all_stores (translations w2)) -> modified store = false)
    /\ TranslationData_save w2 = (w2, Ok tt)
    /\ disk w2 = disk w1.
Proof.
  destruct (generate_libelles_phases _ _ _ _ Hrun) as (tb & wc & Hload & Hext & Hsave).
  cbn [disk boot] in Hload.
  pose proof (growing_addTranslationsFromExcel wb overwrite (with_translations (boot d0) tb))
    as Hg.
  rewrite Hext in Hg. destruct Hg as (Hdisk_c & Hfail_c & _). cbn in Hdisk_c, Hfail_c.
  destruct (save_all_run _ _ _ Hsave) as (Ht1 & Hf1 & Hok1 & Hfiles).
  rewrite Hdisk_c in Hok1, Hfiles. rewrite Ht1 in Hreload, Hlisted.
  assert (Hreg : registry_ok d0 (translations wc)).
  { pose proof (addTranslationsFromExcel_registry_ok d0 wb overwrite
                  (with_translations (boot d0) tb)) as Hr.
    rewrite Hext in Hr. apply Hr. cbn.
    eapply load_all_registry_ok; [apply registry_ok_nil | eassumption]. }
  set (d1 := disk w1) in *.
  assert (Hloads : forall f, In f (glob d1) -> exists store, load_file d1 f = Ok store).
  { intros f Hin. destruct (glob_read_file f d1 (Hok1 Hfolder) Hin) as [text Hr].
    destruct (Hfiles f) as [(st & Hin' & Hm & Hfile & Hread)|[Hnone Hread]].
    - rewrite <- Hfile in Hread.
      destruct (load_file_saved d1 st Hread (Hreload st Hin' Hm)) as (store' & Hl' & _).
      exists store'. now rewrite <- Hfile.
    - rewrite Hr in Hread. symmetry in Hread.
      destruct (load_all_each d0 (glob d0) [] tb Hload f
                              (read_file_glob f d0 text (glob_listed f d1 Hin) Hread))
        as [store Hst].
      exists store. rewrite <- Hst. apply load_file_ext. congruence. }
  destruct (load_all_ok d1 (glob d1) Hloads []) as [t2 Hload2].
  assert (Hcov : forall l s p, covered (translations wc) l s p -> covered t2 l s p)
    by (eapply second_load_covers; eassumption).
  assert (Hclean : forall store, In store (all_stores t2) -> modified store = false).
  { intros store Hin.
    assert (Hreg2 : registry_ok d1 t2)
      by (eapply load_all_registry_ok; [apply registry_ok_nil | eassumption]).
    destruct (all_stores_lookup d1 t2 store Hreg2 Hin) as (l & secs & sec & Hl & Hs).
    assert (Hloaded : registry_loaded d1 t2).
    { eapply load_all_registry_loaded; [|eassumption]. intros ? ? ? ? Hnil. discriminate. }
    destruct (Hloaded l secs sec store Hl Hs) as (s & _ & Hst).
    now apply load_file_ok in Hst. }
  destruct (replays_addTranslationsFromExcel wb overwrite
              (with_translations (boot d0) tb) wc (Ok tt)
              (with_translations (boot d1) t2) Hext)
    as (v' & Hv & Htv & Hdv).
  { cbn. unfold add_failures in *. cbn in *. lia. }
  { exact Hcov. }
  cbn [translations disk with_translations boot] in Htv, Hdv.
  assert (Hsave2 : for_each (all_stores (translations v')) TranslationLangNs_save v'
                   = (v', Ok tt)).
  { apply save_all_clean. rewrite Htv. exact Hclean. }
  exists v'. split; [|split; [|split]].
  - eapply generate_libelles_compose; [exact Hload2 | exact Hv | exact Hsave2].
  - rewrite Htv. exact Hclean.
  - unfold TranslationData_save, bind, get_translations. now rewrite Hsave2.
  - exact Hdv.
Qed.

End Idempotence.

Lemma folder_ok_empty_folder : folder_ok empty_folder.
Proof.
  split.
  - cbn. repeat constructor; cbn; intuition discriminate.
  - intros dir files. cbn.
    destruct (eq_dec dir EmptyString); [intros Heq; inversion Heq; constructor|].
    destruct (eq_dec dir "fr"); [intros Heq; inversion Heq; constructor|].
    destruct (eq_dec dir "en"); [intros Heq; inversion Heq; constructor | discriminate].
Qed.

Lemma second_run_writes_nothing_witness :
  exists w2,
    @generate_libelles mini_yaml wb_two_strategies false (boot (disk after_two_strategies))
    = (w2, Ok tt)
    /\ (forall store, In store (all_stores (translations w2)) -> modified store = false)
    /\ @TranslationData_save mini_yaml w2 = (w2, Ok tt)
    /\ disk w2 = disk after_two_strategies.
Proof.
  apply (@second_run_writes_nothing mini_yaml wb_two_strategies false empty_folder
           after_two_strategies).
  - exact folder_ok_empty_folder.
  - vm_compute. reflexivity.
  - vm_compute. reflexivity.
  - intros store Hin. vm_compute in Hin. destruct Hin as [<-|[<-|[]]]; reflexivity.
  - intros store Hin Hm. vm_compute in Hin.
    destruct Hin as [<-|[<-|[]]]; do 2 eexists;
      (split; [vm_compute; reflexivity|]); (split; [vm_compute; reflexivity|]);
      intros path Hp; exact Hp.
Defined.

Example two_strategies_first_run :
  read_file ("fr", "home") (disk after_two_strategies)
  = Some (file_header ++ "Q1_label: Bonjour {{nickname}}" ++ newline
                      ++ "Q2.label: Votre <strong>nom</strong>" ++ newline)
  /\ read_file ("en", "home") (disk after_two_strategies)
     = Some (file_header ++ "Q1_label: Hello {{nickname}}" ++ newline
                         ++ "Q2.label: Your <strong>name</strong>" ++ newline).
Proof. vm_compute. auto. Qed.

(** C1, as the specification words it, fails: a first run in which an add
    of a label row fails (a number in a text column) and is swallowed ends
    normally; in the second run the add is held back by the gate, the rest
    of the label row is processed, and the file is written again with one
    more path. *)
Lemma second_run_after_swallowed_failure :
  ~ (forall (Y : Yaml) (wb : workbook) (d0 : filesystem) (w1 : world),
        folder_ok d0 ->
        generate_libelles wb false (boot d0) = (w1, Ok tt) ->
        (forall store, In store (all_stores (translations w1)) -> modified store = true ->
                       reloads store) ->
        exists w2,
          generate_libelles wb false (boot (disk w1)) = (w2, Ok tt)
          /\ (forall store, In store (all_stores (translations w2)) -> modified store = false)
          /\ disk w2 = disk w1).
Proof.
  intros Hclaim.
  destruct (Hclaim mini_yaml wb_number_in_labels empty_folder after_number_in_labels)
    as (w2 & Hrun2 & Hclean & Hdisk).
  - exact folder_ok_empty_folder.
  - vm_compute. reflexivity.
  - intros store Hin Hm. vm_compute in Hin.
    destruct Hin as [<-|[]]; do 2 eexists;
      (split; [vm_compute; reflexivity|]); (split; [vm_compute; reflexivity|]);
      intros path Hp; exact Hp.
  - vm_compute in Hrun2. inversion Hrun2; subst w2. vm_compute in Hdisk. discriminate Hdisk.
Qed.

Example second_run_after_swallowed_failure_run :
  let r := @generate_libelles mini_yaml wb_number_in_labels false
                              (boot (disk after_number_in_labels)) in
  snd r = Ok tt
  /\ map modified (all_stores (translations (fst r))) = [true]
  /\ read_file ("fr", "s") (disk after_number_in_labels)
     = Some (file_header ++ "q_a: x" ++ newline)
  /\ read_file ("fr", "s") (disk (fst r))
     = Some (file_header ++ "q_a: x" ++ newline ++ "q_c: hello" ++ newline).
Proof. vm_compute. auto. Qed.

(** C1 fails also without any failed add, when a store has a file that the
    load phase does not list.  A label column [_label] has an empty
    language part; its store is written to the output folder itself, where
    the [glob] of the second run does not look: the second run makes the
    store again, sets its dirty bit and writes the file again. *)
Lemma second_run_after_empty_language :
  ~ (forall (Y : Yaml) (wb : workbook) (d0 : filesystem) (w1 : world),
        folder_ok d0 ->
        generate_libelles wb false (boot d0) = (w1, Ok tt) ->
        add_failures w1 = 0 ->
        (forall store, In store (all_stores (translations w1)) -> modified store = true ->
                       reloads store) ->
        exists w2,
          generate_libelles wb false (boot (disk w1)) = (w2, Ok tt)
          /\ (forall store, In store (all_stores (translations w2)) -> modified store = false)
          /\ TranslationData_save w2 = (w2, Ok tt)).
Proof.
  intros Hclaim.
  destruct (Hclaim mini_yaml wb_empty_language empty_folder after_empty_language)
    as (w2 & Hrun2 & Hclean & _).
  - exact folder_ok_empty_folder.
  - vm_compute. reflexivity.
  - vm_compute. reflexivity.
  - intros store Hin Hm. vm_compute in Hin.
    destruct Hin as [<-|[]]; do 2 eexists;
      (split; [vm_compute; reflexivity|]); (split; [vm_compute; reflexivity|]);
      intros path Hp; exact Hp.
  - vm_compute in Hrun2. inversion Hrun2; subst w2.
    specialize (Hclean _ (or_introl eq_refl)). discriminate Hclean.
Qed.

Example second_run_after_empty_language_run :
  let r := @generate_libelles mini_yaml wb_empty_language false
                              (boot (disk after_empty_language)) in
  map file (all_stores (translations after_empty_language)) = [(EmptyString, "home")]
  /\ glob (disk after_empty_language) = []
  /\ snd r = Ok tt
  /\ map modified (all_stores (translations (fst r))) = [true]
  /\ stdout (fst r) = [LogGenerate (EmptyString, "home")]
  /\ read_file (EmptyString, "home") (disk (fst r))
     = Some (file_header ++ "Q1_label: Nom" ++ newline).
Proof. vm_compute. auto 10. Qed.

(* ===================================================================== *)
(** * Further properties                                                  *)
(* ===================================================================== *)

(** ** generate_sections *)

Lemma occurs_app (c : ascii) (a b : string) :
  occurs c (a ++ b) = (occurs c a || occurs c b)%bool.
Proof. induction a as [|x a IH]; cbn; [reflexivity|]. now rewrite IH, orb_assoc. Qed.

Lemma fold_left_append_lines (f : string -> string) (l : list string) (acc : string) :
  fold_left (fun ts_code section => ts_code ++ f section) l acc
  = acc ++ str_concat (map f l).
Proof.
  revert acc. induction l as [|x l IH]; intros acc; cbn.
  - induction acc as [|c acc IHa]; cbn; [reflexivity | now rewrite <- IHa].
  - now rewrite IH, str_app_assoc.
Qed.

Lemma sections_ts_code_closed (sections : list string) :
  sections_ts_code sections
  = str_concat (map (fun section => import_statement section ++ newline) sections)
      ++ newline ++ "// Export all the sections configs" ++ newline
      ++ "export default {" ++ newline
      ++ str_concat (map (fun section => export_statement section ++ newline) sections)
      ++ "};" ++ newline.
Proof.
  assert (Hi : map (fun section => "import " ++ section ++ "Configs from './sections/"
                                            ++ section ++ "/configs';" ++ newline) sections
               = map (fun section => import_statement section ++ newline) sections).
  { apply map_ext. intros s. cbv beta. unfold import_statement. rewrite !str_app_assoc. reflexivity. }
  assert (He : map (fun section => "    " ++ section ++ ": " ++ section ++ "Configs," ++ newline)
                   sections
               = map (fun section => export_statement section ++ newline) sections).
  { apply map_ext. intros s. cbv beta. unfold export_statement. rewrite !str_app_assoc. reflexivity. }
  unfold sections_ts_code.
  rewrite (fold_left_append_lines
             (fun section => "    " ++ section ++ ": " ++ section ++ "Configs," ++ newline)).
  rewrite (fold_left_append_lines
             (fun section => "import " ++ section ++ "Configs from './sections/"
                                      ++ section ++ "/configs';" ++ newline)).
  rewrite Hi, He. rewrite !str_app_assoc. reflexivity.
Qed.

Lemma lines_from_line (s rest acc : string) :
  occurs nl s = false ->
  lines_from acc (s ++ newline ++ rest) = (acc ++ s) :: lines_from EmptyString rest.
Proof.
  revert acc. induction s as [|c s IH]; intros acc Hs.
  - cbn. f_equal. induction acc as [|x acc IHa]; cbn; [reflexivity | now rewrite <- IHa].
  - cbn [occurs] in Hs. apply orb_false_iff in Hs as [Hc Hs].
    cbn [append lines_from]. fold nl. rewrite Ascii.eqb_sym, Hc.
    rewrite IH by assumption. f_equal. now rewrite str_app_assoc.
Qed.

Lemma lines_from_lines (f : string -> string) (l : list string) (rest : string) :
  (forall x, In x l -> occurs nl (f x) = false) ->
  lines_from EmptyString (str_concat (map (fun x => f x ++ newline) l) ++ rest)
  = (map f l ++ lines_from EmptyString rest)%list.
Proof.
  induction l as [|x l IH]; intros Hl; [reflexivity|].
  cbn [map str_concat fold_right]. fold (str_concat (map (fun x => f x ++ newline) l)).
  rewrite !str_app_assoc. rewrite lines_from_line by (apply Hl; now left).
  cbn [append app]. f_equal. apply IH. intros y Hy. apply Hl. now right.
Qed.

(** X1. The text that [generate_sections] writes, for section names that
    have no line break, read line by line: one import statement for each
    section in the order given, an empty line, the comment, the opening of
    the export, one entry for each section in the same order, the closing
    line. *)
Theorem sections_ts_code_lines (sections : list string)
        (Hnames : forall section, In section sections -> occurs nl section = false) :
  lines_from EmptyString (sections_ts_code sections)
  = (map import_statement sections
       ++ [EmptyString; "// Export all the sections configs"; "export default {"]
       ++ map export_statement sections
       ++ ["};"])%list.
Proof.
  rewrite sections_ts_code_closed.
  rewrite lines_from_lines.
  2:{ intros s Hs. unfold import_statement. rewrite !occurs_app, (Hnames s Hs). reflexivity. }
  f_equal.
  change (newline ++ "// Export all the sections configs" ++ newline
            ++ "export default {" ++ newline
            ++ str_concat (map (fun section => export_statement section ++ newline) sections)
            ++ "};" ++ newline)
    with (EmptyString ++ newline ++ "// Export all the sections configs" ++ newline
            ++ "export default {" ++ newline
            ++ str_concat (map (fun section => export_statement section ++ newline) sections)
            ++ "};" ++ newline).
  rewrite lines_from_line by reflexivity.
  rewrite lines_from_line by reflexivity.
  rewrite lines_from_line by reflexivity.
  cbn [append app]. do 3 f_equal.
  rewrite lines_from_lines.
  2:{ intros s Hs. unfold export_statement. rewrite !occurs_app, (Hnames s Hs). reflexivity. }
  reflexivity.
Qed.

Lemma sections_ts_code_lines_witness :
  lines_from EmptyString (sections_ts_code ["home"; "household"])
  = ["import homeConfigs from './sections/home/configs';";
     "import householdConfigs from './sections/household/configs';";
     EmptyString;
     "// Export all the sections configs";
     "export default {";
     "    home: homeConfigs,";
     "    household: householdConfigs,";
     "};"].
Proof.
  apply (sections_ts_code_lines ["home"; "household"]).
  intros section [<-|[<-|[]]]; reflexivity.
Defined.

Lemma dict_set_set {K V : Type} `{EqDec K} (k : K) (v1 v2 : V) (d : list (K * V)) :
  dict_set k v2 (dict_set k v1 d) = dict_set k v2 d.
Proof.
  induction d as [|[k' v'] d IH]; cbn.
  - destruct (eq_dec k k); congruence.
  - destruct (eq_dec k k') as [->|Hne]; cbn.
    + destruct (eq_dec k' k'); congruence.
    + destruct (eq_dec k k'); [contradiction | now rewrite IH].
Qed.

Lemma generate_sections_ok (output_file : string * string) (sections : list string)
      (w : ts_world) :
  In (fst output_file) (ts_dirs w) ->
  generate_sections output_file sections w
  = ({| ts_stdout := ts_stdout w ++ [TsGenerate output_file];
        ts_dirs := ts_dirs w;
        ts_files := dict_set output_file (sections_ts_code sections) (ts_files w) |}, Ok tt).
Proof.
  intros Hdir. unfold generate_sections, ts_open_write.
  destruct (in_dec string_dec (fst output_file) (ts_dirs w)); [reflexivity | contradiction].
Qed.

(** X2. [generate_sections] replaces the file: when the directory exists
    the call returns, the file holds the text for the sections given, the
    other files are as before, and a call after an earlier call for other
    sections leaves the files that the call alone leaves.  When the
    directory does not exist, the error is reported and raised again and
    no file is written. *)
Theorem generate_sections_replaces_file
        (output_file : string * string) (earlier sections : list string) (w : ts_world) :
  (In (fst output_file) (ts_dirs w) ->
   exists w',
     generate_sections output_file sections w = (w', Ok tt)
     /\ dict_get output_file (ts_files w') = Some (sections_ts_code sections)
     /\ (forall g, g <> output_file -> dict_get g (ts_files w') = dict_get g (ts_files w))
     /\ ts_stdout w' = (ts_stdout w ++ [TsGenerate output_file])%list
     /\ ts_files (fst (generate_sections output_file sections
                         (fst (generate_sections output_file earlier w))))
        = ts_files w')
  /\ (~ In (fst output_file) (ts_dirs w) ->
      generate_sections output_file sections w
      = (ts_print (TsError FileNotFoundError) w, Raise FileNotFoundError)).
Proof.
  split.
  - intros Hdir. rewrite (generate_sections_ok output_file earlier w Hdir). cbn [fst].
    rewrite (generate_sections_ok output_file sections w Hdir).
    rewrite generate_sections_ok by exact Hdir.
    eexists. split; [reflexivity|]. cbn [fst ts_files ts_stdout].
    split; [apply dict_get_set_same|].
    split; [intros g Hg; now apply dict_get_set_other|].
    split; [reflexivity | apply dict_set_set].
  - intros Hdir. unfold generate_sections, ts_open_write.
    destruct (in_dec string_dec (fst output_file) (ts_dirs w)); [contradiction|].
    reflexivity.
Qed.

Lemma generate_sections_replaces_file_witness :
  let w := {| ts_stdout := []; ts_dirs := ["survey"]; ts_files := [] |} in
  exists w',
    generate_sections ("survey", "sections.ts") ["home"] w = (w', Ok tt)
    /\ ts_files (fst (generate_sections ("survey", "sections.ts") ["home"]
                        (fst (generate_sections ("survey", "sections.ts") ["end"; "home"] w))))
       = ts_files w'.
Proof.
  intros w.
  destruct (proj1 (generate_sections_replaces_file ("survey", "sections.ts")
                     ["end"; "home"] ["home"] w) (or_introl eq_refl))
    as (w' & Hrun & _ & _ & _ & Hlast).
  exists w'. split; [exact Hrun | exact Hlast].
Defined.

(** ** The notation transformer on whole values *)

Lemma prefix_self_app (n rest : string) : prefix n (n ++ rest) = true.
Proof.
  induction n as [|c n IH]; [now destruct rest|].
  cbn [append]. now rewrite prefix_cons, Ascii.eqb_refl.
Qed.

Lemma prefix_head_absent (c x : ascii) (n s : string) :
  Ascii.eqb x c = false -> prefix (String c n) (String x s) = false.
Proof. intros Hx. now rewrite prefix_cons, Ascii.eqb_sym, Hx. Qed.

(** A piece of text without the first character of the pattern is passed
    over by each of the scans. *)
Lemma str_in_piece (c : ascii) (n p rest : string) :
  occurs c p = false -> str_in (String c n) (p ++ rest) = str_in (String c n) rest.
Proof.
  induction p as [|x p IH]; intros Hp; [reflexivity|].
  cbn [occurs] in Hp. apply orb_false_iff in Hp as [Hx Hp].
  cbn [append str_in]. rewrite prefix_head_absent by now rewrite Ascii.eqb_sym. auto.
Qed.

Lemma str_count_piece (c : ascii) (n p rest : string) :
  occurs c p = false -> str_count (p ++ rest) (String c n) = str_count rest (String c n).
Proof.
  unfold str_count. induction p as [|x p IH]; intros Hp; [reflexivity|].
  cbn [occurs] in Hp. apply orb_false_iff in Hp as [Hx Hp].
  cbn [append count_from]. rewrite prefix_head_absent by now rewrite Ascii.eqb_sym. auto.
Qed.

Lemma alternate_piece (c : ascii) (n a b p rest : string) (i : nat) :
  occurs c p = false ->
  alternate_from 0 i (p ++ rest) (String c n) a b
  = p ++ alternate_from 0 i rest (String c n) a b.
Proof.
  induction p as [|x p IH]; intros Hp; [reflexivity|].
  cbn [occurs] in Hp. apply orb_false_iff in Hp as [Hx Hp].
  cbn [append alternate_from]. rewrite prefix_head_absent by now rewrite Ascii.eqb_sym.
  f_equal. auto.
Qed.

Lemma str_in_absent (c : ascii) (n s : string) :
  occurs c s = false -> str_in (String c n) s = false.
Proof.
  induction s as [|x s IH]; intros Hs; [reflexivity|].
  cbn [occurs] in Hs. apply orb_false_iff in Hs as [Hx Hs].
  cbn [str_in]. rewrite prefix_head_absent by now rewrite Ascii.eqb_sym. auto.
Qed.

Lemma str_count_occurrence (n rest : string) :
  0 < String.length n -> str_count (n ++ rest) n = S (str_count rest n).
Proof.
  intros Hn. rewrite str_count_match by (auto using prefix_self_app).
  now rewrite str_drop_app_length.
Qed.

Lemma alternate_occurrence (n a b rest : string) (i : nat) :
  0 < String.length n ->
  alternate_from 0 i (n ++ rest) n a b
  = (if Nat.even i then a else b) ++ alternate_from 0 (S i) rest n a b.
Proof.
  intros Hn. rewrite alternate_match by (auto using prefix_self_app).
  now rewrite str_drop_app_length.
Qed.

Lemma notation_head_spec (k : ValueReplacer.notation_kind) :
  exists n, ValueReplacer.notation_of k = String (notation_head k) n.
Proof. destruct k; eexists; reflexivity. Qed.

(** The balance rule on a pair of tokens around a text. *)
Lemma spec_balance_pair (k : ValueReplacer.notation_kind) (before inside after : string) :
  occurs (notation_head k) before = false ->
  occurs (notation_head k) inside = false ->
  occurs (notation_head k) after = false ->
  let n := ValueReplacer.notation_of k in
  spec_balance (before ++ n ++ inside ++ n ++ after) n
               (ValueReplacer.start_of k) (ValueReplacer.end_of k)
  = before ++ ValueReplacer.start_of k ++ inside ++ ValueReplacer.end_of k ++ after.
Proof.
  intros Hbefore Hinside Hafter n. subst n. unfold spec_balance.
  destruct (notation_head_spec k) as [n' Hn].
  assert (Hlen : 0 < String.length (ValueReplacer.notation_of k)) by (rewrite Hn; cbn; lia).
  set (c := notation_head k) in *.
  assert (Hq : str_count after (ValueReplacer.notation_of k) = 0).
  { apply str_in_false_count. rewrite Hn. now apply str_in_absent. }
  assert (Hcount : str_count (before ++ ValueReplacer.notation_of k ++ inside
                                     ++ ValueReplacer.notation_of k ++ after)
                             (ValueReplacer.notation_of k) = 2).
  { rewrite Hn at 3. rewrite str_count_piece by assumption. rewrite <- Hn.
    rewrite str_count_occurrence by assumption.
    rewrite Hn at 2. rewrite str_count_piece by assumption. rewrite <- Hn.
    rewrite str_count_occurrence by assumption. now rewrite Hq. }
  rewrite Hcount. cbn [Nat.even].
  rewrite Hn at 3. rewrite alternate_piece by assumption. rewrite <- Hn.
  rewrite alternate_occurrence by assumption. cbn [Nat.even].
  rewrite Hn at 2. rewrite alternate_piece by assumption. rewrite <- Hn.
  rewrite alternate_occurrence by assumption. cbn [Nat.even].
  rewrite str_in_false_alternate; [reflexivity|].
  rewrite Hn. now apply str_in_absent.
Qed.

(** X3. A pair of notation tokens around a text: for each of the four
    notations, when the texts before, between and after the two tokens do
    not have the first character of the notation, [replaceStartEnd] puts
    the opening tag for the first token and the closing tag for the
    second, and keeps the three texts. *)
Theorem replaceStartEnd_wraps
        (k : ValueReplacer.notation_kind) (before inside after : string)
        (Hbefore : occurs (notation_head k) before = false)
        (Hinside : occurs (notation_head k) inside = false)
        (Hafter : occurs (notation_head k) after = false) :
  let n := ValueReplacer.notation_of k in
  ValueReplacer.replaceStartEnd (before ++ n ++ inside ++ n ++ after) n
                                (ValueReplacer.start_of k) (ValueReplacer.end_of k)
  = before ++ ValueReplacer.start_of k ++ inside ++ ValueReplacer.end_of k ++ after.
Proof.
  intros n. subst n. rewrite replaceStartEnd_spec.
  now apply spec_balance_pair.
Qed.

Lemma replaceStartEnd_wraps_witness :
  ValueReplacer.replaceStartEnd
    ("Voir " ++ "_green_" ++ "ici" ++ "_green_" ++ " svp")
    "_green_" ValueReplacer.startGreen ValueReplacer.endGreen
  = "Voir " ++ ValueReplacer.startGreen ++ "ici" ++ ValueReplacer.endGreen ++ " svp".
Proof.
  exact (replaceStartEnd_wraps ValueReplacer.Green "Voir " "ici" " svp"
                               eq_refl eq_refl eq_refl).
Defined.

Lemma str_in_single (c : ascii) (s : string) :
  str_in (String c EmptyString) s = occurs c s.
Proof.
  induction s as [|x s IH]; [reflexivity|].
  cbn [str_in occurs]. rewrite prefix_cons.
  destruct (Ascii.eqb c x); cbn; [now destruct s | exact IH].
Qed.

Lemma str_replace_absent (s old new : string) :
  str_in old s = false -> str_replace s old new = s.
Proof.
  unfold str_replace. induction s as [|x s IH]; intros Hs; [reflexivity|].
  cbn [str_in] in Hs. cbn [replace_from].
  destruct (prefix old (String x s)); [discriminate|]. f_equal. auto.
Qed.

Lemma spec_balance_absent (s n a b : string) :
  str_in n s = false -> spec_balance s n a b = s.
Proof.
  intros Hs. unfold spec_balance. destruct (Nat.even _); [|reflexivity].
  now apply str_in_false_alternate.
Qed.

Lemma occurs_alternate (c : ascii) (n a b : string) :
  occurs c a = false -> occurs c b = false ->
  forall s skip i,
    occurs c s = false -> occurs c (alternate_from skip i s n a b) = false.
Proof.
  intros Ha Hb. induction s as [|x s IH]; intros skip i Hs; [reflexivity|].
  cbn [occurs] in Hs. apply orb_false_iff in Hs as [Hx Hs].
  cbn [alternate_from]. destruct skip as [|skip]; [|auto].
  destruct (prefix n (String x s)).
  - rewrite occurs_app, IH by assumption. destruct (Nat.even i); now rewrite ?Ha, ?Hb.
  - cbn [occurs]. now rewrite Hx, IH.
Qed.

Lemma occurs_spec_balance (c : ascii) (s n a b : string) :
  occurs c a = false -> occurs c b = false -> occurs c s = false ->
  occurs c (spec_balance s n a b) = false.
Proof.
  intros Ha Hb Hs. unfold spec_balance. destruct (Nat.even _); [|assumption].
  now apply occurs_alternate.
Qed.

Lemma replace_no_line_break (s : string) : occurs nl (ValueReplacer.replace s) = false.
Proof.
  rewrite replace_chain. cbv zeta.
  repeat (apply occurs_spec_balance; [reflexivity | reflexivity |]).
  rewrite <- str_in_single. change (String nl EmptyString) with newline.
  now apply str_replace_none_left.
Qed.

(** X4. The transformer leaves no line break: in the text it returns
    every line break of the input is a break tag.  So a text value stored
    without [keepMarkdown] is marked for folded rendering exactly when the
    transformed text has more than 76 characters. *)
Theorem transformed_value_has_no_line_break
        (self : TranslationLangNs) (path : pyval) (value : string) (overwrite : bool)
        (Hstore : overwrite = true \/ dict_mem path (data self) = false) :
  let text := ValueReplacer.replace (str_replace value "[nom]" "{{nickname}}") in
  occurs nl text = false
  /\ exists self',
      TranslationLangNs_addTranslation self path (PStr value) overwrite false = Ok self'
      /\ dict_get path (data self')
         = Some (if Nat.ltb 76 (String.length text) then Folded text else Plain text).
Proof.
  intros text. pose proof (replace_no_line_break (str_replace value "[nom]" "{{nickname}}")) as Hnl.
  fold text in Hnl. split; [exact Hnl|].
  rewrite addTranslation_stored by assumption. eexists. split; [reflexivity|].
  cbn [data]. rewrite dict_get_set_same. f_equal. fold text.
  unfold TranslationLangNs_stringToYaml.
  change newline with (String nl EmptyString). now rewrite str_in_single, Hnl.
Qed.

Lemma transformed_value_has_no_line_break_witness :
  let text := ValueReplacer.replace
                (str_replace ("Bonjour," ++ newline ++ "**vous**") "[nom]" "{{nickname}}") in
  occurs nl text = false
  /\ exists self',
      TranslationLangNs_addTranslation (TranslationLangNs_init ("fr", "home")) (PStr "intro")
        (PStr ("Bonjour," ++ newline ++ "**vous**")) false false = Ok self'
      /\ dict_get (PStr "intro") (data self')
         = Some (if Nat.ltb 76 (String.length text) then Folded text else Plain text).
Proof.
  exact (transformed_value_has_no_line_break (TranslationLangNs_init ("fr", "home"))
           (PStr "intro") ("Bonjour," ++ newline ++ "**vous**") false (or_intror eq_refl)).
Defined.

Example line_break_becomes_tag :
  ValueReplacer.replace ("Bonjour," ++ newline ++ "**vous**")
  = "Bonjour,<br /><strong>vous</strong>".
Proof. reflexivity. Qed.

(** X5. Text without star, underscore and line break goes through the
    transformer unchanged. *)
Theorem replace_plain_text (s : string) (Hplain : plain_text s = true) :
  ValueReplacer.replace s = s.
Proof.
  unfold plain_text in Hplain.
  apply andb_prop in Hplain as [Hplain Hnl]. apply andb_prop in Hplain as [Hstar Hunder].
  apply negb_true_iff in Hnl, Hstar, Hunder.
  rewrite replace_chain. cbv zeta.
  assert (Hbr : str_replace s newline "<br />" = s).
  { apply str_replace_absent. change newline with (String nl EmptyString).
    now rewrite str_in_single. }
  rewrite Hbr.
  rewrite (spec_balance_absent s) by (now apply str_in_absent).
  rewrite (spec_balance_absent s) by (now apply str_in_absent).
  rewrite (spec_balance_absent s) by (now apply str_in_absent).
  apply spec_balance_absent. now apply str_in_absent.
Qed.

Lemma replace_plain_text_witness :
  ValueReplacer.replace "Quel est votre age ?" = "Quel est votre age ?".
Proof. exact (replace_plain_text "Quel est votre age ?" eq_refl). Defined.

(** ** Sequences of adds to one store *)

(** X6. Two adds of text to the same path of a store.  With [overwrite]
    false the first value stays: the second add returns the store as the
    first left it.  With [overwrite] true the last value wins: the store is
    the one that the second add alone gives, the path in the place it had. *)
Theorem addTranslation_twice
        (self : TranslationLangNs) (path : pyval) (first second : string)
        (keep1 keep2 : bool) :
  (forall self1,
      TranslationLangNs_addTranslation self path (PStr first) false keep1 = Ok self1 ->
      TranslationLangNs_addTranslation self1 path (PStr second) false keep2 = Ok self1)
  /\ (forall self1,
         TranslationLangNs_addTranslation self path (PStr first) true keep1 = Ok self1 ->
         TranslationLangNs_addTranslation self1 path (PStr second) true keep2
         = TranslationLangNs_addTranslation self path (PStr second) true keep2).
Proof.
  split.
  - intros self1 H1. apply addTranslation_gated.
    eapply addTranslation_has_path; eassumption.
  - intros self1 H1.
    rewrite (addTranslation_stored self path first true keep1 (or_introl eq_refl)) in H1.
    inversion H1; subst self1.
    rewrite !addTranslation_stored by (now left). cbn [data file].
    now rewrite dict_set_set.
Qed.

Lemma addTranslation_twice_witness :
  let self1 := {| modified := true;
                  data := [(PStr "title", Plain "Accueil")];
                  file := ("fr", "home") |} in
  TranslationLangNs_addTranslation self1 (PStr "title") (PStr "Maison") false false = Ok self1.
Proof.
  intros self1.
  exact (proj1 (addTranslation_twice (TranslationLangNs_init ("fr", "home")) (PStr "title")
                  "Accueil" "Maison" false false) self1 eq_refl).
Defined.

(** ** Values stored without folding *)

Lemma stringToYaml_tidy (s : string) :
  unfolded_is_short (TranslationLangNs_stringToYaml s).
Proof.
  unfold TranslationLangNs_stringToYaml.
  destruct (str_in newline s) eqn:Hnl; [exact I|].
  destruct (Nat.ltb 76 (String.length s)) eqn:Hlen; [exact I|].
  apply Nat.ltb_ge in Hlen. split; assumption.
Qed.

Lemma stringToYaml_loaded_tidy (v : yamlval) (y : scalar) :
  stringToYaml_loaded v = Ok y -> unfolded_is_short y.
Proof.
  destruct v as [s|folded s|big text|]; cbn [stringToYaml_loaded]; [| | |discriminate];
    intros Heq; inversion Heq; subst; clear Heq.
  - apply stringToYaml_tidy.
  - destruct (str_in newline s) eqn:Hnl; [exact I|].
    destruct (Nat.ltb 76 (String.length s)) eqn:Hlen; [exact I|].
    destruct folded; [exact I|]. apply Nat.ltb_ge in Hlen. split; assumption.
  - destruct big; exact I.
Qed.

Lemma Forall_values_set {K V : Type} `{EqDec K} (Q : V -> Prop) (k : K) (v : V)
      (d : list (K * V)) :
  Forall Q (map snd d) -> Q v -> Forall Q (map snd (dict_set k v d)).
Proof.
  intros Hd Hv. induction d as [|[k' v'] d IH]; cbn in *.
  - constructor; auto.
  - inversion Hd; subst. destruct (eq_dec k k'); cbn; constructor; auto.
Qed.

Lemma load_paths_tidy (translationData : list (pyval * yamlval)) :
  forall acc d, tidy acc -> load_paths translationData acc = Ok d -> tidy d.
Proof.
  induction translationData as [|[p v] td IH]; intros acc d Hacc; cbn [load_paths].
  - intros Heq; now inversion Heq; subst.
  - destruct (stringToYaml_loaded v) as [y|e] eqn:Hv; [|discriminate].
    apply IH. apply Forall_values_set; [assumption | eapply stringToYaml_loaded_tidy; eassumption].
Qed.

Lemma addTranslation_tidy (self self' : TranslationLangNs) path value overwrite keepMarkdown :
  tidy (data self) ->
  TranslationLangNs_addTranslation self path value overwrite keepMarkdown = Ok self' ->
  tidy (data self').
Proof.
  intros Hc. unfold TranslationLangNs_addTranslation.
  destruct (negb overwrite && dict_mem path (data self)).
  - intros Heq; now inversion Heq; subst.
  - destruct value; try discriminate. intros Heq; inversion Heq; subst. cbn [data].
    apply Forall_values_set; [assumption | apply stringToYaml_tidy].
Qed.

(** ** Properties of stores that a whole run keeps *)

Lemma every_store_nil (P : TranslationLangNs -> Prop) : every_store P [].
Proof. intros lang sections section store Hl. discriminate. Qed.

Lemma every_store_ensure_lang (P : TranslationLangNs -> Prop) lang t :
  every_store P t -> every_store P (ensure_lang lang t).
Proof.
  intros Ht l sections section store. destruct (eq_dec l lang) as [->|Hne].
  - rewrite ensure_lang_get. intros Heq; inversion Heq; subst sections.
    destruct (dict_get lang t) as [secs|] eqn:Hl; [|discriminate].
    now apply (Ht lang secs).
  - rewrite ensure_lang_other by assumption. apply Ht.
Qed.

Lemma every_store_update (P : TranslationLangNs -> Prop) lang section store sections t :
  every_store P t -> dict_get lang t = Some sections -> P store ->
  every_store P (dict_set lang (dict_set section store sections) t).
Proof.
  intros Ht Hlang Hstore l secs sec st. destruct (eq_dec l lang) as [->|Hne].
  - rewrite dict_get_set_same. intros Heq; inversion Heq; subst secs.
    destruct (eq_dec sec section) as [->|Hns].
    + rewrite dict_get_set_same. intros Heq'; now inversion Heq'; subst.
    + rewrite dict_get_set_other by assumption. now apply (Ht lang sections).
  - rewrite dict_get_set_other by assumption. apply Ht.
Qed.

Lemma every_store_register (P : TranslationLangNs -> Prop) lang section store t :
  every_store P t -> P store -> every_store P (register lang section store t).
Proof.
  intros Ht Hstore. unfold register.
  apply every_store_update;
    [now apply every_store_ensure_lang | apply ensure_lang_get | assumption].
Qed.

Section RunInvariant.
Context `{Yaml}.
Variable P : TranslationLangNs -> Prop.
Hypothesis P_new : forall f, P (TranslationLangNs_init f).
Hypothesis P_add :
  forall self self' path value overwrite keepMarkdown,
    P self ->
    TranslationLangNs_addTranslation self path value overwrite keepMarkdown = Ok self' ->
    P self'.
Hypothesis P_load : forall d f store, load_file d f = Ok store -> P store.

Local Abbreviation keeps := (keeps_stores P).

Lemma keeps_refl w : keeps w w.
Proof. unfold keeps_stores. auto. Qed.

Lemma keeps_trans w1 w2 w3 : keeps w1 w2 -> keeps w2 w3 -> keeps w1 w3.
Proof. unfold keeps_stores. auto. Qed.

Lemma keeps_log w l : keeps w (log w l).
Proof. unfold keeps_stores. auto. Qed.

Lemma keeps_addTranslation lang section path value overwrite keepMarkdown :
  respects keeps (TranslationData_addTranslation lang section path value overwrite keepMarkdown).
Proof.
  intros w Hw. rewrite addTranslation_run. cbv zeta.
  pose proof (every_store_ensure_lang P lang _ Hw) as Hw1.
  pose proof (ensure_lang_get lang (translations w)) as Hget.
  set (t1 := ensure_lang lang (translations w)) in *.
  set (sections := match dict_get lang (translations w) with Some s => s | None => [] end) in *.
  destruct (dict_get section sections) as [store|] eqn:Hs.
  - destruct (TranslationLangNs_addTranslation store path value overwrite keepMarkdown)
      as [store'|e] eqn:Ha; cbn; [|assumption].
    apply every_store_update; auto. eapply P_add; [|eassumption].
    now apply (Hw1 lang sections section store).
  - destruct section as [|s|z|dt]; cbn; try assumption.
    pose proof (every_store_update P lang (PStr s) _ sections t1 Hw1 Hget (P_new (lang, s)))
      as Hw2.
    destruct (TranslationLangNs_addTranslation _ path value overwrite keepMarkdown)
      as [store'|e] eqn:Ha; cbn; [|assumption].
    apply every_store_update; [assumption | apply dict_get_set_same |].
    eapply P_add; [apply P_new | eassumption].
Qed.

Lemma keeps_load_one (f : fpath) : respects keeps (load_one f).
Proof.
  intros w Hw. pose proof (load_one_run f w) as Hrun.
  destruct (load_file (disk w) f) as [store|e] eqn:Hl.
  - rewrite Hrun. cbn. apply every_store_register; [assumption | eauto].
  - destruct Hrun as (w' & -> & _ & Ht). cbn. now rewrite Ht.
Qed.

Lemma save_translations (self : TranslationLangNs) (w : world) :
  translations (fst (TranslationLangNs_save self w)) = translations w.
Proof.
  unfold TranslationLangNs_save, bind, open_write, print, ret.
  destruct (modified self); [|reflexivity].
  destruct (dict_get (fst (file self)) (disk w)); reflexivity.
Qed.

Lemma keeps_save (self : TranslationLangNs) : respects keeps (TranslationLangNs_save self).
Proof. intros w Hw. now rewrite save_translations. Qed.

Lemma keeps_generate_libelles wb overwrite :
  forall w, every_store P (translations (fst (generate_libelles wb overwrite w))).
Proof.
  intros w.
  assert (Hrun : respects keeps
                   (FillLocalesTranslations_loadCurrentTranslations ;;
                    FillLocalesTranslations_addTranslationsFromExcel wb overwrite ;;
                    FillLocalesTranslations_saveAllTranslations)).
  { apply (respects_bind keeps keeps_trans).
    - intros w0. apply (respects_for_each keeps keeps_refl keeps_trans). apply keeps_load_one.
    - intros _. apply (respects_bind keeps keeps_trans).
      + apply (respects_addTranslationsFromExcel keeps keeps_refl keeps_trans keeps_log).
        apply keeps_addTranslation.
      + intros _ w0. intros Hw0.
        unfold FillLocalesTranslations_saveAllTranslations, TranslationData_save, bind,
          get_translations.
        apply (respects_for_each keeps keeps_refl keeps_trans _ _ keeps_save w0 Hw0). }
  unfold generate_libelles, try_except, bind at 1, put_translations.
  specialize (Hrun {| translations := []; stdout := stdout w; disk := disk w |}
                   (every_store_nil P)).
  destruct ((FillLocalesTranslations_loadCurrentTranslations ;;
             FillLocalesTranslations_addTranslationsFromExcel wb overwrite ;;
             FillLocalesTranslations_saveAllTranslations) _) as [w' [[]|e]]; exact Hrun.
Qed.

End RunInvariant.

(** X7. At the end of a run, whatever its outcome, every text that a
    store of the registry holds without folding (as a plain string, or in
    the style it was loaded with) has no line break and at most 76
    characters: [stringToYaml] has folded every other text.  This is so
    for what is loaded and for what is added. *)
Theorem unfolded_values_are_short `{Yaml} (wb : workbook) (overwrite : bool) (w : world) :
  every_store (fun store => tidy (data store))
              (translations (fst (generate_libelles wb overwrite w)))
  /\ (forall translationData d, load_paths translationData [] = Ok d -> tidy d)
  /\ (forall self self' path value o keepMarkdown,
         tidy (data self) ->
         TranslationLangNs_addTranslation self path value o keepMarkdown = Ok self' ->
         tidy (data self')).
Proof.
  split; [|split].
  - apply keeps_generate_libelles.
    + intros f. constructor.
    + intros self self' path value o k. apply addTranslation_tidy.
    + intros d f store. unfold load_file.
      destruct (read_file f d); [|discriminate].
      destruct (yaml_load s); [|discriminate].
      destruct (load_paths a []) eqn:Hl; [|discriminate].
      intros Heq; inversion Heq; subst. cbn.
      eapply load_paths_tidy; [|eassumption]. constructor.
  - intros td d. apply load_paths_tidy. constructor.
  - intros self self' path value o k. apply addTranslation_tidy.
Qed.

Lemma unfolded_values_are_short_witness :
  tidy [(PStr "a", Styled "b"); (PStr "c", Folded ("d" ++ newline ++ "e"))].
Proof.
  apply (proj2 (proj2 (@unfolded_values_are_short mini_yaml wb_two_strategies false
                         (boot empty_folder)))
               {| modified := false; data := [(PStr "a", Styled "b")]; file := ("fr", "home") |}
               {| modified := true;
                  data := [(PStr "a", Styled "b"); (PStr "c", Folded ("d" ++ newline ++ "e"))];
                  file := ("fr", "home") |}
               (PStr "c") (PStr ("d" ++ newline ++ "e")) false true).
  - repeat constructor; cbn; lia.
  - reflexivity.
Defined.

(** ** Loading one file *)

Lemma load_paths_no_atom (translationData : list (pyval * yamlval)) :
  forallb (fun kv => negb (is_atom (snd kv))) translationData = true ->
  forall acc,
  exists d,
    load_paths translationData acc = Ok d
    /\ forall p, dict_mem p d = true <-> dict_mem p acc = true \/ In p (map fst translationData).
Proof.
  induction translationData as [|[p v] td IH]; intros Hall acc; cbn [load_paths].
  - exists acc. split; [reflexivity|]. cbn. tauto.
  - cbn [forallb snd] in Hall. apply andb_prop in Hall as [Hv Hall].
    destruct (stringToYaml_loaded v) as [y|e] eqn:Hy; [|destruct v; discriminate].
    destruct (IH Hall (dict_set p y acc)) as (d & Hd & Hmem).
    exists d. split; [exact Hd|]. intros q. rewrite Hmem. cbn [map fst In].
    destruct (eq_dec q p) as [->|Hne].
    + rewrite dict_mem_set_same. tauto.
    + rewrite dict_mem_set_other by assumption.
      split; [intros [?|?]; auto | intros [?|[?|?]]; auto; congruence].
Qed.

Lemma load_paths_atom (translationData : list (pyval * yamlval)) :
  existsb (fun kv => is_atom (snd kv)) translationData = true ->
  forall acc, load_paths translationData acc = Raise TypeError.
Proof.
  induction translationData as [|[p v] td IH]; intros Hex acc; [discriminate|].
  cbn [load_paths]. cbn [existsb snd] in Hex.
  destruct v as [s|folded s|big text|]; cbn [stringToYaml_loaded]; try reflexivity;
    cbn in Hex; auto.
Qed.

(** A path that the rest of the document does not have keeps its value. *)
Lemma load_paths_other (translationData : list (pyval * yamlval)) (p : pyval) :
  ~ In p (map fst translationData) ->
  forall acc d, load_paths translationData acc = Ok d -> dict_get p d = dict_get p acc.
Proof.
  induction translationData as [|[q v] td IH]; intros Hnot acc d; cbn [load_paths].
  - intros Heq; now inversion Heq.
  - destruct (stringToYaml_loaded v) as [y|e]; [|discriminate]. intros Hd.
    rewrite (IH (fun Hin => Hnot (or_intror Hin)) _ _ Hd).
    apply dict_get_set_other. intros ->. apply Hnot. now left.
Qed.

Lemma load_paths_value (translationData : list (pyval * yamlval)) :
  NoDup (map fst translationData) ->
  forall acc d,
    load_paths translationData acc = Ok d ->
    forall p v y,
      In (p, v) translationData -> stringToYaml_loaded v = Ok y -> dict_get p d = Some y.
Proof.
  induction translationData as [|[q u] td IH]; intros Hnd acc d Hd p v y Hin Hy;
    [contradiction|].
  cbn [map fst] in Hnd. inversion Hnd as [|? ? Hnot Hnd']; subst.
  cbn [load_paths] in Hd.
  destruct (stringToYaml_loaded u) as [yu|e] eqn:Hu; [|discriminate].
  destruct Hin as [Heq|Hin].
  - inversion Heq; subst q u. rewrite (load_paths_other td p Hnot _ _ Hd).
    rewrite dict_get_set_same. congruence.
  - eapply IH; eassumption.
Qed.

(** X8. The outcomes of [loadCurrentTranslations] of a store.  A file
    that does not exist: [FileNotFoundError] goes to the caller, nothing is
    printed.  A text that does not parse, or a mapping with a value that
    has no [in] ([None], a number, a date): the error is printed and an
    [Exception] that names the file is raised.  Otherwise the load returns,
    the world is unchanged, the dirty bit is as it was, and the mapping of
    the store is replaced: its paths are the paths of the file, each with
    what [stringToYaml] makes of its value (a plain string folded by the
    rule, a folded string kept folded, a string of another style and a
    mapping or sequence kept as loaded), and no text stored without
    folding has a line break or more than 76 characters. *)
Theorem loadCurrentTranslations_outcomes `{Yaml} (self : TranslationLangNs) (w : world) :
  let failure :=
    Exception_ ("Error loading translation yaml file " ++ path_text (file self)) in
  (read_file (file self) (disk w) = None ->
   TranslationLangNs_loadCurrentTranslations self w = (w, Raise FileNotFoundError))
  /\ (forall text e,
         read_file (file self) (disk w) = Some text -> yaml_load text = Raise e ->
         TranslationLangNs_loadCurrentTranslations self w
         = (log w (LogLoadYaml e), Raise failure))
  /\ (forall text translationData,
         read_file (file self) (disk w) = Some text -> yaml_load text = Ok translationData ->
         existsb (fun kv => is_atom (snd kv)) translationData = true ->
         TranslationLangNs_loadCurrentTranslations self w
         = (log w (LogLoadYaml TypeError), Raise failure))
  /\ (forall text translationData,
         read_file (file self) (disk w) = Some text -> yaml_load text = Ok translationData ->
         forallb (fun kv => negb (is_atom (snd kv))) translationData = true ->
         exists data',
           TranslationLangNs_loadCurrentTranslations self w
           = (w, Ok {| modified := modified self; data := data'; file := file self |})
           /\ (forall p, dict_mem p data' = true <-> In p (map fst translationData))
           /\ (NoDup (map fst translationData) ->
               forall p s folded text,
                 (In (p, YStr s) translationData ->
                  dict_get p data' = Some (TranslationLangNs_stringToYaml s))
                 /\ (In (p, YScalarString true s) translationData ->
                     dict_get p data' = Some (Folded s))
                 /\ (In (p, YScalarString folded s) translationData ->
                     str_in newline s = false -> String.length s <= 76 ->
                     dict_get p data' = Some (if folded then Folded s else Styled s))
                 /\ (In (p, YCollection false text) translationData ->
                     dict_get p data' = Some (Nested text)))
           /\ tidy data').
Proof.
  intros failure.
  assert (Hread : forall text,
             read_file (file self) (disk w) = Some text -> open_read (file self) w = (w, Ok text)).
  { unfold read_file, open_read. intros text.
    destruct (dict_get (fst (file self)) (disk w)); [|discriminate]. now intros ->. }
  split; [|split; [|split]].
  - unfold read_file, TranslationLangNs_loadCurrentTranslations, bind, open_read.
    destruct (dict_get (fst (file self)) (disk w)); [|reflexivity]. now intros ->.
  - intros text e Hr Hl.
    unfold TranslationLangNs_loadCurrentTranslations, bind at 1. rewrite (Hread text Hr).
    unfold try_except, bind, lift. now rewrite Hl.
  - intros text td Hr Hl Hbad.
    unfold TranslationLangNs_loadCurrentTranslations, bind at 1. rewrite (Hread text Hr).
    unfold try_except, bind, lift. rewrite Hl, (load_paths_atom td Hbad). reflexivity.
  - intros text td Hr Hl Hall.
    destruct (load_paths_no_atom td Hall []) as (d & Hd & Hmem).
    exists d. split; [|split; [|split]].
    + unfold TranslationLangNs_loadCurrentTranslations, bind at 1. rewrite (Hread text Hr).
      unfold try_except, bind, lift, ret. now rewrite Hl, Hd.
    + intros p. rewrite Hmem. cbn. split; [intros [?|?]; auto; discriminate | auto].
    + intros Hnd p s folded txt.
      pose proof (load_paths_value td Hnd [] d Hd p) as Hval.
      split; [|split; [|split]].
      * intros Hin. exact (Hval _ _ Hin eq_refl).
      * intros Hin. apply (Hval _ _ Hin). cbn [stringToYaml_loaded].
        destruct (str_in newline s); [reflexivity|].
        destruct (Nat.ltb 76 (String.length s)); reflexivity.
      * intros Hin Hnl Hlen. apply (Hval _ _ Hin). cbn [stringToYaml_loaded].
        rewrite Hnl. apply Nat.ltb_ge in Hlen. now rewrite Hlen.
      * intros Hin. exact (Hval _ _ Hin eq_refl).
    + eapply load_paths_tidy; [|exact Hd]. constructor.
Qed.

Lemma loadCurrentTranslations_outcomes_witness :
  let w := boot [("fr", [("home", file_header ++ "title: Accueil" ++ newline)])] in
  @TranslationLangNs_loadCurrentTranslations mini_yaml (TranslationLangNs_init ("fr", "end")) w
  = (w, Raise FileNotFoundError).
Proof.
  intros w.
  exact (proj1 (@loadCurrentTranslations_outcomes mini_yaml
                  (TranslationLangNs_init ("fr", "end")) w) eq_refl).
Defined.

Example load_of_unparsable_file :
  let w := boot [("fr", [("home", "title Accueil")])] in
  @TranslationLangNs_loadCurrentTranslations mini_yaml (TranslationLangNs_init ("fr", "home")) w
  = (log w (LogLoadYaml YAMLError),
     Raise (Exception_ "Error loading translation yaml file fr/home.yml")).
Proof. reflexivity. Qed.

(** A short folded string stays folded, and a nested mapping is kept: the
    load does not fail on it. *)
Example load_keeps_folded_and_nested :
  let document := [(PStr "title", YScalarString true "Accueil");
                   (PStr "menu", YCollection false "{'a': 'b'}");
                   (PStr "intro", YStr "Bonjour")] in
  let w := boot [("fr", [("home", "any text")])] in
  @TranslationLangNs_loadCurrentTranslations (fixed_yaml document)
    (TranslationLangNs_init ("fr", "home")) w
  = (w, Ok {| modified := false;
              data := [(PStr "title", Folded "Accueil");
                       (PStr "menu", Nested "{'a': 'b'}");
                       (PStr "intro", Plain "Bonjour")];
              file := ("fr", "home") |}).
Proof. reflexivity. Qed.

(** ** The registry: registering and adding *)

Lemma lookup_store_register lang section store t l s :
  lookup_store (register lang section store t) l s
  = if eq_dec l lang
    then if eq_dec s section then Some store else lookup_store t l s
    else lookup_store t l s.
Proof.
  unfold lookup_store, register. destruct (eq_dec l lang) as [->|Hne].
  - rewrite dict_get_set_same. destruct (eq_dec s section) as [->|Hns].
    + apply dict_get_set_same.
    + rewrite dict_get_set_other by assumption.
      destruct (dict_get lang t); reflexivity.
  - now rewrite dict_get_set_other, ensure_lang_other by assumption.
Qed.

(** X9. [addTranslations] registers a store: it always returns; afterwards
    the lookup of the language and section gives the store, replacing a
    store that was there; every other lookup, the console and the files are
    as before. *)
Theorem addTranslations_registers (lang : string) (section : pyval)
        (store : TranslationLangNs) (w : world) :
  exists w',
    TranslationData_addTranslations lang section store w = (w', Ok tt)
    /\ lookup_store (translations w') lang section = Some store
    /\ (forall l s, l <> lang \/ s <> section ->
                    lookup_store (translations w') l s = lookup_store (translations w) l s)
    /\ stdout w' = stdout w
    /\ disk w' = disk w.
Proof.
  rewrite addTranslations_run. eexists. split; [reflexivity|].
  cbn [translations with_translations stdout disk].
  split; [|split; [|split; reflexivity]].
  - rewrite lookup_store_register.
    destruct (eq_dec lang lang); [|congruence]. destruct (eq_dec section section); congruence.
  - intros l s Hne. rewrite lookup_store_register.
    destruct (eq_dec l lang); [|reflexivity].
    destruct (eq_dec s section); [|reflexivity]. subst. destruct Hne; congruence.
Qed.

Lemma lookup_store_ensure_lang lang t l s :
  lookup_store (ensure_lang lang t) l s = lookup_store t l s.
Proof.
  unfold lookup_store. destruct (eq_dec l lang) as [->|Hne].
  - rewrite ensure_lang_get. destruct (dict_get lang t); reflexivity.
  - now rewrite ensure_lang_other.
Qed.

Lemma lookup_store_update lang section store sections t l s :
  dict_get lang t = Some sections ->
  lookup_store (dict_set lang (dict_set section store sections) t) l s
  = if eq_dec l lang
    then if eq_dec s section then Some store else lookup_store t l s
    else lookup_store t l s.
Proof.
  intros Hl. unfold lookup_store. destruct (eq_dec l lang) as [->|Hne].
  - rewrite dict_get_set_same, Hl. destruct (eq_dec s section) as [->|Hns].
    + apply dict_get_set_same.
    + now apply dict_get_set_other.
  - now rewrite dict_get_set_other.
Qed.

(** X10. When [TranslationData.addTranslation] raises, and what it leaves.
    With no store for the language and section and a section that is not
    text, it raises [TypeError] and no store is made.  With a store there,
    or a section that is text, a value that is not text and that the gate
    does not hold back raises: [TypeError] for a date or time, whose
    [replace] rejects the arguments, [AttributeError] for [None] and for a
    number, which have no [replace].  The store that was there is as it
    was, and a store made for this add stays in the registry, empty and
    not modified.  In both cases the failure is printed with language,
    section and path.  In every other case the add returns and prints
    nothing. *)
Theorem addTranslation_outcomes (lang : string) (section path value : pyval)
        (overwrite keepMarkdown : bool) (w : world) :
  let existing := lookup_store (translations w) lang section in
  let run := TranslationData_addTranslation lang section path value overwrite keepMarkdown w in
  let refused := if is_date value then TypeError else AttributeError in
  (existing = None -> is_text section = false ->
   snd run = Raise TypeError
   /\ stdout (fst run) = (stdout w ++ [LogAddTranslation lang section path TypeError])%list
   /\ forall l s, lookup_store (translations (fst run)) l s = lookup_store (translations w) l s)
  /\ (existing <> None \/ is_text section = true ->
      is_text value = false -> held_back existing path overwrite = false ->
      snd run = Raise refused
      /\ stdout (fst run)
         = (stdout w ++ [LogAddTranslation lang section path refused])%list
      /\ (forall l s, l <> lang \/ s <> section ->
                      lookup_store (translations (fst run)) l s
                      = lookup_store (translations w) l s)
      /\ lookup_store (translations (fst run)) lang section
         = match existing, section with
           | Some store, _ => Some store
           | None, PStr s => Some (TranslationLangNs_init (lang, s))
           | None, _ => None
           end)
  /\ (existing <> None \/ is_text section = true ->
      is_text value = true \/ held_back existing path overwrite = true ->
      snd run = Ok tt /\ stdout (fst run) = stdout w).
Proof.
  intros existing run refused. subst run. rewrite addTranslation_run. cbv zeta.
  pose proof (ensure_lang_get lang (translations w)) as Hget.
  subst existing.
  set (t1 := ensure_lang lang (translations w)) in *.
  set (sections := match dict_get lang (translations w) with Some s => s | None => [] end) in *.
  assert (Hex : lookup_store (translations w) lang section = dict_get section sections).
  { unfold lookup_store, sections. destruct (dict_get lang (translations w)); reflexivity. }
  rewrite Hex.
  assert (Hl1 : forall l s, lookup_store t1 l s = lookup_store (translations w) l s)
    by (intros; apply lookup_store_ensure_lang).
  split; [|split].
  - intros Hnone Htext. rewrite Hnone.
    destruct section as [|s|z|dt]; try discriminate; cbn; auto.
  - intros Hsome Hvalue Hgate.
    destruct (dict_get section sections) as [store|] eqn:Hs.
    + unfold TranslationLangNs_addTranslation. cbn [held_back] in Hgate. rewrite Hgate.
      subst refused.
      destruct value as [|v|z|dv]; try discriminate; cbn;
        (split; [reflexivity|]); (split; [reflexivity|]);
        (split; [intros l s _; apply Hl1|]);
        rewrite Hl1, Hex; reflexivity.
    + destruct Hsome as [Hsome|Hsome]; [congruence|].
      destruct section as [|s|z|dt]; try discriminate.
      unfold TranslationLangNs_addTranslation. cbn [TranslationLangNs_init data dict_mem dict_get].
      rewrite andb_false_r. subst refused.
      destruct value as [|v|z|dv]; try discriminate; cbn [fst snd log with_translations
                                                              translations stdout is_date];
        (split; [reflexivity|]); (split; [reflexivity|]);
        (split; [intros l s0 Hne; rewrite lookup_store_update by assumption;
                 (destruct (eq_dec l lang); [|apply Hl1]);
                 destruct (eq_dec s0 (PStr s)); [subst; destruct Hne; congruence | apply Hl1]|]);
        rewrite lookup_store_update by assumption;
        (destruct (eq_dec lang lang); [|congruence]);
        destruct (eq_dec (PStr s) (PStr s)); congruence.
  - intros Hsome Hok.
    destruct (dict_get section sections) as [store|] eqn:Hs.
    + unfold TranslationLangNs_addTranslation. cbn [held_back] in Hok.
      destruct (negb overwrite && dict_mem path (data store)); [cbn; auto|].
      destruct Hok as [Hok|Hok]; [|discriminate].
      destruct value; try discriminate. cbn. auto.
    + destruct Hsome as [Hsome|Hsome]; [congruence|].
      destruct section as [|s|z|dt]; try discriminate.
      cbn [held_back] in Hok. destruct Hok as [Hok|Hok]; [|discriminate].
      destruct value; try discriminate.
      unfold TranslationLangNs_addTranslation. cbn [TranslationLangNs_init data dict_mem dict_get].
      rewrite andb_false_r. cbn. auto.
Qed.

Lemma addTranslation_outcomes_witness :
  let run := TranslationData_addTranslation "fr" (PStr "home") (PStr "age")
                                            (PDate "2024-05-01") false false (boot []) in
  snd run = Raise TypeError
  /\ stdout (fst run) = [LogAddTranslation "fr" (PStr "home") (PStr "age") TypeError]
  /\ lookup_store (translations (fst run)) "fr" (PStr "home")
     = Some (TranslationLangNs_init ("fr", "home")).
Proof.
  intros run.
  destruct (proj1 (proj2 (addTranslation_outcomes "fr" (PStr "home") (PStr "age")
                            (PDate "2024-05-01") false false (boot [])))
                  (or_intror eq_refl) eq_refl eq_refl) as (Hr & Hout & _ & Hl).
  split; [exact Hr | split; [exact Hout | exact Hl]].
Defined.

Example number_has_no_replace :
  snd (TranslationData_addTranslation "fr" (PStr "home") (PStr "age") (PInt 42)
                                       false false (boot []))
  = Raise AttributeError.
Proof. reflexivity. Qed.

(** ** A run that does not overwrite *)

(** The extraction at a given [overwrite] keeps a relation that printing and
    adding a translation at this [overwrite] keep. *)
Section RespectsAt.
Variable R : world -> world -> Prop.
Hypothesis R_refl : forall w, R w w.
Hypothesis R_trans : forall w1 w2 w3, R w1 w2 -> R w2 w3 -> R w1 w3.
Hypothesis R_log : forall w l, R w (log w l).
Variable overwrite : bool.
Hypothesis R_add_at :
  forall lang section path value keepMarkdown,
    respects R (TranslationData_addTranslation lang section path value overwrite keepMarkdown).





End RespectsAt.










(** A file that the load phase does not list is not kept: a file directly
    in the output folder is not loaded, and the store of an empty language
    part is written over it. *)
Example run_writes_over_unlisted_file :
  let d := [(EmptyString, [("home", mini_dump [(PStr "age", Plain "Votre age")])]);
            ("fr", []); ("en", [])] in
  let run := @generate_libelles mini_yaml wb_empty_language false (boot d) in
  listed (EmptyString, "home") = false
  /\ snd run = Ok tt
  /\ read_file (EmptyString, "home") (disk (fst run))
     = Some (file_header ++ "Q1_label: Nom" ++ newline).
Proof. vm_compute. auto. Qed.

(** ** What a run does to the output folder *)

Section FolderFacts.
Context `{Yaml}.

(** The three phases of a run, with every outcome. *)
Lemma generate_libelles_cases wb overwrite w :
  match load_all (disk w) (glob (disk w)) [] with
  | Raise e =>
      exists wl, generate_libelles wb overwrite w = (log wl (LogError e), Raise e)
                 /\ disk wl = disk w
  | Ok t =>
      match FillLocalesTranslations_addTranslationsFromExcel wb overwrite
              (with_translations w t) with
      | (wc, Raise e) => generate_libelles wb overwrite w = (log wc (LogError e), Raise e)
      | (wc, Ok _) =>
          match for_each (all_stores (translations wc)) TranslationLangNs_save wc with
          | (w1, Ok _) => generate_libelles wb overwrite w = (w1, Ok tt)
          | (w1, Raise e) => generate_libelles wb overwrite w = (log w1 (LogError e), Raise e)
          end
      end
  end.
Proof.
  unfold generate_libelles, try_except, bind, put_translations.
  change {| translations := []; stdout := stdout w; disk := disk w |}
    with (with_translations w []).
  pose proof (loadCurrentTranslations_run (with_translations w [])) as Hload.
  cbn [disk translations with_translations] in Hload.
  destruct (load_all (disk w) (glob (disk w)) []) as [t|e].
  - rewrite Hload.
    change (with_translations (with_translations w []) t) with (with_translations w t).
    destruct (FillLocalesTranslations_addTranslationsFromExcel wb overwrite _)
      as [wc [[]|e]] eqn:He; [|reflexivity].
    unfold FillLocalesTranslations_saveAllTranslations, TranslationData_save, bind,
      get_translations.
    destruct (for_each _ _ wc) as [w' [[]|e]]; reflexivity.
  - destruct Hload as (w' & -> & Hd). exists w'. split; [reflexivity | exact Hd].
Qed.

(** One [save], whatever its outcome. *)
Lemma save_folder (self : TranslationLangNs) (w : world) :
  let w' := fst (TranslationLangNs_save self w) in
  translations w' = translations w
  /\ dict_keys (disk w') = dict_keys (disk w)
  /\ (forall f text, read_file f (disk w) = Some text ->
                     exists text', read_file f (disk w') = Some text')
  /\ (forall g, (modified self = true -> file self <> g) ->
                read_file g (disk w') = read_file g (disk w)).
Proof.
  destruct (modified self) eqn:Hm.
  - destruct (dict_get (fst (file self)) (disk w)) as [files|] eqn:Hd.
    + rewrite (save_dirty self w files Hm Hd). cbn [fst translations disk].
      split; [reflexivity|]. split; [|split].
      * rewrite dict_keys_set. unfold dict_mem. now rewrite Hd.
      * intros f text Hf. destruct (fpath_eq_dec f (file self)) as [->|Hne].
        -- rewrite read_file_write_same. eauto.
        -- rewrite read_file_write_other by assumption. eauto.
      * intros g Hg. apply read_file_write_other; [assumption|].
        intros ->. now apply Hg.
    + rewrite (save_no_directory self w Hm Hd). cbn. eauto.
  - rewrite (save_clean self w Hm). cbn. eauto.
Qed.

(** The save phase, whatever its outcome. *)
Lemma save_all_folder (stores : list TranslationLangNs) :
  forall w,
    let w' := fst (for_each stores TranslationLangNs_save w) in
    translations w' = translations w
    /\ dict_keys (disk w') = dict_keys (disk w)
    /\ (forall f text, read_file f (disk w) = Some text ->
                       exists text', read_file f (disk w') = Some text')
    /\ (forall g, (forall store, In store stores -> modified store = true -> file store <> g) ->
                  read_file g (disk w') = read_file g (disk w)).
Proof.
  induction stores as [|st stores IH]; intros w; cbn [for_each].
  - cbn. eauto.
  - unfold bind. pose proof (save_folder st w) as Hst. cbv zeta in Hst.
    destruct (TranslationLangNs_save st w) as [w1 [[]|e]]; cbn [fst] in *.
    + destruct Hst as (Ht1 & Hk1 & He1 & Ho1).
      destruct (IH w1) as (Ht2 & Hk2 & He2 & Ho2).
      split; [congruence|]. split; [congruence|]. split.
      * intros f text Hf. destruct (He1 f text Hf) as (text1 & Hf1). eauto.
      * intros g Hg. rewrite Ho2, Ho1; [reflexivity| |].
        -- intros Hm. apply Hg; [now left | assumption].
        -- intros store Hin. apply Hg. now right.
    + destruct Hst as (Ht1 & Hk1 & He1 & Ho1). split; [assumption|].
      split; [assumption|]. split; [assumption|].
      intros g Hg. apply Ho1. intros Hm. apply Hg; [now left | assumption].
Qed.

(** A [save] that raises: the store is modified, its directory is not in
    the folder, and nothing has changed. *)
Lemma save_raise (self : TranslationLangNs) (w w' : world) (e : exn) :
  TranslationLangNs_save self w = (w', Raise e) ->
  e = FileNotFoundError /\ w' = w /\ modified self = true
  /\ dict_get (fst (file self)) (disk w) = None.
Proof.
  destruct (modified self) eqn:Hm.
  - destruct (dict_get (fst (file self)) (disk w)) as [files|] eqn:Hd.
    + rewrite (save_dirty self w files Hm Hd). discriminate.
    + rewrite (save_no_directory self w Hm Hd). intros Heq; inversion Heq; auto.
  - rewrite (save_clean self w Hm). discriminate.
Qed.

End FolderFacts.

(** A loop that raises: the items before one item have returned, and the
    body raised on that item. *)
Lemma for_each_raise_inv {A} (xs : list A) (body : A -> M unit) :
  forall w w' e,
    for_each xs body w = (w', Raise e) ->
    exists before x after w1,
      xs = (before ++ x :: after)%list
      /\ for_each before body w = (w1, Ok tt)
      /\ body x w1 = (w', Raise e).
Proof.
  induction xs as [|x xs IH]; intros w w' e; cbn [for_each].
  - discriminate.
  - unfold bind. destruct (body x w) as [w1 [[]|e1]] eqn:Hb.
    + intros Hrest. destruct (IH _ _ _ Hrest) as (before & y & after & w2 & -> & Hbef & Hy).
      exists (x :: before), y, after, w2. split; [reflexivity|]. split; [|assumption].
      cbn [for_each]. unfold bind. now rewrite Hb.
    + intros Heq; inversion Heq; subst. exists [], x, xs, w. auto.
Qed.

(** X12. What a run, whatever its outcome, does to the output folder: it
    makes and removes no directory; it removes no file; and a file that is
    not the file of a modified store of the final registry is as it was. *)
Theorem run_writes_only_files_of_modified_stores `{Yaml} (wb : workbook) (overwrite : bool)
        (w : world) :
  let w' := fst (generate_libelles wb overwrite w) in
  dict_keys (disk w') = dict_keys (disk w)
  /\ (forall f text, read_file f (disk w) = Some text ->
                     exists text', read_file f (disk w') = Some text')
  /\ (forall f,
         (forall store, In store (all_stores (translations w')) ->
                        modified store = true -> file store <> f) ->
         read_file f (disk w') = read_file f (disk w)).
Proof.
  cbv zeta. pose proof (generate_libelles_cases wb overwrite w) as Hrun.
  destruct (load_all (disk w) (glob (disk w)) []) as [t|e].
  - pose proof (growing_addTranslationsFromExcel wb overwrite (with_translations w t))
      as (Hdisk & _).
    destruct (FillLocalesTranslations_addTranslationsFromExcel wb overwrite _)
      as [wc [[]|e]]; cbn [fst with_translations disk] in Hdisk.
    + pose proof (save_all_folder (all_stores (translations wc)) wc) as Hsave.
      cbv zeta in Hsave.
      destruct (for_each _ _ wc) as [w1 [[]|e]]; rewrite Hrun;
        cbn [fst log disk translations] in *;
        destruct Hsave as (Ht & Hk & He & Ho); rewrite <- Hdisk;
        (split; [assumption|]); (split; [assumption|]);
        intros f Hf; apply Ho; now rewrite <- Ht.
    + rewrite Hrun. cbn [fst log disk]. rewrite Hdisk. eauto.
  - destruct Hrun as (wl & -> & Hd). cbn [fst log disk]. rewrite Hd. eauto.
Qed.

(** X13. A run that raises has reported the exception last, as the error
    of the run; and either the output folder is as it was, or the exception
    is the [FileNotFoundError] of a modified store whose directory is not
    in the folder: the stores before it in the order of the registry have
    been saved, and their files stay written. *)
Theorem failed_run_and_the_folder `{Yaml} (wb : workbook) (overwrite : bool)
        (w w' : world) (e : exn) :
  generate_libelles wb overwrite w = (w', Raise e) ->
  (exists out, stdout w' = (out ++ [LogError e])%list)
  /\ (disk w' = disk w
      \/ (e = FileNotFoundError
          /\ exists before store after wc,
              all_stores (translations w') = (before ++ store :: after)%list
              /\ modified store = true
              /\ dict_get (fst (file store)) (disk w') = None
              /\ disk wc = disk w
              /\ disk (fst (for_each before TranslationLangNs_save wc)) = disk w'
              /\ snd (for_each before TranslationLangNs_save wc) = Ok tt)).
Proof.
  pose proof (generate_libelles_cases wb overwrite w) as Hrun.
  destruct (load_all (disk w) (glob (disk w)) []) as [t|e0].
  - pose proof (growing_addTranslationsFromExcel wb overwrite (with_translations w t))
      as (Hdisk & _).
    destruct (FillLocalesTranslations_addTranslationsFromExcel wb overwrite _)
      as [wc [[]|e0]]; cbn [fst with_translations disk] in Hdisk.
    + destruct (for_each _ _ wc) as [w1 [[]|e0]] eqn:Hsave; rewrite Hrun;
        [discriminate|].
      intros Heq; inversion Heq; subst w' e0. clear Heq.
      split; [eexists; reflexivity|]. right.
      destruct (for_each_raise_inv _ _ _ _ _ Hsave)
        as (before & store & after & w2 & Hall & Hbefore & Hstore).
      destruct (save_raise _ _ _ _ Hstore) as (-> & -> & Hm & Hd).
      split; [reflexivity|]. exists before, store, after, wc.
      cbn [log translations disk].
      pose proof (save_all_folder before wc) as (Ht & _). rewrite Hbefore in Ht.
      cbn [fst] in Ht. rewrite Ht, Hbefore. auto 10.
    + rewrite Hrun. intros Heq; inversion Heq; subst.
      split; [eexists; reflexivity|]. left. exact Hdisk.
  - destruct Hrun as (wl & -> & Hd). intros Heq; inversion Heq; subst.
    split; [eexists; reflexivity|]. left. exact Hd.
Qed.

Lemma failed_run_and_the_folder_witness :
  let d := [(EmptyString, []);
            ("fr", [("home", mini_dump [(PStr "age", Plain "Votre age")])])] in
  let run := @generate_libelles mini_yaml wb_two_strategies false (boot d) in
  (exists out, stdout (fst run) = (out ++ [LogError FileNotFoundError])%list)
  /\ disk (fst run) <> d
  /\ read_file ("fr", "home") (disk (fst run))
     = Some (file_header
             ++ mini_dump [(PStr "age", Plain "Votre age");
                           (PStr "Q1_label", Plain "Bonjour {{nickname}}");
                           (PStr "Q2.label", Plain "Votre <strong>nom</strong>")]).
Proof.
  intros d run. split; [|split].
  - refine (proj1 (@failed_run_and_the_folder mini_yaml wb_two_strategies false (boot d)
                     (fst run) FileNotFoundError _)).
    vm_compute. reflexivity.
  - vm_compute. discriminate.
  - vm_compute. reflexivity.
Defined.

(** ** The two sheets of the workbook *)

(** The outcomes of the Labels helper. *)
Lemma getTranslationsFromLocaleSheet_cases (wb : workbook) (w : world) :
  (exists locales_dictionary,
      __getTranslationsFromLocaleSheet wb w = (w, Ok locales_dictionary)
      /\ Labels wb <> None)
  \/ (exists e, __getTranslationsFromLocaleSheet wb w = (log w (LogLocaleSheet e), Ok [])).
Proof.
  unfold __getTranslationsFromLocaleSheet, try_except, bind, lift, raise, print, ret, log.
  destruct (Labels wb) as [labels|]; cbn [sheet_exists].
  - destruct (Nat.leb (List.length labels) 1); [right; eexists; reflexivity|].
    destruct (get_headers labels ["key"]) as [headers|e]; [|right; eexists; reflexivity].
    destruct (index_locales headers (skipn 1 labels) []) as [d|e].
    + left. exists d. split; [reflexivity | discriminate].
    + right. eexists; reflexivity.
  - right. eexists; reflexivity.
Qed.

(** X14. The Labels helper never raises and never touches the registry or
    the files.  Either it prints nothing and returns a dictionary, or it
    prints one line, the exception it caught, and returns the empty
    dictionary; with no Labels sheet it always does the latter. *)
Theorem getTranslationsFromLocaleSheet_degrades (wb : workbook) (w : world) :
  (exists locales_dictionary,
      __getTranslationsFromLocaleSheet wb w = (w, Ok locales_dictionary)
      /\ Labels wb <> None)
  \/ (exists e, __getTranslationsFromLocaleSheet wb w = (log w (LogLocaleSheet e), Ok [])).
Proof.
  destruct (Labels wb) as [labels|] eqn:Hlabels.
  - destruct (getTranslationsFromLocaleSheet_cases wb w) as [(d & Hrun & _)|Hrun].
    + left. exists d. split; [exact Hrun | congruence].
    + right. exact Hrun.
  - right. unfold __getTranslationsFromLocaleSheet, try_except, bind, lift.
    rewrite Hlabels. eexists. reflexivity.
Qed.

Lemma getTranslationsFromLocaleSheet_returns (wb : workbook) (w : world) :
  exists w0 locales_dictionary,
    __getTranslationsFromLocaleSheet wb w = (w0, Ok locales_dictionary).
Proof.
  unfold __getTranslationsFromLocaleSheet, try_except, bind, lift, raise, print, ret.
  destruct (Labels wb) as [labels|]; cbn [sheet_exists]; [|eauto].
  destruct (Nat.leb (List.length labels) 1); [eauto|].
  destruct (get_headers labels ["key"]) as [headers|e]; [|eauto].
  destruct (index_locales headers (skipn 1 labels) []) as [d|e]; eauto.
Qed.

(** A row of the Widgets sheet with fewer than 8 cells. *)
Lemma widget_row_short overwrite locales_dictionary (row : list pyval) (w : world) :
  List.length row < 8 ->
  widget_row overwrite locales_dictionary row w = (w, Raise IndexError).
Proof.
  intros Hlen.
  assert (H7 : nth_error row 7 = None) by (apply nth_error_None; lia).
  unfold widget_row, bind, lift, index.
  destruct (nth_error row 0); [|reflexivity].
  destruct (nth_error row 3); [|reflexivity].
  destruct (nth_error row 5); [|reflexivity].
  destruct (nth_error row 6); [|reflexivity].
  now rewrite H7.
Qed.

(** A loop with an item on which the body always raises. *)
Lemma for_each_some_raise {A} (xs : list A) (body : A -> M unit) (x : A) :
  In x xs ->
  (forall w, exists w' e, body x w = (w', Raise e)) ->
  forall w, exists w' e, for_each xs body w = (w', Raise e).
Proof.
  intros Hin Hx. induction xs as [|y xs IH]; [contradiction|].
  intros w. cbn [for_each]. unfold bind.
  destruct (body y w) as [w1 [[]|e]] eqn:Hy; [|eauto].
  destruct Hin as [->|Hin]; [|now apply IH].
  destruct (Hx w) as (w' & e & Hb). congruence.
Qed.

(** X15. A workbook with no Widgets sheet, or with a data row of fewer
    than 8 cells in it, fails every run: the run raises, and the output
    folder is as it was.  The short row itself raises [IndexError] before
    anything is added; the missing sheet is a [KeyError], reported before
    the Labels sheet is read. *)
Theorem malformed_widgets_sheet_fails_the_run `{Yaml} (wb : workbook) (overwrite : bool) :
  (forall locales_dictionary row w,
      List.length row < 8 ->
      widget_row overwrite locales_dictionary row w = (w, Raise IndexError))
  /\ (Widgets wb = None ->
      forall w, FillLocalesTranslations_addTranslationsFromExcel wb overwrite w
                = (log w (LogExcel KeyError), Raise KeyError))
  /\ (match Widgets wb with
      | None => True
      | Some sheet => exists row, In row (skipn 1 sheet) /\ List.length row < 8
      end ->
      forall w, exists w' e,
        generate_libelles wb overwrite w = (w', Raise e) /\ disk w' = disk w).
Proof.
  split; [|split].
  - intros ld row w. apply widget_row_short.
  - intros Hw w. unfold FillLocalesTranslations_addTranslationsFromExcel, try_except.
    rewrite Hw. reflexivity.
  - intros Hbad w. pose proof (generate_libelles_cases wb overwrite w) as Hrun.
    destruct (load_all (disk w) (glob (disk w)) []) as [t|e].
    + pose proof (growing_addTranslationsFromExcel wb overwrite (with_translations w t))
        as (Hdisk & _).
      assert (Hraise : exists wc e,
                 FillLocalesTranslations_addTranslationsFromExcel wb overwrite
                   (with_translations w t) = (wc, Raise e)).
      { unfold FillLocalesTranslations_addTranslationsFromExcel, try_except.
        destruct (Widgets wb) as [sheet|]; [|do 2 eexists; reflexivity].
        destruct Hbad as (row & Hin & Hlen). unfold bind at 1.
        destruct (getTranslationsFromLocaleSheet_returns wb (with_translations w t))
          as (w0 & ld & ->).
        destruct (for_each_some_raise (skipn 1 sheet) (widget_row overwrite ld) row Hin
                    (fun w1 => ex_intro _ w1 (ex_intro _ IndexError
                                 (widget_row_short overwrite ld row w1 Hlen))) w0)
          as (w1 & e & ->).
        do 2 eexists; reflexivity. }
      destruct Hraise as (wc & e & He). rewrite He in Hrun, Hdisk.
      exists (log wc (LogError e)), e. split; [exact Hrun | exact Hdisk].
    + destruct Hrun as (wl & Hrun & Hd). exists (log wl (LogError e)), e. auto.
Qed.

Lemma malformed_widgets_sheet_fails_the_run_witness :
  exists w' e,
    @generate_libelles mini_yaml
      {| Widgets := Some [widgets_header; [PStr "Q1"; PNone; PNone; PStr "home"]];
         Labels := None |} false (boot empty_folder) = (w', Raise e)
    /\ disk w' = empty_folder.
Proof.
  refine (proj2 (proj2 (@malformed_widgets_sheet_fails_the_run mini_yaml
                          {| Widgets := Some [widgets_header;
                                              [PStr "Q1"; PNone; PNone; PStr "home"]];
                             Labels := None |} false)) _ (boot empty_folder)).
  cbn. exists [PStr "Q1"; PNone; PNone; PStr "home"]. split; [left; reflexivity | cbn; lia].
Defined.

(** ** The columns of a label row *)

Lemma str_split1_none (s : string) (sep : ascii) :
  occurs sep s = false -> str_split1 s sep = (s, None).
Proof.
  induction s as [|c s IH]; cbn [occurs str_split1]; [reflexivity|].
  intros Hocc. apply orb_false_iff in Hocc. destruct Hocc as [Hc Hs].
  rewrite Ascii.eqb_sym, Hc, (IH Hs). reflexivity.
Qed.

Lemma str_split1_first (a b : string) (sep : ascii) :
  occurs sep a = false -> str_split1 (a ++ String sep b) sep = (a, Some b).
Proof.
  induction a as [|c a IH]; cbn [occurs str_split1 append].
  - now rewrite Ascii.eqb_refl.
  - intros Hocc. apply orb_false_iff in Hocc. destruct Hocc as [Hc Ha].
    rewrite Ascii.eqb_sym, Hc, (IH Ha). reflexivity.
Qed.

(** A column name that has an underscore is none of the known columns. *)
Ltac known_column E Hocc :=
  let E' := fresh in
  pose proof (f_equal (fun v => match v with
                                | PStr s => occurs "_"%char s
                                | PNone | PInt _ | PDate _ => true
                                end) E) as E';
  cbv beta iota in E'; rewrite Hocc in E'; vm_compute in E'; discriminate.

(** X16. How a column of a label row is read, for a cell that is neither
    empty nor [None].  The column name is cut at its first underscore.  A
    name [lang_suffix] adds the cell for the language [lang] under the path
    [question_name_suffix], and raises [TypeError] when the question name
    is not text; a name [lang] with no underscore adds it under the
    question name itself.  A language part of more than two characters
    skips the column, and so does the name [md]. *)
Theorem locale_column_decodes (overwrite keepMarkdown : bool) (section question_name : pyval)
        (row : list (pyval * pyval)) (lang : string) (value : pyval) :
  occurs "_"%char lang = false ->
  value <> PStr EmptyString -> value <> PNone ->
  (forall suffix,
      dict_get (PStr (lang ++ "_" ++ suffix)) row = Some value ->
      locale_column overwrite section question_name row keepMarkdown
                    (PStr (lang ++ "_" ++ suffix))
      = if Nat.ltb 2 (String.length lang) then ret tt
        else match question_name with
             | PStr q =>
                 TranslationData_addTranslation lang section (PStr (q ++ "_" ++ suffix)) value
                                                overwrite keepMarkdown
             | PNone | PInt _ | PDate _ => raise TypeError
             end)
  /\ (dict_get (PStr lang) row = Some value ->
      locale_column overwrite section question_name row keepMarkdown (PStr lang)
      = if Nat.ltb 2 (String.length lang) || String.eqb lang "md" then ret tt
        else TranslationData_addTranslation lang section question_name value
                                            overwrite keepMarkdown).
Proof.
  intros Hlang Hempty Hnone. split.
  - intros suffix Hcell. unfold locale_column.
    assert (Hocc : occurs "_"%char (lang ++ "_" ++ suffix) = true).
    { rewrite occurs_app. cbn. now rewrite orb_true_r. }
    destruct (eq_dec _ (PStr "namespace")) as [E|_]; [known_column E Hocc|].
    destruct (eq_dec _ (PStr "key")) as [E|_]; [known_column E Hocc|].
    destruct (eq_dec _ (PStr "md")) as [E|_]; [known_column E Hocc|].
    rewrite Hcell.
    destruct (eq_dec value (PStr EmptyString)); [contradiction|].
    destruct (eq_dec value PNone); [contradiction|].
    cbn [split_column]. change ("_" ++ suffix) with (String "_" suffix).
    rewrite (str_split1_first lang suffix "_" Hlang).
    unfold bind, lift. cbn [fst snd].
    destruct (Nat.ltb 2 (String.length lang)); [reflexivity|].
    destruct question_name; reflexivity.
  - intros Hcell. unfold locale_column.
    destruct (Nat.ltb 2 (String.length lang)) eqn:Hlen.
    + cbn [orb].
      destruct (eq_dec _ (PStr "namespace")); [reflexivity|].
      destruct (eq_dec _ (PStr "key")); [reflexivity|].
      destruct (eq_dec _ (PStr "md")); [reflexivity|].
      rewrite Hcell.
      destruct (eq_dec value (PStr EmptyString)); [contradiction|].
      destruct (eq_dec value PNone); [contradiction|].
      cbn [split_column]. rewrite (str_split1_none lang "_" Hlang).
      unfold bind, lift. cbn [fst snd]. now rewrite Hlen.
    + cbn [orb].
      destruct (eq_dec _ (PStr "namespace")) as [E|_];
        [inversion E as [E']; rewrite E' in Hlen; discriminate|].
      destruct (eq_dec _ (PStr "key")) as [E|_];
        [inversion E as [E']; rewrite E' in Hlen; discriminate|].
      destruct (String.eqb lang "md") eqn:Hmd.
      * apply String.eqb_eq in Hmd. subst lang.
        destruct (eq_dec _ (PStr "md")); [reflexivity | congruence].
      * destruct (eq_dec _ (PStr "md")) as [E|_];
          [inversion E as [E']; rewrite E', String.eqb_refl in Hmd; discriminate|].
        rewrite Hcell.
        destruct (eq_dec value (PStr EmptyString)); [contradiction|].
        destruct (eq_dec value PNone); [contradiction|].
        cbn [split_column]. rewrite (str_split1_none lang "_" Hlang).
        unfold bind, lift, ret. cbn [fst snd]. now rewrite Hlen.
Qed.

Lemma locale_column_decodes_witness :
  locale_column false (PStr "home") (PStr "Q1")
                [(PStr "key", PStr "Q1"); (PStr "fr_label", PStr "Nom")] false
                (PStr "fr_label")
  = TranslationData_addTranslation "fr" (PStr "home") (PStr "Q1_label") (PStr "Nom") false false.
Proof.
  refine (proj1 (locale_column_decodes false false (PStr "home") (PStr "Q1")
                   [(PStr "key", PStr "Q1"); (PStr "fr_label", PStr "Nom")] "fr" (PStr "Nom")
                   eq_refl _ _) "label" eq_refl); discriminate.
Defined.

(** ** The registry at the end of a run *)


Section RegistryShape.
Context `{Yaml}.




End RegistryShape.


(** ** The load phase and the folder *)

Section LoadPhase.
Context `{Yaml}.

Lemma load_all_first_failure (d : filesystem) (before after : list fpath) (f : fpath)
      (e : exn) :
  (forall g, In g before -> exists store, load_file d g = Ok store) ->
  load_file d f = Raise e ->
  forall t, load_all d (before ++ f :: after) t = Raise e.
Proof.
  intros Hbefore Hf. induction before as [|g before IH]; intros t; cbn [load_all app].
  - now rewrite Hf.
  - destruct (Hbefore g (or_introl eq_refl)) as (store & ->).
    apply IH. intros g' Hin. apply Hbefore. now right.
Qed.

Lemma load_file_unmodified (d : filesystem) (f : fpath) (store : TranslationLangNs) :
  load_file d f = Ok store -> modified store = false /\ file store = f.
Proof.
  unfold load_file. destruct (read_file f d); [|discriminate].
  destruct (yaml_load s); [|discriminate].
  destruct (load_paths a []); [|discriminate].
  intros Heq; inversion Heq; subst. auto.
Qed.

(** Every entry of the registry after a load was there before, or is what
    one of the files gave. *)
Lemma load_all_from (d : filesystem) (files : list fpath) :
  forall t t',
    load_all d files t = Ok t' ->
    forall l section store,
      lookup_store t' l section = Some store ->
      lookup_store t l section = Some store
      \/ exists s, section = PStr s /\ In (l, s) files /\ load_file d (l, s) = Ok store.
Proof.
  induction files as [|f files IH]; intros t t'; cbn [load_all].
  - intros Heq; inversion Heq; subst. auto.
  - destruct (load_file d f) as [store_f|e] eqn:Hf; [|discriminate].
    intros Hrest l section store Hlook.
    destruct (IH _ _ Hrest l section store Hlook) as [Hreg|(s & -> & Hin & Hs)].
    + rewrite lookup_store_register in Hreg.
      destruct (eq_dec l (fst f)) as [->|]; [|now left].
      destruct (eq_dec section (PStr (snd f))) as [->|]; [|now left].
      inversion Hreg; subst store_f. right. exists (snd f).
      split; [reflexivity|]. split; [left; now destruct f|]. now destruct f.
    + right. exists s. split; [reflexivity|]. split; [now right | assumption].
Qed.

(** The registry that the load phase gives. *)
Lemma load_all_mirror (d : filesystem) t :
  load_all d (glob d) [] = Ok t ->
  forall l section store,
    lookup_store t l section = Some store
    <-> exists s, section = PStr s /\ In (l, s) (glob d) /\ load_file d (l, s) = Ok store.
Proof.
  intros Hl l section store. split.
  - intros Hlook.
    destruct (load_all_from _ _ _ _ Hl l section store Hlook) as [Hnil|Hfrom];
      [discriminate | exact Hfrom].
  - intros (s & -> & Hin & Hfile).
    destruct (load_all_lookup _ _ _ _ _ Hl Hin Hfile) as (sections & Hs & Hst).
    unfold lookup_store. now rewrite Hs.
Qed.

End LoadPhase.

(** X18. The load phase on a new registry.  When every file of the folder
    loads, the phase returns and the registry mirrors the folder: it has
    an entry for a language and section exactly when the folder has the
    file of that language and section, and the entry is what the file
    gives at load, not modified.  Otherwise the phase raises what the
    first file that does not load raises, and the files are as they
    were. *)
Theorem loadCurrentTranslations_mirrors_folder `{Yaml} (w : world)
        (Hnew : translations w = []) :
  ((forall f, In f (glob (disk w)) -> exists store, load_file (disk w) f = Ok store) ->
   exists t,
     FillLocalesTranslations_loadCurrentTranslations w = (with_translations w t, Ok tt)
     /\ forall l section store,
         lookup_store t l section = Some store
         <-> exists s, section = PStr s /\ In (l, s) (glob (disk w))
                       /\ load_file (disk w) (l, s) = Ok store
                       /\ modified store = false /\ file store = (l, s))
  /\ (forall before f after e,
         glob (disk w) = (before ++ f :: after)%list ->
         (forall g, In g before -> exists store, load_file (disk w) g = Ok store) ->
         load_file (disk w) f = Raise e ->
         exists w',
           FillLocalesTranslations_loadCurrentTranslations w = (w', Raise e)
           /\ disk w' = disk w).
Proof.
  pose proof (loadCurrentTranslations_run w) as Hrun. rewrite Hnew in Hrun. split.
  - intros Hall. destruct (load_all_ok _ _ Hall []) as (t & Ht). rewrite Ht in Hrun.
    exists t. split; [exact Hrun|]. intros l section store.
    rewrite (load_all_mirror _ _ Ht). split.
    + intros (s & -> & Hin & Hf). exists s.
      destruct (load_file_unmodified _ _ _ Hf). auto 6.
    + intros (s & -> & Hin & Hf & _). eauto.
  - intros before f after e Hglob Hbefore Hf.
    rewrite Hglob, (load_all_first_failure _ before after f e Hbefore Hf) in Hrun.
    exact Hrun.
Qed.

Lemma loadCurrentTranslations_mirrors_folder_witness :
  let d := [(EmptyString, []);
            ("fr", [("home", mini_dump [(PStr "age", Plain "Votre age")])])] in
  exists t,
    @FillLocalesTranslations_loadCurrentTranslations mini_yaml (boot d)
    = (with_translations (boot d) t, Ok tt)
    /\ lookup_store t "fr" (PStr "home")
       = Some {| modified := false; data := [(PStr "age", Plain "Votre age")];
                 file := ("fr", "home") |}.
Proof.
  intros d.
  destruct (proj1 (@loadCurrentTranslations_mirrors_folder mini_yaml (boot d) eq_refl))
    as (t & Hrun & Ht).
  - intros f [<-|[]]. eexists. vm_compute. reflexivity.
  - exists t. split; [exact Hrun|]. apply Ht. exists "home".
    split; [reflexivity|]. split; [now left|]. vm_compute. auto.
Defined.

(** X19. A Widgets sheet with no data row, on a folder whose files all
    load: the run returns and writes nothing, whatever the Labels sheet
    holds; it prints at most the line of the Labels helper. *)
Theorem run_without_data_rows_writes_nothing `{Yaml} (wb : workbook) (widgets : sheet)
        (overwrite : bool) (w : world)
        (Hwidgets : Widgets wb = Some widgets)
        (Hrows : List.length widgets <= 1)
        (Hfiles : forall f, In f (glob (disk w)) -> exists store, load_file (disk w) f = Ok store) :
  exists w',
    generate_libelles wb overwrite w = (w', Ok tt)
    /\ disk w' = disk w
    /\ (stdout w' = stdout w \/ exists e, stdout w' = (stdout w ++ [LogLocaleSheet e])%list).
Proof.
  destruct (load_all_ok _ _ Hfiles []) as (t & Ht).
  assert (Hskip : skipn 1 widgets = []).
  { destruct widgets as [|h [|r rest]]; cbn in *; [reflexivity | reflexivity | lia]. }
  assert (Hclean : forall store, In store (all_stores t) -> modified store = false).
  { intros store Hin.
    pose proof (load_all_registry_ok _ _ _ _ (registry_ok_nil (disk w)) Ht) as Hok.
    destruct (all_stores_lookup _ _ _ Hok Hin) as (l & sections & section & Hl & Hs).
    assert (Hlook : lookup_store t l section = Some store)
      by (unfold lookup_store; now rewrite Hl).
    apply (load_all_mirror _ _ Ht) in Hlook as (s & _ & _ & Hf).
    now destruct (load_file_unmodified _ _ _ Hf). }
  assert (Hextract : forall w0 ld,
             __getTranslationsFromLocaleSheet wb (with_translations w t) = (w0, Ok ld) ->
             FillLocalesTranslations_addTranslationsFromExcel wb overwrite (with_translations w t)
             = (w0, Ok tt)).
  { intros w0 ld Hh. unfold FillLocalesTranslations_addTranslationsFromExcel, try_except.
    rewrite Hwidgets. unfold bind. now rewrite Hh, Hskip. }
  destruct (getTranslationsFromLocaleSheet_cases wb (with_translations w t))
    as [(ld & Hh & _)|(e & Hh)].
  - exists (with_translations w t). split; [|split; [reflexivity | now left]].
    eapply generate_libelles_compose; [exact Ht | exact (Hextract _ _ Hh) |].
    now apply save_all_clean.
  - exists (log (with_translations w t) (LogLocaleSheet e)).
    split; [|split; [reflexivity | right; eexists; reflexivity]].
    eapply generate_libelles_compose; [exact Ht | exact (Hextract _ _ Hh) |].
    now apply save_all_clean.
Qed.

Lemma run_without_data_rows_writes_nothing_witness :
  let d := [(EmptyString, []);
            ("fr", [("home", mini_dump [(PStr "age", Plain "Votre age")])])] in
  exists w',
    @generate_libelles mini_yaml {| Widgets := Some [widgets_header]; Labels := None |}
                       false (boot d) = (w', Ok tt)
    /\ disk w' = d.
Proof.
  intros d.
  destruct (@run_without_data_rows_writes_nothing mini_yaml
              {| Widgets := Some [widgets_header]; Labels := None |}
              [widgets_header] false (boot d) eq_refl (le_n 1))
    as (w' & Hrun & Hd & _).
  - intros f [<-|[]]. eexists. vm_compute. reflexivity.
  - exists w'. split; [|exact Hd]. exact Hrun.
Defined.

(** ** The save phase of a run that returns *)

Section SaveReport.
Context `{Yaml}.


End SaveReport.



(** ** A question that has a label row *)

Lemma widget_row_labelled overwrite locales_dictionary (row : list pyval)
      (question_name section : pyval) (locale : list (pyval * pyval)) (w : world) :
  nth_error row 0 = Some question_name -> nth_error row 3 = Some section ->
  8 <= List.length row ->
  dict_get question_name locales_dictionary = Some locale ->
  widget_row overwrite locales_dictionary row w
  = __addTranslationsFromLocales overwrite section question_name locale w.
Proof.
  intros H0 H3 Hlen Hd. unfold widget_row, bind, lift, index. rewrite H0, H3.
  destruct (nth_error row 5) eqn:H5; [|apply nth_error_None in H5; lia].
  destruct (nth_error row 6) eqn:H6; [|apply nth_error_None in H6; lia].
  destruct (nth_error row 7) eqn:H7; [|apply nth_error_None in H7; lia].
  now rewrite Hd.
Qed.

(** X21. A row of the Widgets sheet whose question has a label row: the
    row never raises, and its own path and text cells are not read; two
    such rows with the same question and section do the same. *)
Theorem labelled_question_ignores_widget_cells
        (overwrite : bool) (locales_dictionary : list (pyval * list (pyval * pyval)))
        (row1 row2 : list pyval) (question_name section : pyval) :
  nth_error row1 0 = Some question_name -> nth_error row2 0 = Some question_name ->
  nth_error row1 3 = Some section -> nth_error row2 3 = Some section ->
  8 <= List.length row1 -> 8 <= List.length row2 ->
  dict_mem question_name locales_dictionary = true ->
  forall w,
    widget_row overwrite locales_dictionary row1 w
    = widget_row overwrite locales_dictionary row2 w
    /\ snd (widget_row overwrite locales_dictionary row1 w) = Ok tt.
Proof.
  intros H1 H2 H3 H4 Hl1 Hl2 Hmem w. unfold dict_mem in Hmem.
  destruct (dict_get question_name locales_dictionary) as [locale|] eqn:Hd; [|discriminate].
  rewrite (widget_row_labelled overwrite _ row1 _ _ locale w H1 H3 Hl1 Hd).
  rewrite (widget_row_labelled overwrite _ row2 _ _ locale w H2 H4 Hl2 Hd).
  split; [reflexivity | apply addTranslationsFromLocales_returns].
Qed.

Lemma labelled_question_ignores_widget_cells_witness :
  let ld := [(PStr "q", [(PStr "key", PStr "q"); (PStr "fr_label", PStr "Nom")])] in
  widget_row false ld (widget "q" "s" "p1" (PStr "Bonjour") (PStr "Hello")) (boot [])
  = widget_row false ld (widget "q" "s" "p2" PNone (PInt 3)) (boot []).
Proof.
  intros ld.
  refine (proj1 (labelled_question_ignores_widget_cells false ld
                   (widget "q" "s" "p1" (PStr "Bonjour") (PStr "Hello"))
                   (widget "q" "s" "p2" PNone (PInt 3)) (PStr "q") (PStr "s")
                   eq_refl eq_refl eq_refl eq_refl _ _ eq_refl (boot []))); cbn; lia.
Defined.

(** ** The transformer on bold text and line breaks *)

Lemma plain_text_spec (s : string) :
  plain_text s = true ->
  occurs "*"%char s = false /\ occurs "_"%char s = false /\ occurs nl s = false.
Proof.
  unfold plain_text. intros Hplain.
  apply andb_prop in Hplain as [Hplain Hnl]. apply andb_prop in Hplain as [Hstar Hunder].
  apply negb_true_iff in Hnl, Hstar, Hunder. auto.
Qed.

(** The three notations that start with an underscore leave a text with
    no underscore as it is. *)
Lemma underscore_steps_absent (s : string) :
  occurs "_"%char s = false ->
  let step k x := spec_balance x (ValueReplacer.notation_of k)
                               (ValueReplacer.start_of k) (ValueReplacer.end_of k) in
  step ValueReplacer.Red (step ValueReplacer.Green (step ValueReplacer.Oblique s)) = s.
Proof.
  intros Hs step. unfold step.
  rewrite (spec_balance_absent s) by (now apply str_in_absent).
  rewrite (spec_balance_absent s) by (now apply str_in_absent).
  apply spec_balance_absent. now apply str_in_absent.
Qed.

(** X22. The transformer on plain texts (no star, no underscore, no line
    break) around its two most common notations: a pair of bold tokens
    becomes a pair of [strong] tags, and a line break becomes a break tag;
    the plain texts are kept as they are. *)
Theorem replace_bold_and_line_break (before inside after : string)
        (Hbefore : plain_text before = true)
        (Hinside : plain_text inside = true)
        (Hafter : plain_text after = true) :
  ValueReplacer.replace (before ++ "**" ++ inside ++ "**" ++ after)
  = before ++ "<strong>" ++ inside ++ "</strong>" ++ after
  /\ ValueReplacer.replace (before ++ newline ++ after) = before ++ "<br />" ++ after.
Proof.
  destruct (plain_text_spec _ Hbefore) as (Hb1 & Hb2 & Hb3).
  destruct (plain_text_spec _ Hinside) as (Hi1 & Hi2 & Hi3).
  destruct (plain_text_spec _ Hafter) as (Ha1 & Ha2 & Ha3).
  split; rewrite replace_chain; cbv zeta.
  - assert (Hbr : str_replace (before ++ "**" ++ inside ++ "**" ++ after) newline "<br />"
                  = before ++ "**" ++ inside ++ "**" ++ after).
    { apply str_replace_absent. change newline with (String nl EmptyString).
      rewrite str_in_single, !occurs_app, Hb3, Hi3, Ha3. reflexivity. }
    rewrite Hbr.
    assert (Hbold : spec_balance (before ++ "**" ++ inside ++ "**" ++ after)
                                 (ValueReplacer.notation_of ValueReplacer.Bold)
                                 (ValueReplacer.start_of ValueReplacer.Bold)
                                 (ValueReplacer.end_of ValueReplacer.Bold)
                    = before ++ "<strong>" ++ inside ++ "</strong>" ++ after)
      by exact (spec_balance_pair ValueReplacer.Bold before inside after Hb1 Hi1 Ha1).
    rewrite Hbold.
    apply underscore_steps_absent.
    rewrite !occurs_app, Hb2, Hi2, Ha2. reflexivity.
  - assert (Hbr : str_replace (before ++ newline ++ after) newline "<br />"
                  = before ++ "<br />" ++ after).
    { change newline with (String nl EmptyString).
      rewrite (str_replace_occurrence nl EmptyString "<br />" eq_refl before after).
      rewrite !str_replace_absent; [reflexivity | |]; now rewrite str_in_single. }
    rewrite Hbr.
    rewrite (spec_balance_absent (before ++ "<br />" ++ after))
      by (apply str_in_absent; rewrite !occurs_app, Hb1, Ha1; reflexivity).
    apply underscore_steps_absent.
    rewrite !occurs_app, Hb2, Ha2. reflexivity.
Qed.

Lemma replace_bold_and_line_break_witness :
  ValueReplacer.replace ("Quel est " ++ "**" ++ "votre age" ++ "**" ++ " ?")
  = "Quel est " ++ "<strong>" ++ "votre age" ++ "</strong>" ++ " ?".
Proof.
  exact (proj1 (replace_bold_and_line_break "Quel est " "votre age" " ?"
                                            eq_refl eq_refl eq_refl)).
Defined.

(** ** What an add changes in the registry *)

(** X23. An add of text that returns changes at most one value of the
    registry and nothing else: the value at the language, section and path
    of the add is the transformed text in the form [stringToYaml] gives,
    unless the gate holds the add back, and then it is the value that was
    there; every other value of the registry is as before, and nothing is
    printed or written. *)
Theorem addTranslation_changes_one_path (lang : string) (section path : pyval)
        (value : string) (overwrite keepMarkdown : bool) (w w' : world) :
  TranslationData_addTranslation lang section path (PStr value) overwrite keepMarkdown w
  = (w', Ok tt) ->
  let existing := lookup_store (translations w) lang section in
  let text := str_replace value "[nom]" "{{nickname}}" in
  let text := if negb keepMarkdown then ValueReplacer.replace text else text in
  value_at (translations w') lang section path
  = (if held_back existing path overwrite
     then value_at (translations w) lang section path
     else Some (TranslationLangNs_stringToYaml text))
  /\ (forall l s p, l <> lang \/ s <> section \/ p <> path ->
                    value_at (translations w') l s p = value_at (translations w) l s p)
  /\ stdout w' = stdout w
  /\ disk w' = disk w.
Proof.
  rewrite addTranslation_run. cbv zeta.
  pose proof (ensure_lang_get lang (translations w)) as Hget.
  assert (Hl1 : forall l s, lookup_store (ensure_lang lang (translations w)) l s
                            = lookup_store (translations w) l s)
    by (intros; apply lookup_store_ensure_lang).
  set (t1 := ensure_lang lang (translations w)) in *.
  assert (Hex : lookup_store (translations w) lang section
                = dict_get section
                    (match dict_get lang (translations w) with Some s => s | None => [] end)).
  { unfold lookup_store. destruct (dict_get lang (translations w)); reflexivity. }
  set (sections := match dict_get lang (translations w) with Some s => s | None => [] end) in *.
  unfold value_at. rewrite Hex.
  destruct (dict_get section sections) as [store|] eqn:Hs.
  - unfold TranslationLangNs_addTranslation. cbn [held_back].
    destruct (negb overwrite && dict_mem path (data store)) eqn:Hgate;
      intros Heq; inversion Heq; subst w'; clear Heq;
      cbn [with_translations translations stdout disk];
      (split; [|split; [|split; reflexivity]]).
    + rewrite lookup_store_update by assumption.
      destruct (eq_dec lang lang); [|congruence]. destruct (eq_dec section section); congruence.
    + intros l s p Hne. rewrite lookup_store_update by assumption.
      destruct (eq_dec l lang) as [->|]; [|now rewrite Hl1].
      destruct (eq_dec s section) as [->|]; [|now rewrite Hl1].
      now rewrite Hex.
    + rewrite lookup_store_update by assumption.
      destruct (eq_dec lang lang); [|congruence]. destruct (eq_dec section section); [|congruence].
      cbn [data]. now rewrite dict_get_set_same.
    + intros l s p Hne. rewrite lookup_store_update by assumption.
      destruct (eq_dec l lang) as [->|]; [|now rewrite Hl1].
      destruct (eq_dec s section) as [->|]; [|now rewrite Hl1].
      rewrite Hex. cbn [data]. apply dict_get_set_other.
      destruct Hne as [Hne|[Hne|Hne]]; congruence.
  - destruct section as [|s0|z|dt]; [discriminate | | discriminate | discriminate].
    unfold TranslationLangNs_addTranslation.
    cbn [TranslationLangNs_init data dict_mem dict_get held_back]. rewrite andb_false_r.
    intros Heq; inversion Heq; subst w'; clear Heq.
    cbn [with_translations translations stdout disk file].
    assert (Hget2 : dict_get lang
                      (dict_set lang
                         (dict_set (PStr s0) {| modified := false; data := []; file := (lang, s0) |}
                                   sections) t1)
                    = Some (dict_set (PStr s0)
                                     {| modified := false; data := []; file := (lang, s0) |}
                                     sections))
      by apply dict_get_set_same.
    split; [|split; [|split; reflexivity]].
    + rewrite (lookup_store_update _ _ _ _ _ _ _ Hget2).
      destruct (eq_dec lang lang); [|congruence].
      destruct (eq_dec (PStr s0) (PStr s0)); [|congruence].
      cbn [data]. exact (dict_get_set_same path _ []).
    + intros l s p Hne. rewrite (lookup_store_update _ _ _ _ _ _ _ Hget2).
      destruct (eq_dec l lang) as [->|].
      * destruct (eq_dec s (PStr s0)) as [->|].
        -- assert (Hp : p <> path) by (destruct Hne as [Hne|[Hne|Hne]]; congruence).
           rewrite Hex. cbn [data]. exact (dict_get_set_other path p _ [] Hp).
        -- rewrite lookup_store_update by assumption.
           destruct (eq_dec lang lang); [|congruence].
           destruct (eq_dec s (PStr s0)); [congruence|]. now rewrite Hl1.
      * rewrite lookup_store_update by assumption.
        destruct (eq_dec l lang); [congruence|]. now rewrite Hl1.
Qed.

Lemma addTranslation_changes_one_path_witness :
  let run := TranslationData_addTranslation "fr" (PStr "home") (PStr "age")
                                            (PStr "Votre **age**") false false (boot []) in
  value_at (translations (fst run)) "fr" (PStr "home") (PStr "age")
  = Some (Plain "Votre <strong>age</strong>").
Proof.
  intros run.
  refine (proj1 (addTranslation_changes_one_path "fr" (PStr "home") (PStr "age")
                   "Votre **age**" false false (boot []) (fst run) _)).
  vm_compute. reflexivity.
Defined.
